(** * The markup-to-layout pipeline of [app.py]

    A shallow embedding of [process_inline_formatting] and
    [create_pdf_reportlab], together with the part of Python's [str] and
    [re] that the two functions use, and the properties of the composer
    that follow from them.  The second part embeds the application
    around the two functions: the calls of the models, the saved lists
    and the handlers of the buttons.

    A Python [str] is a sequence of Unicode code points: a character is an
    [N], a string a [list N].  ReportLab's flowables are modelled as data:
    the list handed to [doc.build] is what the embedding returns. *)

From Stdlib Require Import List NArith ZArith Bool Arith Lia String Ascii.
From Stdlib Require QArith_base.
Import ListNotations.

(** ** Characters and strings *)

Definition pystr := list N.

(** A literal: the code points of an ASCII string constant. *)
Definition L (s : string) : pystr := map N_of_ascii (list_ascii_of_string s).

Abbreviation NL := 10%N.      (* "\n" *)
Abbreviation CR := 13%N.      (* "\r" *)
Abbreviation QUOTE := 34%N.   (* the double quote *)
Abbreviation HASH := 35%N.    (* "#" *)
Abbreviation LPAR := 40%N.    (* "(" *)
Abbreviation RPAR := 41%N.    (* ")" *)
Abbreviation STAR := 42%N.    (* "*" *)
Abbreviation DASH := 45%N.    (* "-" *)
Abbreviation DOT := 46%N.     (* "." *)
Abbreviation LBRA := 91%N.    (* "[" *)
Abbreviation RBRA := 93%N.    (* "]" *)

Definition between (lo hi c : N) : bool := (lo <=? c)%N && (c <=? hi)%N.

(** [str.isspace] on one character, which is also [\s] of a [str] pattern:
    U+0009..000D, U+001C..0020, U+0085, U+00A0, U+1680, U+2000..200A,
    U+2028, U+2029, U+202F, U+205F, U+3000. *)
Definition isspace (c : N) : bool :=
  between 9 13 c || between 28 32 c || (c =? 133)%N || (c =? 160)%N
  || (c =? 5760)%N || between 8192 8202 c || (c =? 8232)%N || (c =? 8233)%N
  || (c =? 8239)%N || (c =? 8287)%N || (c =? 12288)%N.

(** The line boundaries of [str.splitlines]: "\n", "\v", "\f", "\r",
    U+001C..001E, U+0085, U+2028, U+2029. *)
Definition islinebreak (c : N) : bool :=
  between 10 13 c || between 28 30 c || (c =? 133)%N || (c =? 8232)%N
  || (c =? 8233)%N.

(** First code point of every run of decimal digits (category Nd) of the
    Unicode database, version 14; each run has ten digits, and the
    mathematical digits at U+1D7CE are five runs in a row. *)
Definition decimal_runs : list N :=
  [48; 1632; 1776; 1984; 2406; 2534; 2662; 2790; 2918; 3046; 3174; 3302;
   3430; 3558; 3664; 3792; 3872; 4160; 4240; 6112; 6160; 6470; 6608; 6784;
   6800; 6992; 7088; 7232; 7248; 42528; 43216; 43264; 43472; 43504; 43600;
   44016; 65296; 66720; 68912; 69734; 69872; 69942; 70096; 70384; 70736;
   70864; 71248; 71360; 71472; 71904; 72016; 72784; 73040; 73120; 92768;
   92864; 93008; 120782; 120792; 120802; 120812; 120822; 123200; 123632;
   125264; 130032]%N.

(** [\d] of a [str] pattern. *)
Definition isdecimal (c : N) : bool :=
  existsb (fun lo => between lo (lo + 9) c) decimal_runs.

Definition char (c : N) : N -> bool := fun x => (x =? c)%N.
Definition except (c : N) : N -> bool := fun x => negb (x =? c)%N.

(** [.] without DOTALL: anything but "\n". *)
Definition dot : N -> bool := except NL.

(** The class [[\dA-Za-z]]. *)
Definition alnum (c : N) : bool :=
  isdecimal c || between 65 90 c || between 97 122 c.

Definition nonempty (s : pystr) : bool :=
  match s with [] => false | _ :: _ => true end.

Fixpoint lstrip_by (p : N -> bool) (s : pystr) : pystr :=
  match s with
  | c :: s' => if p c then lstrip_by p s' else s
  | [] => []
  end.

Definition rstrip_by (p : N -> bool) (s : pystr) : pystr :=
  rev (lstrip_by p (rev s)).

(** [s.strip()] *)
Definition strip (s : pystr) : pystr := rstrip_by isspace (lstrip_by isspace s).

(** [s.lstrip(chars)] *)
Definition lstrip (chars : pystr) (s : pystr) : pystr :=
  lstrip_by (fun c => existsb (N.eqb c) chars) s.

(** [s.splitlines()]: the lines without their boundaries; "\r\n" is one
    boundary, and a boundary at the very end opens no further line. *)
Fixpoint splitlines (s : pystr) : list pystr :=
  match s with
  | [] => []
  | c :: s' =>
      if islinebreak c then
        [] :: match s' with
              | c' :: s'' =>
                  if (c =? CR)%N && (c' =? NL)%N then splitlines s''
                  else splitlines s'
              | [] => []
              end
      else
        match splitlines s' with
        | [] => [[c]]
        | l :: ls => (c :: l) :: ls
        end
  end.

(** ** Regular expressions

    The fragment of [re] that the five patterns of the program are written
    in.  Quantifiers are applied to one-character atoms only, as they are
    in the source. *)

Inductive regex : Type :=
| Chr (p : N -> bool)                 (* a literal, a class, a category, [.] *)
| Quest (p : N -> bool)               (* [p?] *)
| Star (greedy : bool) (p : N -> bool)  (* [p*], [p*?] *)
| Plus (greedy : bool) (p : N -> bool)  (* [p+], [p+?] *)
| Cat (r1 r2 : regex)
| Alt (r1 r2 : regex)
| Group (n : nat) (r : regex)         (* the n-th capturing group *)
| Bol                                 (* [^] *)
| Eol.                                (* [$] *)

(** The text captured by each group, most recent first. *)
Definition groups := list (nat * pystr).

Fixpoint group (g : groups) (n : nat) : pystr :=
  match g with
  | [] => []
  | (n', t) :: g' => if Nat.eqb n n' then t else group g' n
  end.

(** [^] matches at the start of the string and, under MULTILINE, after
    each "\n"; [b] is the character before the cursor. *)
Definition at_bol (multiline : bool) (b : option N) : bool :=
  match b with
  | None => true
  | Some c => multiline && (c =? NL)%N
  end.

(** [$] matches at the end of the string and before a "\n" that ends it;
    under MULTILINE before every "\n". *)
Definition at_eol (multiline : bool) (s : pystr) : bool :=
  match s with
  | [] => true
  | c :: s' => (c =? NL)%N && (multiline || negb (nonempty s'))
  end.

(** A backtracking matcher in continuation-passing style.  The cursor is
    the index [i], the character [b] before it and the text [s] from it
    on; a continuation that answers [None] makes the matcher try its next
    alternative, in the order [re] tries them. *)
Section Matcher.
Variable A : Type.

Definition cont := nat -> option N -> pystr -> groups -> option A.

Definition one (p : N -> bool) (k : cont) : cont :=
  fun i b s g =>
    match s with
    | c :: s' => if p c then k (S i) (Some c) s' g else None
    | [] => None
    end.

Definition orelse (k1 k2 : cont) : cont :=
  fun i b s g =>
    match k1 i b s g with
    | Some r => Some r
    | None => k2 i b s g
    end.

(** As many characters as possible first. *)
Fixpoint rep_greedy (p : N -> bool) (k : cont) (i : nat) (b : option N)
    (s : pystr) (g : groups) {struct s} : option A :=
  match s with
  | c :: s' =>
      if p c then
        match rep_greedy p k (S i) (Some c) s' g with
        | Some r => Some r
        | None => k i b s g
        end
      else k i b s g
  | [] => k i b s g
  end.

(** As few characters as possible first. *)
Fixpoint rep_lazy (p : N -> bool) (k : cont) (i : nat) (b : option N)
    (s : pystr) (g : groups) {struct s} : option A :=
  match k i b s g with
  | Some r => Some r
  | None =>
      match s with
      | c :: s' => if p c then rep_lazy p k (S i) (Some c) s' g else None
      | [] => None
      end
  end.

Definition rep (greedy : bool) (p : N -> bool) (k : cont) : cont :=
  if greedy then rep_greedy p k else rep_lazy p k.

Fixpoint m (multiline : bool) (r : regex) (k : cont) {struct r} : cont :=
  match r with
  | Chr p => one p k
  | Quest p => orelse (one p k) k
  | Star gr p => rep gr p k
  | Plus gr p => one p (rep gr p k)
  | Cat r1 r2 => m multiline r1 (m multiline r2 k)
  | Alt r1 r2 => orelse (m multiline r1 k) (m multiline r2 k)
  | Group n r1 =>
      fun i b s g =>
        m multiline r1
          (fun i' b' s' g' => k i' b' s' ((n, firstn (i' - i) s) :: g'))
          i b s g
  | Bol => fun i b s g => if at_bol multiline b then k i b s g else None
  | Eol => fun i b s g => if at_eol multiline s then k i b s g else None
  end.
End Matcher.

Arguments one {A} p k i b s g.
Arguments orelse {A} k1 k2 i b s g.
Arguments rep_greedy {A} p k i b s g.
Arguments rep_lazy {A} p k i b s g.
Arguments rep {A} greedy p k.
Arguments m {A} multiline r k.

(** A match at the cursor: the index where it ends and its groups. *)
Definition match_at (multiline : bool) (r : regex) (i : nat) (b : option N)
    (s : pystr) : option (nat * groups) :=
  m multiline r (fun e _ _ g => Some (e, g)) i b s [].

(** [re.match(r, s)]: a match at the start of [s]. *)
Definition re_match (r : regex) (s : pystr) : option (nat * groups) :=
  match_at false r 0 None s.

(** A replacement template: literal text and group references. *)
Inductive piece : Type :=
| Text (t : pystr)
| Ref (n : nat).

Definition expand (repl : list piece) (g : groups) : pystr :=
  flat_map (fun p => match p with Text t => t | Ref n => group g n end) repl.

(** [re.sub]: scan from the left; at a match put the expanded template
    and go on behind the match; elsewhere copy the character.  [skip]
    counts the characters of the last match still to pass over. *)
Fixpoint sub_from (multiline : bool) (r : regex) (repl : list piece)
    (skip i : nat) (b : option N) (s : pystr) {struct s} : pystr :=
  match s with
  | [] =>
      match skip with
      | S _ => []
      | O => match match_at multiline r i b [] with
             | Some (_, g) => expand repl g
             | None => []
             end
      end
  | c :: s' =>
      match skip with
      | S n => sub_from multiline r repl n (S i) (Some c) s'
      | O =>
          match match_at multiline r i b s with
          | Some (e, g) =>
              expand repl g ++
              (if e <=? i
               then c :: sub_from multiline r repl 0 (S i) (Some c) s'
               else sub_from multiline r repl (e - i - 1) (S i) (Some c) s')
          | None => c :: sub_from multiline r repl 0 (S i) (Some c) s'
          end
      end
  end.

Definition re_sub (multiline : bool) (r : regex) (repl : list piece)
    (s : pystr) : pystr :=
  sub_from multiline r repl 0 0 None s.

(** [re.split] for a pattern with one capturing group: the text before
    the first match, then for every match its group and the text up to
    the next match.  The result of [split_from] is the piece being
    collected and the parts behind it. *)
Fixpoint split_from (multiline : bool) (r : regex) (skip i : nat)
    (b : option N) (s : pystr) {struct s} : pystr * list pystr :=
  match s with
  | [] =>
      match skip with
      | S _ => ([], [])
      | O => match match_at multiline r i b [] with
             | Some (_, g) => ([], [group g 1; []])
             | None => ([], [])
             end
      end
  | c :: s' =>
      match skip with
      | S n => split_from multiline r n (S i) (Some c) s'
      | O =>
          match match_at multiline r i b s with
          | Some (e, g) =>
              let (p, ps) :=
                if e <=? i
                then let (p, ps) := split_from multiline r 0 (S i) (Some c) s'
                     in (c :: p, ps)
                else split_from multiline r (e - i - 1) (S i) (Some c) s' in
              ([], group g 1 :: p :: ps)
          | None =>
              let (p, ps) := split_from multiline r 0 (S i) (Some c) s' in
              (c :: p, ps)
          end
      end
  end.

Definition re_split (multiline : bool) (r : regex) (s : pystr) : list pystr :=
  let (p, ps) := split_from multiline r 0 0 None s in p :: ps.

Infix "@@" := Cat (right associativity, at level 60).

Definition lit (a : ascii) : regex := Chr (char (N_of_ascii a)).

(** ** [process_inline_formatting] *)

(** [\*\*(.+?)\*\*] *)
Definition BOLD : regex :=
  lit "*" @@ lit "*" @@ Group 1 (Plus false dot) @@ lit "*" @@ lit "*".

(** [\*(.+?)\*] *)
Definition ITALIC : regex :=
  lit "*" @@ Group 1 (Plus false dot) @@ lit "*".

(** [\[(.+?)\]\((https?://[^\)]+)\)] *)
Definition LINK : regex :=
  lit "[" @@ Group 1 (Plus false dot) @@ lit "]" @@ lit "(" @@
  Group 2 (lit "h" @@ lit "t" @@ lit "t" @@ lit "p" @@
           Quest (char (N_of_ascii "s")) @@
           lit ":" @@ lit "/" @@ lit "/" @@ Plus true (except RPAR)) @@
  lit ")".

(** [<b>\1</b>] *)
Definition BOLD_REPL : list piece := [Text (L "<b>"); Ref 1; Text (L "</b>")].

(** [<i>\1</i>] *)
Definition ITALIC_REPL : list piece := [Text (L "<i>"); Ref 1; Text (L "</i>")].

(** [<a href="\2" color="blue">\1</a>] *)
Definition LINK_REPL : list piece :=
  [Text (L "<a href=" ++ [QUOTE]); Ref 2;
   Text ([QUOTE] ++ L " color=" ++ [QUOTE] ++ L "blue" ++ [QUOTE] ++ L ">");
   Ref 1; Text (L "</a>")].

Definition process_inline_formatting (text : pystr) : pystr :=
  let text := re_sub false BOLD BOLD_REPL text in
  let text := re_sub false ITALIC ITALIC_REPL text in
  let text := re_sub false LINK LINK_REPL text in
  text.

(** ** [create_pdf_reportlab] *)

(** The fields that the program sets in a [ParagraphStyle]. *)
Record ParagraphStyle : Type := {
  style_name : string;
  style_parent : string;
  fontName : string;
  fontSize : Z;
  leading : Z;
  spaceBefore : option Z;
  spaceAfter : Z;
  textColor : option string;
  leftIndent : option Z;
  bulletIndent : option Z
}.

Definition heading_style : ParagraphStyle :=
  {| style_name := "Heading"; style_parent := "Heading2";
     fontName := "DejaVuSans"; fontSize := 18; leading := 22;
     spaceBefore := Some 20%Z; spaceAfter := 6;
     textColor := Some "#4a90e2"%string;
     leftIndent := None; bulletIndent := None |}.

Definition body_style : ParagraphStyle :=
  {| style_name := "Body"; style_parent := "BodyText";
     fontName := "DejaVuSans"; fontSize := 12; leading := 16;
     spaceBefore := None; spaceAfter := 12;
     textColor := None; leftIndent := None; bulletIndent := None |}.

Definition bullet_style : ParagraphStyle :=
  {| style_name := "Bullet"; style_parent := "BodyText";
     fontName := "DejaVuSans"; fontSize := 12; leading := 16;
     spaceBefore := None; spaceAfter := 6;
     textColor := None; leftIndent := Some 20%Z; bulletIndent := Some 10%Z |}.

(** The flowables that the program builds. *)
#[warnings="-register-all"]
Inductive flowable : Type :=
| Paragraph (text : pystr) (style : ParagraphStyle)
| Spacer (width height : Z)
| ListFlowable (items : list flowable) (bulletType : string) (leftIndent : Z).

(** [(^##\s*.+$)], compiled with MULTILINE. *)
Definition HEADING : regex :=
  Group 1 (Bol @@ lit "#" @@ lit "#" @@ Star true isspace @@
           Plus true dot @@ Eol).

(** [^(?:[\dA-Za-z]+\.\s+|\-\s+)] *)
Definition BULLET : regex :=
  Bol @@ Alt (Plus true alnum @@ lit "." @@ Plus true isspace)
             (lit "-" @@ Plus true isspace).

(** [range(start, stop, step)] for a positive step. *)
Fixpoint range_from (fuel start stop step : nat) : list nat :=
  match fuel with
  | O => []
  | S fuel' =>
      if start <? stop
      then start :: range_from fuel' (start + step) stop step
      else []
  end.

Definition range (start stop step : nat) : list nat :=
  range_from stop start stop step.

(** The first loop over the lines of a section: the match object of the
    first line that is not blank, if there is such a line. *)
Fixpoint first_bullet_match (lines : list pystr) : option (nat * groups) :=
  match lines with
  | [] => None
  | line :: lines' =>
      if nonempty (strip line) then re_match BULLET line
      else first_bullet_match lines'
  end.

(** The body of the second loop over the lines of a section. *)
Definition bullet_step (bullet_items : list flowable) (line : pystr)
    : list flowable :=
  let line := strip line in
  if nonempty line then
    let line := re_sub false BULLET [] line in
    bullet_items ++ [Paragraph line bullet_style]
  else bullet_items.

(** The body of the loop over the headings: [parts[i]] is a heading line
    and [parts[i+1]] the text that follows it. *)
Definition section_step (parts : list pystr) (heading_to_content_space : Z)
    (elements : list flowable) (i : nat) : list flowable :=
  let heading_line := strip (nth i parts []) in
  let heading_text := strip (lstrip (L "#") heading_line) in
  let heading_text := process_inline_formatting heading_text in
  let elements := elements ++ [Paragraph heading_text heading_style] in
  let elements := elements ++ [Spacer 1 heading_to_content_space] in
  let section_content :=
    if i + 1 <? List.length parts then strip (nth (i + 1) parts []) else [] in
  let section_content := process_inline_formatting section_content in
  let bullet_match := first_bullet_match (splitlines section_content) in
  let elements :=
    match bullet_match with
    | Some _ =>
        let bullet_items :=
          fold_left bullet_step (splitlines section_content) [] in
        elements ++ [ListFlowable bullet_items "bullet" 20]
    | None =>
        if nonempty section_content
        then elements ++ [Paragraph section_content body_style]
        else elements
    end in
  elements ++ [Spacer 1 12].

(** The list [elements] when the loop is over.  The test of [parts[0]]
    before the loop has [pass] for its body and is left out; the loop
    starts at index 1, so the text before the first heading is in no
    element. *)
Definition elements_of (content : pystr) (heading_to_content_space : Z)
    : list flowable :=
  let parts := re_split true HEADING content in
  fold_left (section_step parts heading_to_content_space)
            (range 1 (List.length parts) 2) [].

Inductive exn : Type :=
| FileNotFoundError (message : pystr)
| ReportLabError (message : pystr).   (* whatever ReportLab raises *)

Inductive outcome (A : Type) : Type :=
| Return (a : A)
| Raise (e : exn).

Arguments Return {A} a.
Arguments Raise {A} e.

(** [os.path.join("dejavu-fonts-ttf-2.37", "dejavu-fonts-ttf-2.37", "ttf",
    "DejaVuSans.ttf")], with the separator of a POSIX system. *)
Definition font_path : pystr :=
  L "dejavu-fonts-ttf-2.37/dejavu-fonts-ttf-2.37/ttf/DejaVuSans.ttf".

(** [path_exists] is [os.path.exists].  [build] stands for ReportLab,
    which is not part of the program: the registration of the font, the
    constructors of the flowables, [doc.build] and [buffer.getvalue()];
    from the list [elements] it makes the bytes of the document, or it
    raises. *)
Definition create_pdf_reportlab (path_exists : pystr -> bool)
    (build : list flowable -> outcome (list N))
    (content file_name : pystr) (heading_to_content_space : Z)
    : outcome (list N) :=
  if negb (path_exists font_path) then
    Raise (FileNotFoundError (L "TTF Font file not found: " ++ font_path))
  else
    let elements := elements_of content heading_to_content_space in
    build elements.

(** The default of the third parameter. *)
Definition default_heading_to_content_space : Z := 24.

(** ** Notions used in the statements *)

(** The character before the cursor once [w] has been read. *)
Definition lastb (b : option N) (w : pystr) : option N :=
  fold_left (fun _ c => Some c) w b.

Fixpoint starts_with (prefix s : pystr) : bool :=
  match prefix, s with
  | [], _ => true
  | a :: prefix', c :: s' => (c =? a)%N && starts_with prefix' s'
  | _ :: _, [] => false
  end.

(** Whether the pattern matches at some cursor of the text. *)
Fixpoint occurs_from (multiline : bool) (r : regex) (i : nat) (b : option N)
    (s : pystr) : bool :=
  match match_at multiline r i b s with
  | Some _ => true
  | None =>
      match s with
      | [] => false
      | c :: s' => occurs_from multiline r (S i) (Some c) s'
      end
  end.

Definition occurs (multiline : bool) (r : regex) (s : pystr) : bool :=
  occurs_from multiline r 0 None s.

(** Each inline pattern starts with one fixed character. *)
Definition starts_only (r : regex) (c0 : N) : Prop :=
  forall ml i b s, match_at ml r i b s <> None -> exists s', s = c0 :: s'.

(** A text is free of markers when none of the three patterns occurs. *)
Definition marker_free (text : pystr) : bool :=
  negb (occurs false BOLD text) && negb (occurs false ITALIC text)
  && negb (occurs false LINK text).

(** A text without "*" and without "[". *)
Definition plain (s : pystr) : bool :=
  forallb (except STAR) s && forallb (except LBRA) s.

(** A URL that begins with "http://" or "https://". *)
Definition schemed (url : pystr) : bool :=
  starts_with (L "http://") url || starts_with (L "https://") url.

(** [<a href="url" color="blue">text</a>] *)
Definition anchor (url text : pystr) : pystr :=
  L "<a href=" ++ [QUOTE] ++ url ++ [QUOTE] ++ L " color=" ++ [QUOTE]
  ++ L "blue" ++ [QUOTE] ++ L ">" ++ text ++ L "</a>".

(** Whether some line of the text starts with the heading marker "##";
    the lines are those that "\n" ends. *)
Fixpoint marker_line_from (b : option N) (s : pystr) : bool :=
  (at_bol true b && starts_with (L "##") s)
  || match s with
     | [] => false
     | c :: s' => marker_line_from (Some c) s'
     end.

Definition has_heading_marker (content : pystr) : bool :=
  marker_line_from None content.

(** The heading lines and the texts behind them, in the order of the
    split: the parts after the first, two by two. *)
Fixpoint pairs (parts : list pystr) : list (pystr * pystr) :=
  match parts with
  | h :: b :: parts' => (h, b) :: pairs parts'
  | [h] => [(h, [])]
  | [] => []
  end.

Definition sections (content : pystr) : list (pystr * pystr) :=
  pairs (tl (re_split true HEADING content)).

(** The first line that is not blank. *)
Fixpoint first_nonblank (lines : list pystr) : option pystr :=
  match lines with
  | [] => None
  | line :: lines' =>
      if nonempty (strip line) then Some line else first_nonblank lines'
  end.

Definition space_next (s : pystr) : bool :=
  match s with
  | c :: _ => isspace c
  | [] => false
  end.

(** A line that starts with a bullet marker: letters or digits, "." and
    whitespace, or "-" and whitespace. *)
Definition has_bullet_marker (line : pystr) : bool :=
  match line with
  | c :: s =>
      if alnum c then
        match lstrip_by alnum s with
        | d :: t => (d =? DOT)%N && space_next t
        | [] => false
        end
      else (c =? DASH)%N && space_next s
  | [] => false
  end.

(** The items of a list: the lines that are not blank, each without
    surrounding whitespace and without its marker. *)
Definition bullet_items_of (section_content : pystr) : list flowable :=
  map (fun line => Paragraph (re_sub false BULLET [] line) bullet_style)
      (filter nonempty (map strip (splitlines section_content))).

Definition heading_block (heading_line : pystr) : flowable :=
  Paragraph
    (process_inline_formatting (strip (lstrip (L "#") (strip heading_line))))
    heading_style.

(** The block of a body: a list when the first line that is not blank
    has a bullet marker, else a paragraph, and nothing for no text. *)
Definition body_block (body : pystr) : list flowable :=
  let section_content := process_inline_formatting (strip body) in
  match first_nonblank (splitlines section_content) with
  | Some line =>
      if has_bullet_marker line
      then [ListFlowable (bullet_items_of section_content) "bullet" 20]
      else [Paragraph section_content body_style]
  | None =>
      if nonempty section_content
      then [Paragraph section_content body_style]
      else []
  end.

Definition section_block (heading_to_content_space : Z)
    (section : pystr * pystr) : list flowable :=
  [heading_block (fst section); Spacer 1 heading_to_content_space]
  ++ body_block (snd section) ++ [Spacer 1 12].

(** The pattern captures in group 1 all that it matches. *)
Definition whole_match (multiline : bool) (r : regex) : Prop :=
  forall i b s e g,
    match_at multiline r i b s = Some (e, g) ->
    exists w t, s = w ++ t /\ e = i + List.length w /\ group g 1 = w.

Definition is_some (A : Type) (o : option A) : bool :=
  match o with Some _ => true | None => false end.

Arguments is_some {A} o.

(** The run of the first characters of a class. *)
Fixpoint take_by (p : N -> bool) (s : pystr) : pystr :=
  match s with
  | c :: s' => if p c then c :: take_by p s' else []
  | [] => []
  end.

(** ** Lines and headings *)

(** [s.split("\n")]: the lines that "\n" separates. *)
Fixpoint split_nl (s : pystr) : list pystr :=
  match s with
  | [] => [[]]
  | c :: s' =>
      if (c =? NL)%N then [] :: split_nl s'
      else match split_nl s' with
           | l :: ls => (c :: l) :: ls
           | [] => [[c]]
           end
  end.

Fixpoint join_nl (lines : list pystr) : pystr :=
  match lines with
  | [] => []
  | [l] => l
  | l :: lines' => l ++ NL :: join_nl lines'
  end.

(** A line that starts with the heading marker. *)
Definition marker_line (line : pystr) : bool := starts_with (L "##") line.

(** The number of lines of the content that start with the heading
    marker. *)
Definition marker_lines (content : pystr) : nat :=
  List.length (filter marker_line (split_nl content)).

(** A marker line with heading text: behind the "##" there is a
    character that is not whitespace. *)
Definition has_text (line : pystr) : bool :=
  existsb (fun c => negb (isspace c)) (skipn 2 line).

(** The text from the end of a line up to the next marker line. *)
Fixpoint text_until (lines : list pystr) : pystr :=
  match lines with
  | [] => []
  | l :: lines' => if marker_line l then [NL] else NL :: l ++ text_until lines'
  end.

(** The text before the first marker line. *)
Definition lead_of (lines : list pystr) : pystr :=
  match lines with
  | [] => []
  | l :: lines' => if marker_line l then [] else l ++ text_until lines'
  end.

(** The marker lines, each with the text up to the next one. *)
Fixpoint sections_of_lines (lines : list pystr) : list (pystr * pystr) :=
  match lines with
  | [] => []
  | l :: lines' =>
      if marker_line l
      then (l, text_until lines') :: sections_of_lines lines'
      else sections_of_lines lines'
  end.

Definition unpairs (sections : list (pystr * pystr)) : list pystr :=
  flat_map (fun section => [fst section; snd section]) sections.

(** Every marker line of the content has heading text. *)
Definition headings_have_text (content : pystr) : bool :=
  forallb (fun l => implb (marker_line l) (has_text l)) (split_nl content).

(** ** Resolution and lines *)

(** A text that the end of a line follows. *)
Definition blocked (tail : pystr) : bool :=
  match tail with
  | [] => true
  | c :: _ => (c =? NL)%N
  end.

Definition shift (i : nat) (res : nat * groups) : nat * groups :=
  (i + fst res, snd res).

(** A pattern that looks neither behind its match nor beyond the end of
    the line: at every cursor it matches as it does at the start of the
    line taken alone. *)
Definition line_local (multiline : bool) (r : regex) : Prop :=
  forall i b u tail,
    blocked tail = true ->
    match_at multiline r i b (u ++ tail) =
    option_map (shift i) (match_at multiline r 0 None u).

(** A pattern that does not look beyond its match into a text without
    "*" that follows. *)
Definition tail_local (multiline : bool) (r : regex) : Prop :=
  forall i b u tail,
    forallb (except STAR) tail = true ->
    match_at multiline r i b (u ++ tail) =
    option_map (shift i) (match_at multiline r 0 None u).

(** A match is not empty and ends inside the text. *)
Definition proper_match (multiline : bool) (r : regex) : Prop :=
  forall s e g,
    match_at multiline r 0 None s = Some (e, g) ->
    0 < e <= List.length s.

(** As the specification words it: the items of a list are the lines of
    the body that are not blank, each resolved on its own after its
    marker has been stripped. *)
Definition spec_bullet_items (body : pystr) : list flowable :=
  map (fun line =>
         Paragraph (process_inline_formatting (re_sub false BULLET [] line))
                   bullet_style)
      (filter nonempty (map strip (splitlines (strip body)))).

(** The length of the bullet marker of a line, with the whitespace
    behind it; 0 for a line without marker. *)
Definition marker_length (line : pystr) : nat :=
  match line with
  | c :: s =>
      if alnum c then
        match lstrip_by alnum s with
        | d :: t =>
            if (d =? DOT)%N && space_next t
            then 1 + List.length (take_by alnum s) + 1
                 + List.length (take_by isspace t)
            else 0
        | [] => 0
        end
      else if (c =? DASH)%N && space_next s
           then 1 + List.length (take_by isspace s)
           else 0
  | [] => 0
  end.

(** A line without its bullet marker. *)
Definition without_marker (line : pystr) : pystr :=
  skipn (marker_length line) line.

(** A character that is no part of a bullet marker. *)
Definition stopper (c : N) : bool :=
  negb (alnum c) && negb (isspace c) && negb (c =? DOT)%N
  && negb (c =? DASH)%N.

(** A text that does not start, or does not end, with whitespace. *)
Definition starts_well (s : pystr) : bool :=
  match s with
  | [] => true
  | c :: _ => negb (isspace c)
  end.

Definition ends_well (s : pystr) : bool := starts_well (rev s).

(** A text whose line boundaries are all "\n". *)
Definition only_nl (s : pystr) : bool :=
  forallb (fun c => negb (islinebreak c) || (c =? NL)%N) s.

(** As the specification words it: a paragraph is its lines, each
    resolved on its own. *)
Definition spec_paragraph (text : pystr) : pystr :=
  join_nl (map process_inline_formatting (split_nl text)).

(** As the specification words it: the block of a body, classified by
    its first line that is not blank and resolved line by line. *)
Definition spec_body_block (body : pystr) : list flowable :=
  let text := strip body in
  match first_nonblank (splitlines text) with
  | Some line =>
      if has_bullet_marker line
      then [ListFlowable (spec_bullet_items body) "bullet" 20]
      else [Paragraph (spec_paragraph text) body_style]
  | None =>
      if nonempty text
      then [Paragraph (spec_paragraph text) body_style]
      else []
  end.

(** A character that is neither "*" nor "[". *)
Definition plain_char (c : N) : bool := except STAR c && except LBRA c.

(** The text up to its first line boundary. *)
Definition first_line (text : pystr) : pystr :=
  take_by (fun c => negb (islinebreak c)) text.

(** ** Counting characters *)

(** The number of characters of a kind in a text. *)
Fixpoint count (q : N -> bool) (s : pystr) : nat :=
  match s with
  | [] => 0
  | c :: s' => (if q c then 1 else 0) + count q s'
  end.

(** The characters that the three inline patterns take away. *)
Definition markers : pystr := L "*[]()".

(** The fixed text of a template. *)
Definition template_text (repl : list piece) : pystr :=
  flat_map (fun p => match p with Text t => t | Ref _ => [] end) repl.

(** The characters that the three templates bring. *)
Definition tag_chars : pystr :=
  template_text BOLD_REPL ++ template_text ITALIC_REPL
  ++ template_text LINK_REPL.

(** A kind of characters to which none of the given ones belongs. *)
Definition avoids (q : N -> bool) (chars : pystr) : bool :=
  forallb (fun c => negb (q c)) chars.

(** * The application around the document

    The rest of [app.py]: the calls of the models, the two lists that the
    session keeps and writes to JSON files, the prompt, the FAQ, and the
    handlers of the buttons.  Streamlit, the models and the file system
    are not part of the program.  What the program tells them is a trace
    of events, what they answer is a parameter, and a JSON file is the
    value that [json.dump] wrote into it and [json.load] reads from it. *)

(** ** Exceptions, events and the state *)

Inductive app_exn : Type :=
| PdfError (e : exn)               (* what [create_pdf_reportlab] raises *)
| JSONDecodeError                  (* [json.load] of a text that is no JSON *)
| IndexError                       (* [[0]] of an empty list *)
| AttributeError (name : pystr)    (* a key that [st.session_state] lacks *)
| ServiceError (message : pystr).  (* whatever a model or a service raises *)

Inductive result (A : Type) : Type :=
| Done (a : A)
| Failed (e : app_exn).

Arguments Done {A} a.
Arguments Failed {A} e.

(** A peer suggestion is a [dict] of strings, in the order of its keys. *)
Definition suggestion : Type := list (pystr * pystr).

(** The calls of Streamlit, of [print] and of the three services, in the
    order in which the program makes them. *)
Inductive event : Type :=
| st_subheader (body : pystr)
| st_selectbox (label : pystr) (options : list pystr)
| st_button (label : pystr)
| st_success (body : pystr)
| st_info (body : pystr)
| st_warning (body : pystr)
| st_markdown (body : pystr)
| st_download_button (label : pystr) (data : list N) (file_name mime : pystr)
| print (text : pystr)
| classifier_call (query : pystr) (candidate_labels : list pystr)
| translator_translate (text dest : pystr)
| generator_generate (prompt : pystr) (max_tokens : Z) (temperature : QArith_base.Q).

(** A file: absent, the JSON text of a value, or some other text. *)
Inductive file (A : Type) : Type :=
| no_file
| json_file (value : A)
| other_file (text : pystr).

Arguments no_file {A}.
Arguments json_file {A} value.
Arguments other_file {A} text.

(** [st.session_state] with its two keys, and the two files
    "saved_resources.json" and "peer_suggestions.json". *)
Record world : Type := {
  saved_resources : option (list pystr);
  peer_suggestions : option (list suggestion);
  saved_resources_json : file (list pystr);
  peer_suggestions_json : file (list suggestion)
}.

(** A computation: from a world to the events, the world and the value
    or the exception. *)
Definition M (A : Type) : Type := world -> list event * world * result A.

Definition ret (A : Type) (a : A) : M A := fun w => ([], w, Done a).

Definition raise (A : Type) (e : app_exn) : M A := fun w => ([], w, Failed e).

Definition bind (A B : Type) (m : M A) (k : A -> M B) : M B :=
  fun w =>
    match m w with
    | (t, w', Done a) =>
        match k a w' with (t', w'', r) => (t ++ t', w'', r) end
    | (t, w', Failed e) => (t, w', Failed e)
    end.

Arguments ret {A} a.
Arguments raise {A} e.
Arguments bind {A B} m k.

Notation "x <- m ;; k" := (bind m (fun x => k))
  (at level 61, m at next level, right associativity).
Notation "m ;; k" := (bind m (fun _ => k))
  (at level 61, right associativity).

Definition emit (e : event) : M unit := fun w => ([e], w, Done tt).

(** The answer of a service. *)
Definition answer (A : Type) (r : result A) : M A := fun w => ([], w, r).

Arguments answer {A} r.

(** Equality of strings, and [x in list]. *)
Fixpoint str_eqb (a b : pystr) : bool :=
  match a, b with
  | [], [] => true
  | c :: a', d :: b' => (c =? d)%N && str_eqb a' b'
  | _, _ => false
  end.

Definition str_in (x : pystr) (l : list pystr) : bool := existsb (str_eqb x) l.

(** ** The two lists and their files *)

Definition load_saved_resources : M (list pystr) :=
  fun w =>
    match saved_resources_json w with
    | json_file value => ([], w, Done value)
    | other_file _ => ([], w, Failed JSONDecodeError)
    | no_file => ([], w, Done [])
    end.

Definition save_saved_resources (resources : list pystr) : M unit :=
  fun w =>
    ([], {| saved_resources := saved_resources w;
            peer_suggestions := peer_suggestions w;
            saved_resources_json := json_file resources;
            peer_suggestions_json := peer_suggestions_json w |}, Done tt).

Definition load_peer_suggestions : M (list suggestion) :=
  fun w =>
    match peer_suggestions_json w with
    | json_file value => ([], w, Done value)
    | other_file _ => ([], w, Failed JSONDecodeError)
    | no_file => ([], w, Done [])
    end.

Definition save_peer_suggestions (suggestions : list suggestion) : M unit :=
  fun w =>
    ([], {| saved_resources := saved_resources w;
            peer_suggestions := peer_suggestions w;
            saved_resources_json := saved_resources_json w;
            peer_suggestions_json := json_file suggestions |}, Done tt).

(** [st.session_state.saved_resources], read and assigned. *)
Definition get_saved_resources : M (list pystr) :=
  fun w =>
    match saved_resources w with
    | Some l => ([], w, Done l)
    | None => ([], w, Failed (AttributeError (L "saved_resources")))
    end.

Definition set_saved_resources (l : list pystr) : M unit :=
  fun w =>
    ([], {| saved_resources := Some l;
            peer_suggestions := peer_suggestions w;
            saved_resources_json := saved_resources_json w;
            peer_suggestions_json := peer_suggestions_json w |}, Done tt).

Definition get_peer_suggestions : M (list suggestion) :=
  fun w =>
    match peer_suggestions w with
    | Some l => ([], w, Done l)
    | None => ([], w, Failed (AttributeError (L "peer_suggestions")))
    end.

Definition set_peer_suggestions (l : list suggestion) : M unit :=
  fun w =>
    ([], {| saved_resources := saved_resources w;
            peer_suggestions := Some l;
            saved_resources_json := saved_resources_json w;
            peer_suggestions_json := peer_suggestions_json w |}, Done tt).

(** ["saved_resources" in st.session_state] and the like. *)
Definition has_saved_resources : M bool :=
  fun w => ([], w, Done (is_some (saved_resources w))).

Definition has_peer_suggestions : M bool :=
  fun w => ([], w, Done (is_some (peer_suggestions w))).

(** The two statements that fill the session state where a key is
    missing. *)
Definition initialize_session_state : M unit :=
  has <- has_saved_resources ;;
  (if negb has
   then l <- load_saved_resources ;; set_saved_resources l
   else ret tt) ;;
  has' <- has_peer_suggestions ;;
  if negb has'
  then l <- load_peer_suggestions ;; set_peer_suggestions l
  else ret tt.

(** The list of the session is one object: [append] changes it, and the
    list that is written is the list with the new element. *)
Definition save_resource (resource : pystr) : M unit :=
  saved <- get_saved_resources ;;
  if negb (str_in resource saved) then
    set_saved_resources (saved ++ [resource]) ;;
    saved' <- get_saved_resources ;;
    save_saved_resources saved' ;;
    emit (st_success (L "Saved resource: " ++ resource))
  else
    emit (st_info (L "Resource already saved.")).

Definition add_peer_suggestion (s : suggestion) : M unit :=
  suggestions <- get_peer_suggestions ;;
  set_peer_suggestions (suggestions ++ [s]) ;;
  suggestions' <- get_peer_suggestions ;;
  save_peer_suggestions suggestions' ;;
  emit (st_success (L "Thank you for your suggestion!")).

(** ** The calls of the models *)

(** The f-string that opens the prompt, and the plain literals behind
    it. *)
Definition prompt_requirements : pystr :=
  L "Generate a world-class, comprehensive educational resource on " ++
  L "this topic that is interactive, easy-to-understand, and engaging. " ++
  L "The resource must include the following sections, formatted with " ++
  L "clear headers and bullet points where appropriate:" ++ [NL; NL] ++
  L "1. **Introduction:**" ++ [NL] ++
  L "   - Provide a concise yet thorough explanation of the key " ++
  L "concepts, background, and context for the topic." ++ [NL] ++
  L "   - Explain any specialized terminology in simple language." ++ [NL; NL] ++
  L "2. **Practice Problems:**" ++ [NL] ++
  L "   - List at least 5 well-designed practice problems related to " ++
  L "the topic." ++ [NL] ++
  L "   - For each problem, include:" ++ [NL] ++
  L "       * The problem statement." ++ [NL] ++
  L "       * A detailed, step-by-step solution." ++ [NL] ++
  L "       * Explanatory notes to help understand the solution." ++ [NL; NL] ++
  L "3. **Tips & Tricks:**" ++ [NL] ++
  L "   - Provide at least 3 actionable tips or strategies to master " ++
  L "the topic." ++ [NL] ++
  L "   - Ensure the tips are practical and easy to implement in a " ++
  L "classroom setting." ++ [NL; NL] ++
  L "4. **Additional Resources:**" ++ [NL] ++
  L "   - Include a list of 2-3 free, high-quality online resources " ++
  L "(such as websites, articles, or video tutorials) for further " ++
  L "learning." ++ [NL] ++
  L "   - Include hyperlinks if possible." ++ [NL; NL] ++
  L "5. **Subject-Specific Advice:**" ++ [NL] ++
  L "   - Offer any additional recommendations, insights, or " ++
  L "innovative teaching strategies tailored specifically to {subject}." ++ [NL] ++
  L "   - This may include methods for making lessons more interactive " ++
  L "or ideas for increasing student engagement." ++ [NL; NL] ++
  L "Ensure the output is well-structured with clear headers for each " ++
  L "section, uses bullet points or numbered lists where appropriate, " ++
  L "and is written in a style that is both engaging and immediately " ++
  L "applicable for a teacher in the classroom.".

Definition dynamic_prompt (query subject : pystr) : pystr :=
  L "You are an expert teacher in " ++ subject ++
  L ". A student asked: '" ++ query ++ L "'." ++ [NL; NL] ++
  prompt_requirements.

Definition candidate_labels : list pystr :=
  [L "PDF"; L "Quiz"; L "Audio Lesson"].

Section Services.

(** The zero-shot classifier: the list [result["labels"]] for a query and
    the candidate labels.  The translator: the text of the translation
    for a text and a language.  The client of the generator: the texts of
    [response.generations] for a prompt and its two settings.  Each may
    raise. *)
Variable classifier : pystr -> list pystr -> result (list pystr).
Variable translate : pystr -> pystr -> result pystr.
Variable generate : pystr -> Z -> QArith_base.Q -> result (list pystr).

(** [os.path.exists] for the font, and ReportLab, as in
    [create_pdf_reportlab]. *)
Variable path_exists : pystr -> bool.
Variable build : list flowable -> outcome (list N).

Definition classify_query (query : pystr) : M pystr :=
  emit (classifier_call query candidate_labels) ;;
  labels <- answer (classifier query candidate_labels) ;;
  match labels with
  | label :: _ => ret label
  | [] => raise IndexError
  end.

Definition translate_text (text target_lang : pystr) : M pystr :=
  if negb (str_eqb target_lang (L "en")) then
    emit (translator_translate text target_lang) ;;
    answer (translate text target_lang)
  else ret text.

Definition generate_resource_content (query subject : pystr) : M pystr :=
  let dynamic_prompt := dynamic_prompt query subject in
  emit (generator_generate dynamic_prompt 1000 (QArith_base.Qmake 7 10)) ;;
  generations <-
    answer (generate dynamic_prompt 1000 (QArith_base.Qmake 7 10)) ;;
  match generations with
  | text :: _ => emit (print text) ;; ret text
  | [] => raise IndexError
  end.

(** [create_pdf_reportlab] as a step of the application. *)
Definition pdf (content file_name : pystr) (heading_to_content_space : Z)
    : M (list N) :=
  match create_pdf_reportlab path_exists build content file_name
          heading_to_content_space with
  | Return data => ret data
  | Raise e => raise (PdfError e)
  end.

(** The handler of the button "Get Recommendation".  The widgets above
    it give the query, the language, the subject and the name of the
    file; [save_this_resource] is what the button inside returns. *)
Definition get_recommendation (user_query language subject file_name : pystr)
    (save_this_resource : bool) : M unit :=
  if negb (nonempty (strip user_query)) then
    emit (st_warning (L "Please enter a query."))
  else
    translated_query <- translate_text user_query (L "en") ;;
    (if negb (str_eqb language (L "en"))
     then emit (st_info (L "Translated Query: " ++ translated_query))
     else ret tt) ;;
    resource_type <- classify_query translated_query ;;
    emit (st_success
            (L "Recommended Resource Type: **" ++ resource_type ++ L "**")) ;;
    generated_content <- generate_resource_content translated_query subject ;;
    emit (st_markdown (L "### Generated Resource Content")) ;;
    emit (st_markdown generated_content) ;;
    emit (st_button (L "Save this Resource")) ;;
    (if save_this_resource then save_resource generated_content else ret tt) ;;
    pdf_data <- pdf generated_content (file_name ++ L ".pdf")
                    default_heading_to_content_space ;;
    emit (st_download_button (L "Download Generated Resource as PDF")
            pdf_data (file_name ++ L ".pdf") (L "application/pdf")).

End Services.

(** ** The FAQ *)

(** A [dict] of strings, in the order of its keys. *)
Definition FAQS : list (pystr * pystr) :=
  [(L "What is the purpose of this app?",
    L "This app helps users access AI-curated educational resources " ++
    L "optimized for low-connectivity areas.");
   (L "How can I save a resource?",
    L "Simply click the 'Save this Resource' button to save a resource " ++
    L "for later use.");
   (L "How do I download a resource?",
    L "Use the 'Download Resource' button to download the content for " ++
    L "offline access.");
   (L "What languages are supported?",
    L "Currently, the app supports English, Hindi, Tamil, and Bengali.")].

(** [d.get(key, default)] and [list(d.keys())] *)
Fixpoint dict_get (d : list (pystr * pystr)) (key default : pystr) : pystr :=
  match d with
  | [] => default
  | (k, v) :: d' => if str_eqb k key then v else dict_get d' key default
  end.

Definition dict_keys (d : list (pystr * pystr)) : list pystr := map fst d.

(** [faq_question] is what the select box returns, [get_answer] what the
    button returns. *)
Definition display_faq (faq_question : pystr) (get_answer : bool) : M unit :=
  emit (st_subheader (L "FAQs")) ;;
  emit (st_selectbox (L "Select a question") (dict_keys FAQS)) ;;
  emit (st_button (L "Get Answer")) ;;
  if get_answer then
    let answer :=
      dict_get FAQS faq_question (L "Sorry, I don't have an answer for that.")
    in emit (st_info answer)
  else ret tt.

(** ** The peer suggestions *)

(** The handler of the button "Submit Suggestion": the four widgets give
    the values of the [dict]. *)
Definition submit_suggestion
    (suggest_subject suggest_grade suggest_resource_type
     suggest_description : pystr) : M unit :=
  let suggestion :=
    [(L "subject", suggest_subject);
     (L "grade", suggest_grade);
     (L "resource_type", suggest_resource_type);
     (L "description", suggest_description)] in
  add_peer_suggestion suggestion.

(** ** Notions used in the statements about the application *)

(** A new session on the same files: the session state has no key. *)
Definition new_session (w : world) : world :=
  {| saved_resources := None;
     peer_suggestions := None;
     saved_resources_json := saved_resources_json w;
     peer_suggestions_json := peer_suggestions_json w |}.

(** What a user does to the two lists. *)
Inductive action : Type :=
| SaveResource (resource : pystr)
| AddPeerSuggestion (s : suggestion).

Definition perform (a : action) : M unit :=
  match a with
  | SaveResource resource => save_resource resource
  | AddPeerSuggestion s => add_peer_suggestion s
  end.

Fixpoint perform_all (actions : list action) : M unit :=
  match actions with
  | [] => ret tt
  | a :: actions' => perform a ;; perform_all actions'
  end.

(** The resources and the suggestions of a list of actions, in order. *)
Definition resources_of (actions : list action) : list pystr :=
  flat_map (fun a => match a with SaveResource r => [r] | _ => [] end) actions.

Definition suggestions_of (actions : list action) : list suggestion :=
  flat_map (fun a => match a with AddPeerSuggestion s => [s] | _ => [] end)
           actions.

(** Whether a text stands somewhere in another. *)
Fixpoint infix (x s : pystr) : bool :=
  starts_with x s
  || match s with
     | [] => false
     | _ :: s' => infix x s'
     end.

(** The subjects that the select box offers. *)
Definition subjects : list pystr := [L "Math"; L "Science"; L "English"].

(** The events of a computation, its world and its result. *)
Definition events_of (A : Type) (x : list event * world * result A)
    : list event := fst (fst x).

Definition world_of (A : Type) (x : list event * world * result A) : world :=
  snd (fst x).

Definition result_of (A : Type) (x : list event * world * result A)
    : result A := snd x.

Arguments events_of {A} x.
Arguments world_of {A} x.
Arguments result_of {A} x.

(** A file that holds a list: its JSON text, or no file for no element. *)
Definition on_disk (A : Type) (f : file (list A)) (l : list A) : Prop :=
  f = json_file l \/ (f = no_file /\ l = []).

Arguments on_disk {A} f l.

(** The session has its two lists, and the files hold them. *)
Definition mirrored (w : world) : Prop :=
  exists resources suggestions,
    saved_resources w = Some resources /\
    peer_suggestions w = Some suggestions /\
    on_disk (saved_resources_json w) resources /\
    on_disk (peer_suggestions_json w) suggestions.

(** An event that offers the document for download. *)
Definition download_offer (e : event) : bool :=
  match e with
  | st_download_button _ _ _ _ => true
  | _ => false
  end.

(** An event that is a call of the translator. *)
Definition translation (e : event) : bool :=
  match e with
  | translator_translate _ _ => true
  | _ => false
  end.

(** A computation all of whose events are of a kind. *)
Definition only (P : event -> bool) (A : Type) (m : M A) : Prop :=
  forall w, forallb P (events_of (m w)) = true.

Arguments only P {A} m.

(** A computation that leaves the world as it was. *)
Definition keeps_world (A : Type) (m : M A) : Prop :=
  forall w, world_of (m w) = w.

Arguments keeps_world {A} m.

(** A computation whose events are all of a kind when it raises. *)
Definition fails_with_only (P : event -> bool) (A : Type) (m : M A) : Prop :=
  forall w e, result_of (m w) = Failed e ->
              forallb P (events_of (m w)) = true.

Arguments fails_with_only P {A} m.

(** * Properties *)

(** ** The matcher *)

Lemma lastb_app b w1 w2 : lastb b (w1 ++ w2) = lastb (lastb b w1) w2.
Proof. apply fold_left_app. Qed.

Section MatcherFacts.
Variable A : Type.
Implicit Types (k : cont A) (p : N -> bool).

Lemma one_inv p k i b s g r :
  one p k i b s g = Some r ->
  exists c s', s = c :: s' /\ p c = true /\ k (S i) (Some c) s' g = Some r.
Proof.
  unfold one. destruct s as [|c s']; [discriminate|].
  destruct (p c) eqn:Hp; [|discriminate].
  intros H. exists c, s'. auto.
Qed.

Lemma orelse_inv (k1 k2 : cont A) i b s g r :
  orelse k1 k2 i b s g = Some r ->
  k1 i b s g = Some r \/ k2 i b s g = Some r.
Proof.
  unfold orelse. destruct (k1 i b s g); intros H; [left|right]; assumption.
Qed.

Lemma orelse_left (k1 k2 : cont A) i b s g r :
  k1 i b s g = Some r -> orelse k1 k2 i b s g = Some r.
Proof. unfold orelse. now intros ->. Qed.

(** Whatever a repetition answers is the answer of its continuation
    behind a run of characters of the class. *)
Lemma rep_lazy_inv p k s : forall i b g r,
  rep_lazy p k i b s g = Some r ->
  exists w t, s = w ++ t /\ forallb p w = true /\
              k (i + List.length w) (lastb b w) t g = Some r.
Proof.
  induction s as [|c s IH]; intros i b g r; simpl.
  - destruct (k i b [] g) eqn:Hk; [|discriminate].
    intros H. exists [], []. simpl. rewrite Nat.add_0_r, Hk. auto.
  - destruct (k i b (c :: s) g) eqn:Hk.
    + intros H. exists [], (c :: s). simpl. rewrite Nat.add_0_r, Hk. auto.
    + destruct (p c) eqn:Hp; [|discriminate].
      intros H. destruct (IH _ _ _ _ H) as (w & t & -> & Hw & Ht).
      exists (c :: w), t. simpl. rewrite Hp, Hw.
      rewrite Nat.add_succ_r. auto.
Qed.

Lemma rep_greedy_inv p k s : forall i b g r,
  rep_greedy p k i b s g = Some r ->
  exists w t, s = w ++ t /\ forallb p w = true /\
              k (i + List.length w) (lastb b w) t g = Some r.
Proof.
  assert (Hnil : forall i b t g r, k i b t g = Some r ->
    exists w t', t = w ++ t' /\ forallb p w = true /\
                 k (i + List.length w) (lastb b w) t' g = Some r).
  { intros i b t g r H. exists [], t. simpl. rewrite Nat.add_0_r. auto. }
  induction s as [|c s IH]; intros i b g r; simpl; [apply Hnil|].
  destruct (p c) eqn:Hp; [|apply Hnil].
  destruct (rep_greedy p k (S i) (Some c) s g) eqn:Hr; [|apply Hnil].
  intros H. rewrite <- H in *.
  destruct (IH _ _ _ _ Hr) as (w & t & -> & Hw & Ht).
  exists (c :: w), t. simpl. rewrite Hp, Hw.
  rewrite Nat.add_succ_r. auto.
Qed.

Lemma rep_inv gr p k s i b g r :
  rep gr p k i b s g = Some r ->
  exists w t, s = w ++ t /\ forallb p w = true /\
              k (i + List.length w) (lastb b w) t g = Some r.
Proof.
  destruct gr; [apply rep_greedy_inv|apply rep_lazy_inv].
Qed.

(** A lazy repetition stops at the first place where its continuation
    answers: where the continuation fails on the way, it goes on. *)
Lemma rep_lazy_skip p k w : forall t i b g,
  forallb p w = true ->
  (forall w1 w2, w = w1 ++ w2 -> w2 <> [] ->
     k (i + List.length w1) (lastb b w1) (w2 ++ t) g = None) ->
  rep_lazy p k i b (w ++ t) g =
  rep_lazy p k (i + List.length w) (lastb b w) t g.
Proof.
  induction w as [|c w IH]; intros t i b g Hw Hk; simpl.
  - now rewrite Nat.add_0_r.
  - simpl in Hw. apply andb_prop in Hw as [Hc Hw].
    pose proof (Hk [] (c :: w) eq_refl ltac:(discriminate)) as H0.
    simpl in H0. rewrite Nat.add_0_r in H0. rewrite H0, Hc.
    rewrite IH; [now rewrite Nat.add_succ_r|assumption|].
    intros w1 w2 -> Hne.
    specialize (Hk (c :: w1) w2 eq_refl Hne). simpl in Hk.
    now rewrite Nat.add_succ_r in Hk.
Qed.

Lemma rep_lazy_here p k i b s g r :
  k i b s g = Some r -> rep_lazy p k i b s g = Some r.
Proof. destruct s; simpl; now intros ->. Qed.

(** A lazy repetition fails when its continuation fails everywhere. *)
Lemma rep_lazy_none p k s : forall i b g,
  (forall w t, s = w ++ t ->
     k (i + List.length w) (lastb b w) t g = None) ->
  rep_lazy p k i b s g = None.
Proof.
  induction s as [|c s IH]; intros i b g Hk; simpl.
  - pose proof (Hk [] [] eq_refl) as H0. simpl in H0.
    rewrite Nat.add_0_r in H0. now rewrite H0.
  - pose proof (Hk [] (c :: s) eq_refl) as H0. simpl in H0.
    rewrite Nat.add_0_r in H0. rewrite H0.
    destruct (p c); [|reflexivity].
    apply IH. intros w t ->.
    specialize (Hk (c :: w) t eq_refl). simpl in Hk.
    now rewrite Nat.add_succ_r in Hk.
Qed.

(** A greedy repetition that can read the whole run [w] and whose
    continuation answers behind it answers the same. *)
Lemma rep_greedy_all p k w : forall t i b g r,
  forallb p w = true ->
  k (i + List.length w) (lastb b w) t g = Some r ->
  match t with [] => true | c :: _ => negb (p c) end = true ->
  rep_greedy p k i b (w ++ t) g = Some r.
Proof.
  induction w as [|c w IH]; intros t i b g r Hw Hk Ht; simpl in *.
  - rewrite Nat.add_0_r in Hk.
    destruct t as [|c t]; simpl; [assumption|].
    apply negb_true_iff in Ht. now rewrite Ht.
  - apply andb_prop in Hw as [Hc Hw]. rewrite Hc.
    rewrite (IH t (S i) (Some c) g r); auto.
    now rewrite Nat.add_succ_r in Hk.
Qed.
End MatcherFacts.

(** ** Lists of characters *)

Lemma starts_with_app prefix t : starts_with prefix (prefix ++ t) = true.
Proof.
  induction prefix as [|a p IH]; simpl; [reflexivity|].
  now rewrite N.eqb_refl, IH.
Qed.

Lemma starts_with_split prefix : forall s x y,
  s ++ x = prefix ++ y -> List.length prefix <= List.length s ->
  starts_with prefix s = true.
Proof.
  induction prefix as [|a p IH]; intros s x y H Hlen; simpl; [reflexivity|].
  destruct s as [|c s]; simpl in *; [lia|].
  injection H as -> H. rewrite N.eqb_refl. simpl.
  apply (IH s x y H). lia.
Qed.

Lemma firstn_len (n : nat) (x t : pystr) :
  n = List.length x -> firstn n (x ++ t) = x.
Proof.
  intros ->. rewrite firstn_app, Nat.sub_diag, firstn_all. simpl.
  apply app_nil_r.
Qed.

Lemma char_true c x : char c x = true -> x = c.
Proof. unfold char. apply N.eqb_eq. Qed.

Lemma except_char c x : except c x = true -> char c x = false.
Proof. unfold except, char. apply negb_true_iff. Qed.

Lemma char_except c x : char c x = true -> except c x = false.
Proof. unfold except, char. intros ->. reflexivity. Qed.

(** A character that occurs once splits a string in one way only. *)
Lemma split_unique (c : N) (a : pystr) : forall a' b b',
  a ++ c :: b = a' ++ c :: b' ->
  forallb (except c) a = true -> forallb (except c) b = true ->
  a = a' /\ b = b'.
Proof.
  induction a as [|d a IH]; intros a' b b' H Ha Hb.
  - destruct a' as [|d' a']; simpl in H.
    + injection H as ->. auto.
    + injection H as <- ->. rewrite forallb_app in Hb. simpl in Hb.
      unfold except at 2 in Hb. rewrite N.eqb_refl in Hb. simpl in Hb.
      rewrite andb_false_r in Hb. discriminate.
  - simpl in Ha. apply andb_prop in Ha as [Hd Ha].
    destruct a' as [|d' a']; simpl in H.
    + injection H as -> _. unfold except in Hd.
      rewrite N.eqb_refl in Hd. discriminate.
    + injection H as -> H. destruct (IH _ _ _ H Ha Hb) as [-> ->]. auto.
Qed.

(** ** What the three inline patterns match *)

Lemma one_head_false (A : Type) p (k : cont A) i b c s g :
  p c = false -> one p k i b (c :: s) g = None.
Proof. unfold one. now intros ->. Qed.

(** A match of [\*\*(.+?)\*\*] is "**", a text without "\n" that is not
    empty, and "**"; the text is group 1. *)
Lemma BOLD_inv ml i b s e g :
  match_at ml BOLD i b s = Some (e, g) ->
  exists x t, s = STAR :: STAR :: x ++ STAR :: STAR :: t /\ x <> [] /\
              forallb dot x = true /\ e = i + List.length x + 4 /\
              g = [(1, x)].
Proof.
  unfold match_at, BOLD, lit. cbn [m]. intros H.
  apply one_inv in H as (c1 & s1 & -> & Hc1 & H).
  apply one_inv in H as (c2 & s2 & -> & Hc2 & H).
  apply one_inv in H as (c3 & s3 & -> & Hc3 & H).
  apply rep_inv in H as (w & t & -> & Hw & H).
  apply one_inv in H as (c4 & s4 & -> & Hc4 & H).
  apply one_inv in H as (c5 & s5 & -> & Hc5 & H).
  apply char_true in Hc1, Hc2, Hc4, Hc5. simpl in Hc1, Hc2, Hc4, Hc5. subst.
  rewrite app_comm_cons, firstn_len in H by (cbn [List.length]; lia).
  injection H as <- <-. exists (c3 :: w), s5. simpl.
  rewrite Hc3, Hw. repeat split; try discriminate; try reflexivity; lia.
Qed.

(** The text between the nearest "**" pair is bold. *)
Lemma BOLD_match ml i b x t :
  x <> [] -> forallb dot x = true -> forallb (except STAR) x = true ->
  match_at ml BOLD i b (STAR :: STAR :: x ++ STAR :: STAR :: t) =
  Some (i + List.length x + 4, [(1, x)]).
Proof.
  intros Hne Hd Hs. destruct x as [|c w]; [congruence|].
  simpl in Hd, Hs. apply andb_prop in Hd as [Hc Hd].
  apply andb_prop in Hs as [_ Hs].
  unfold match_at, BOLD, lit. cbn [m]. cbn. rewrite Hc.
  rewrite rep_lazy_skip; [|assumption|].
  - apply rep_lazy_here. cbv beta.
    rewrite app_comm_cons, firstn_len by (cbn [List.length]; lia).
    cbn. f_equal. f_equal. lia.
  - intros w1 [|c' w2] -> Hne2; [congruence|].
    rewrite forallb_app in Hs. apply andb_prop in Hs as [_ Hs].
    simpl in Hs. apply andb_prop in Hs as [Hc' _].
    cbv beta. cbn [app]. unfold one at 1.
    now rewrite (except_char _ _ Hc').
Qed.

(** A match of [\*(.+?)\*]. *)
Lemma ITALIC_inv ml i b s e g :
  match_at ml ITALIC i b s = Some (e, g) ->
  exists x t, s = STAR :: x ++ STAR :: t /\ x <> [] /\
              forallb dot x = true /\ e = i + List.length x + 2 /\
              g = [(1, x)].
Proof.
  unfold match_at, ITALIC, lit. cbn [m]. intros H.
  apply one_inv in H as (c1 & s1 & -> & Hc1 & H).
  apply one_inv in H as (c3 & s3 & -> & Hc3 & H).
  apply rep_inv in H as (w & t & -> & Hw & H).
  apply one_inv in H as (c4 & s4 & -> & Hc4 & H).
  apply char_true in Hc1, Hc4. simpl in Hc1, Hc4. subst.
  rewrite app_comm_cons, firstn_len in H by (cbn [List.length]; lia).
  injection H as <- <-. exists (c3 :: w), s4. simpl.
  rewrite Hc3, Hw. repeat split; try discriminate; try reflexivity; lia.
Qed.

(** The text between the nearest "*" pair is italic. *)
Lemma ITALIC_match ml i b x t :
  x <> [] -> forallb dot x = true -> forallb (except STAR) x = true ->
  match_at ml ITALIC i b (STAR :: x ++ STAR :: t) =
  Some (i + List.length x + 2, [(1, x)]).
Proof.
  intros Hne Hd Hs. destruct x as [|c w]; [congruence|].
  simpl in Hd, Hs. apply andb_prop in Hd as [Hc Hd].
  apply andb_prop in Hs as [_ Hs].
  unfold match_at, ITALIC, lit. cbn [m]. cbn. rewrite Hc.
  rewrite rep_lazy_skip; [|assumption|].
  - apply rep_lazy_here. cbv beta.
    rewrite app_comm_cons, firstn_len by (cbn [List.length]; lia).
    cbn. f_equal. f_equal. lia.
  - intros w1 [|c' w2] -> Hne2; [congruence|].
    rewrite forallb_app in Hs. apply andb_prop in Hs as [_ Hs].
    simpl in Hs. apply andb_prop in Hs as [Hc' _].
    cbv beta. cbn [app]. unfold one at 1.
    now rewrite (except_char _ _ Hc').
Qed.

(** A match of [\[(.+?)\]\((https?://[^\)]+)\)] is "[", a text without
    "\n" that is not empty, "](", a URL and ")"; the URL is "http://" or
    "https://" and at least one more character, none of them ")".  The
    text is group 1 and the URL group 2. *)
Lemma LINK_inv ml i b s e g :
  match_at ml LINK i b s = Some (e, g) ->
  exists x scheme u t,
    s = LBRA :: x ++ RBRA :: LPAR :: scheme ++ u ++ RPAR :: t /\
    x <> [] /\ forallb dot x = true /\
    (scheme = L "http://" \/ scheme = L "https://") /\
    u <> [] /\ forallb (except RPAR) u = true /\
    e = i + List.length x + List.length scheme + List.length u + 4 /\
    g = [(2, scheme ++ u); (1, x)].
Proof.
  unfold match_at, LINK, lit. cbn [m]. intros H.
  apply one_inv in H as (c1 & s1 & -> & Hc1 & H).
  apply one_inv in H as (c3 & s3 & -> & Hc3 & H).
  apply rep_inv in H as (w & t & -> & Hw & H).
  apply one_inv in H as (c4 & s4 & -> & Hc4 & H).
  apply one_inv in H as (c5 & s5 & -> & Hc5 & H).
  apply one_inv in H as (h1 & s6 & -> & Hh1 & H).
  apply one_inv in H as (h2 & s7 & -> & Hh2 & H).
  apply one_inv in H as (h3 & s8 & -> & Hh3 & H).
  apply one_inv in H as (h4 & s9 & -> & Hh4 & H).
  apply char_true in Hc1, Hc4, Hc5, Hh1, Hh2, Hh3, Hh4.
  simpl in Hc1, Hc4, Hc5, Hh1, Hh2, Hh3, Hh4. subst.
  rewrite app_comm_cons, firstn_len in H by (cbn [List.length]; lia).
  apply orelse_inv in H as [H|H].
  - apply one_inv in H as (h5 & s10 & -> & Hh5 & H).
    apply one_inv in H as (h6 & s11 & -> & Hh6 & H).
    apply one_inv in H as (h7 & s12 & -> & Hh7 & H).
    apply one_inv in H as (h8 & s13 & -> & Hh8 & H).
    apply one_inv in H as (c6 & s14 & -> & Hc6 & H).
    apply rep_inv in H as (u & t & -> & Hu & H).
    apply one_inv in H as (c7 & s15 & -> & Hc7 & H).
    apply char_true in Hh5, Hh6, Hh7, Hh8, Hc7.
    simpl in Hh5, Hh6, Hh7, Hh8, Hc7. subst.
    change (104 :: 116 :: 116 :: 112 :: 115 :: 58 :: 47 :: 47 :: c6 :: u
            ++ RPAR :: s15)%N
      with ((L "https://" ++ c6 :: u) ++ RPAR :: s15) in H.
    rewrite firstn_len in H
      by (rewrite length_app; cbn [List.length L map list_ascii_of_string]; lia).
    injection H as <- <-.
    exists (c3 :: w), (L "https://"), (c6 :: u), s15.
    cbn [forallb]. rewrite Hc3, Hw, Hc6, Hu.
    repeat split; try discriminate; try reflexivity; auto.
    cbn [List.length L map list_ascii_of_string]. lia.
  - apply one_inv in H as (h6 & s11 & -> & Hh6 & H).
    apply one_inv in H as (h7 & s12 & -> & Hh7 & H).
    apply one_inv in H as (h8 & s13 & -> & Hh8 & H).
    apply one_inv in H as (c6 & s14 & -> & Hc6 & H).
    apply rep_inv in H as (u & t & -> & Hu & H).
    apply one_inv in H as (c7 & s15 & -> & Hc7 & H).
    apply char_true in Hh6, Hh7, Hh8, Hc7.
    simpl in Hh6, Hh7, Hh8, Hc7. subst.
    change (104 :: 116 :: 116 :: 112 :: 58 :: 47 :: 47 :: c6 :: u
            ++ RPAR :: s15)%N
      with ((L "http://" ++ c6 :: u) ++ RPAR :: s15) in H.
    rewrite firstn_len in H
      by (rewrite length_app; cbn [List.length L map list_ascii_of_string]; lia).
    injection H as <- <-.
    exists (c3 :: w), (L "http://"), (c6 :: u), s15.
    cbn [forallb]. rewrite Hc3, Hw, Hc6, Hu.
    repeat split; try discriminate; try reflexivity; auto.
    cbn [List.length L map list_ascii_of_string]. lia.
Qed.

Lemma LINK_match ml i b x scheme u t :
  x <> [] -> forallb dot x = true -> forallb (except RBRA) x = true ->
  scheme = L "http://" \/ scheme = L "https://" ->
  u <> [] -> forallb (except RPAR) u = true ->
  match_at ml LINK i b
    (LBRA :: x ++ RBRA :: LPAR :: scheme ++ u ++ RPAR :: t) =
  Some (i + List.length x + List.length scheme + List.length u + 4,
        [(2, scheme ++ u); (1, x)]).
Proof.
  intros Hne Hd Hs Hsch Hu Hr. destruct x as [|c w]; [congruence|].
  destruct u as [|d u]; [congruence|].
  simpl in Hd, Hs, Hr. apply andb_prop in Hd as [Hc Hd].
  apply andb_prop in Hs as [_ Hs]. apply andb_prop in Hr as [Hd' Hr].
  unfold match_at, LINK, lit. cbn [m]. cbn. rewrite Hc.
  rewrite rep_lazy_skip; [|assumption|].
  - apply rep_lazy_here. cbv beta.
    rewrite (app_comm_cons w _ c), firstn_len by (cbn [List.length]; lia).
    destruct Hsch as [-> | ->].
    + cbn -[Nat.sub firstn Nat.add]. rewrite Hd'.
      apply rep_greedy_all; [assumption| |reflexivity]. cbv beta.
      rewrite !app_comm_cons, firstn_len by (cbn [List.length]; lia).
      cbn -[Nat.add]. f_equal. f_equal. lia.
    + cbn -[Nat.sub firstn Nat.add]. apply orelse_left.
      cbn -[Nat.sub firstn Nat.add]. rewrite Hd'.
      apply rep_greedy_all; [assumption| |reflexivity]. cbv beta.
      rewrite !app_comm_cons, firstn_len by (cbn [List.length]; lia).
      cbn -[Nat.add]. f_equal. f_equal. lia.
  - intros w1 [|c' w2] -> Hne2; [congruence|].
    rewrite forallb_app in Hs. apply andb_prop in Hs as [_ Hs].
    simpl in Hs. apply andb_prop in Hs as [Hc' _].
    cbv beta. cbn [app]. unfold one at 1.
    now rewrite (except_char _ _ Hc').
Qed.

(** ** Substitution and splitting *)

Section Scan.
Variables (ml : bool) (r : regex) (repl : list piece).

(** Where the pattern does not occur, [re.sub] copies the text. *)
Lemma sub_from_absent s : forall i b,
  occurs_from ml r i b s = false -> sub_from ml r repl 0 i b s = s.
Proof.
  induction s as [|c s IH]; intros i b; simpl.
  - destruct (match_at ml r i b []); [discriminate|reflexivity].
  - destruct (match_at ml r i b (c :: s)); [discriminate|].
    intros H. now rewrite IH.
Qed.

(** and [re.split] has one part, the text. *)
Lemma split_from_absent s : forall i b,
  occurs_from ml r i b s = false -> split_from ml r 0 i b s = (s, []).
Proof.
  induction s as [|c s IH]; intros i b; simpl.
  - destruct (match_at ml r i b []); [discriminate|reflexivity].
  - destruct (match_at ml r i b (c :: s)); [discriminate|].
    intros H. now rewrite IH.
Qed.

Lemma sub_from_skip w : forall t i b,
  sub_from ml r repl (List.length w) i b (w ++ t) =
  sub_from ml r repl 0 (i + List.length w) (lastb b w) t.
Proof.
  induction w as [|c w IH]; intros t i b; simpl.
  - now rewrite Nat.add_0_r.
  - now rewrite IH, Nat.add_succ_r.
Qed.

(** Text in which no match starts is copied. *)
Lemma sub_from_copy w : forall t i b,
  (forall w1 w2, w = w1 ++ w2 -> w2 <> [] ->
     match_at ml r (i + List.length w1) (lastb b w1) (w2 ++ t) = None) ->
  sub_from ml r repl 0 i b (w ++ t) =
  w ++ sub_from ml r repl 0 (i + List.length w) (lastb b w) t.
Proof.
  induction w as [|c w IH]; intros t i b H.
  - simpl. now rewrite Nat.add_0_r.
  - pose proof (H [] (c :: w) eq_refl ltac:(discriminate)) as H0.
    simpl in H0. rewrite Nat.add_0_r in H0.
    cbn [app sub_from]. rewrite H0. f_equal.
    rewrite IH; [simpl; now rewrite Nat.add_succ_r|].
    intros w1 w2 -> Hne. specialize (H (c :: w1) w2 eq_refl Hne).
    simpl in H. now rewrite Nat.add_succ_r in H.
Qed.

(** A match is replaced by the expanded template. *)
Lemma sub_from_match w t i b g :
  w <> [] ->
  match_at ml r i b (w ++ t) = Some (i + List.length w, g) ->
  sub_from ml r repl 0 i b (w ++ t) =
  expand repl g ++ sub_from ml r repl 0 (i + List.length w) (lastb b w) t.
Proof.
  destruct w as [|c w]; [congruence|]. intros _ H.
  cbn [app sub_from]. cbn [app] in H. rewrite H. f_equal.
  replace (i + List.length (c :: w) <=? i) with false
    by (symmetry; apply Nat.leb_gt; simpl; lia).
  replace (i + List.length (c :: w) - i - 1) with (List.length w)
    by (simpl; lia).
  rewrite sub_from_skip. simpl. now rewrite Nat.add_succ_r.
Qed.
End Scan.

Lemma BOLD_starts : starts_only BOLD STAR.
Proof.
  intros ml i b s H. destruct (match_at ml BOLD i b s) as [[e g]|] eqn:E;
    [|congruence].
  apply BOLD_inv in E as (x & t & -> & _). eauto.
Qed.

Lemma ITALIC_starts : starts_only ITALIC STAR.
Proof.
  intros ml i b s H. destruct (match_at ml ITALIC i b s) as [[e g]|] eqn:E;
    [|congruence].
  apply ITALIC_inv in E as (x & t & -> & _). eauto.
Qed.

Lemma LINK_starts : starts_only LINK LBRA.
Proof.
  intros ml i b s H. destruct (match_at ml LINK i b s) as [[e g]|] eqn:E;
    [|congruence].
  apply LINK_inv in E as (x & sc & u & t & -> & _). eauto.
Qed.

Lemma starts_only_none r c0 ml i b s :
  starts_only r c0 ->
  match s with [] => true | c :: _ => except c0 c end = true ->
  match_at ml r i b s = None.
Proof.
  intros Hr Hs. destruct (match_at ml r i b s) eqn:E; [|reflexivity].
  destruct (Hr ml i b s) as [s' ->]; [congruence|].
  unfold except in Hs. rewrite N.eqb_refl in Hs. discriminate.
Qed.

(** A text without that character has no occurrence of the pattern. *)
Lemma absent_without r c0 ml s : forall i b,
  starts_only r c0 -> forallb (except c0) s = true ->
  occurs_from ml r i b s = false.
Proof.
  induction s as [|c s IH]; intros i b Hr Hs; simpl.
  - now rewrite (starts_only_none r c0 ml i b [] Hr).
  - simpl in Hs. apply andb_prop in Hs as [Hc Hs].
    rewrite (starts_only_none r c0 ml i b (c :: s) Hr) by assumption.
    now apply IH.
Qed.

(** ** Inline resolution *)

Lemma marker_free_fixed text :
  marker_free text = true -> process_inline_formatting text = text.
Proof.
  unfold marker_free, occurs, process_inline_formatting, re_sub.
  intros H. apply andb_prop in H as [H Hl]. apply andb_prop in H as [Hb Hi].
  apply negb_true_iff in Hb, Hi, Hl.
  rewrite (@sub_from_absent false BOLD BOLD_REPL text 0 None Hb).
  rewrite (@sub_from_absent false ITALIC ITALIC_REPL text 0 None Hi).
  exact (@sub_from_absent false LINK LINK_REPL text 0 None Hl).
Qed.

Lemma plain_marker_free text :
  forallb (except STAR) text = true -> forallb (except LBRA) text = true ->
  marker_free text = true.
Proof.
  intros Hs Hl. unfold marker_free, occurs.
  rewrite (absent_without BOLD STAR false text 0 None BOLD_starts Hs).
  rewrite (absent_without ITALIC STAR false text 0 None ITALIC_starts Hs).
  now rewrite (absent_without LINK LBRA false text 0 None LINK_starts Hl).
Qed.

(** C7.  Inline resolution leaves a text that is free of markers as it
    is: when neither the bold, nor the italic, nor the link pattern
    occurs in [text], [process_inline_formatting text] is [text].  Texts
    without "*" and "[" are of that kind. *)
Theorem C7_resolution_fixes_marker_free (text : pystr) :
  marker_free text = true -> process_inline_formatting text = text.
Proof. apply marker_free_fixed. Qed.

Lemma C7_resolution_fixes_marker_free_witness :
  marker_free (L "2 * 3 = 6, see [docs](notaurl)") = true /\
  process_inline_formatting (L "2 * 3 = 6, see [docs](notaurl)") =
  L "2 * 3 = 6, see [docs](notaurl)".
Proof.
  split; [reflexivity|].
  apply (C7_resolution_fixes_marker_free (L "2 * 3 = 6, see [docs](notaurl)")).
  reflexivity.
Defined.

(** One occurrence of a pattern in a text that has the first character of
    the pattern nowhere else. *)
Lemma sub_one_match ml r c0 repl pre w post g :
  starts_only r c0 ->
  forallb (except c0) pre = true -> forallb (except c0) post = true ->
  w <> [] ->
  (forall i b, match_at ml r i b (w ++ post) = Some (i + List.length w, g)) ->
  re_sub ml r repl (pre ++ w ++ post) = pre ++ expand repl g ++ post.
Proof.
  intros Hr Hpre Hpost Hne Hm. unfold re_sub.
  rewrite sub_from_copy.
  - rewrite (@sub_from_match ml r repl w post _ _ g Hne (Hm _ _)).
    now rewrite (@sub_from_absent ml r repl post _ _
                   (absent_without r c0 ml post _ _ Hr Hpost)).
  - intros w1 [|c w2] -> Hne2; [congruence|].
    apply (starts_only_none r c0 _ _ _ _ Hr). simpl.
    rewrite forallb_app in Hpre. apply andb_prop in Hpre as [_ Hpre].
    simpl in Hpre. now apply andb_prop in Hpre as [Hc _].
Qed.

Lemma plain_app s t : plain (s ++ t) = true <-> plain s = true /\ plain t = true.
Proof.
  unfold plain. rewrite !forallb_app, !andb_true_iff. tauto.
Qed.

Lemma plain_fixed s : plain s = true -> process_inline_formatting s = s.
Proof.
  unfold plain. intros H. apply andb_prop in H as [Hs Hl].
  apply marker_free_fixed. now apply plain_marker_free.
Qed.

Lemma plain_after_bold s :
  plain s = true ->
  re_sub false LINK LINK_REPL (re_sub false ITALIC ITALIC_REPL s) = s.
Proof.
  unfold plain, re_sub. intros H. apply andb_prop in H as [Hs Hl].
  rewrite (@sub_from_absent false ITALIC ITALIC_REPL s 0 None
             (absent_without ITALIC STAR false s 0 None ITALIC_starts Hs)).
  exact (@sub_from_absent false LINK LINK_REPL s 0 None
           (absent_without LINK LBRA false s 0 None LINK_starts Hl)).
Qed.

(** The text between a "**" pair becomes bold, and nothing of the pair is
    left for the italic pattern. *)
Lemma bold_pair pre x post :
  x <> [] -> forallb dot x = true ->
  plain pre = true -> plain x = true -> plain post = true ->
  re_sub false BOLD BOLD_REPL (pre ++ L "**" ++ x ++ L "**" ++ post) =
    pre ++ L "<b>" ++ x ++ L "</b>" ++ post /\
  process_inline_formatting (pre ++ L "**" ++ x ++ L "**" ++ post) =
    pre ++ L "<b>" ++ x ++ L "</b>" ++ post.
Proof.
  intros Hne Hd Hpre Hx Hpost.
  assert (Hb : re_sub false BOLD BOLD_REPL
                 (pre ++ L "**" ++ x ++ L "**" ++ post) =
               pre ++ L "<b>" ++ x ++ L "</b>" ++ post).
  { unfold plain in *. apply andb_prop in Hpre as [Hpre _].
    apply andb_prop in Hx as [Hx _]. apply andb_prop in Hpost as [Hpost _].
    replace (pre ++ L "**" ++ x ++ L "**" ++ post)
      with (pre ++ (L "**" ++ x ++ L "**") ++ post)
      by (now rewrite <- !app_assoc).
    rewrite (@sub_one_match false BOLD STAR BOLD_REPL pre
               (L "**" ++ x ++ L "**") post [(1, x)] BOLD_starts); auto.
    - unfold expand. simpl. now rewrite <- !app_assoc.
    - discriminate.
    - intros i b. rewrite <- !app_assoc.
      change (L "**" ++ x ++ L "**" ++ post)
        with (STAR :: STAR :: x ++ STAR :: STAR :: post).
      rewrite BOLD_match by assumption. f_equal. f_equal.
      rewrite !length_app. simpl. lia. }
  split; [exact Hb|].
  unfold process_inline_formatting. rewrite Hb.
  apply plain_after_bold. rewrite !plain_app. auto.
Qed.

(** C4.  Bold is resolved before italic, on the same text: the italic
    substitution runs on the result of the bold substitution.  The text
    between a "**" pair becomes bold and no "*" of the pair is left for
    the italic pattern; "**bold**" resolves to "<b>bold</b>", with no "*"
    in it, and in "**a*b*c**" the outer pair is bold before the inner
    pair is italic. *)
Theorem C4_bold_before_italic :
  (forall text,
     process_inline_formatting text =
     re_sub false LINK LINK_REPL
       (re_sub false ITALIC ITALIC_REPL (re_sub false BOLD BOLD_REPL text))) /\
  (forall pre x post,
     x <> [] -> forallb dot x = true ->
     plain pre = true -> plain x = true -> plain post = true ->
     process_inline_formatting (pre ++ L "**" ++ x ++ L "**" ++ post) =
       pre ++ L "<b>" ++ x ++ L "</b>" ++ post /\
     forallb (except STAR)
       (process_inline_formatting (pre ++ L "**" ++ x ++ L "**" ++ post))
     = true) /\
  process_inline_formatting (L "**bold**") = L "<b>bold</b>" /\
  re_sub false BOLD BOLD_REPL (L "**a*b*c**") = L "<b>a*b*c</b>" /\
  process_inline_formatting (L "**a*b*c**") = L "<b>a<i>b</i>c</b>".
Proof.
  split; [reflexivity|]. split; [|repeat split; reflexivity].
  intros pre x post Hne Hd Hpre Hx Hpost.
  destruct (bold_pair pre x post Hne Hd Hpre Hx Hpost) as [_ ->].
  split; [reflexivity|].
  unfold plain in *. apply andb_prop in Hpre as [Hpre _].
  apply andb_prop in Hx as [Hx _]. apply andb_prop in Hpost as [Hpost _].
  rewrite !forallb_app, Hpre, Hx, Hpost. reflexivity.
Qed.

Lemma C4_bold_before_italic_witness :
  process_inline_formatting (L "say " ++ L "**" ++ L "bold" ++ L "**" ++ L "!")
  = L "say " ++ L "<b>" ++ L "bold" ++ L "</b>" ++ L "!".
Proof.
  apply (proj1 (proj2 C4_bold_before_italic) (L "say ") (L "bold") (L "!"));
    [discriminate|reflexivity..].
Defined.

(** The link pattern does not match a bracketed text that is followed by
    a URL without scheme. *)
Lemma unschemed_link_none ml i b t u :
  forallb (except RBRA) t = true -> forallb (except RBRA) u = true ->
  schemed u = false ->
  match_at ml LINK i b (LBRA :: t ++ RBRA :: LPAR :: u ++ [RPAR]) = None.
Proof.
  intros Ht Hu Hsch.
  destruct (match_at ml LINK i b (LBRA :: t ++ RBRA :: LPAR :: u ++ [RPAR]))
    as [[e g]|] eqn:E; [|reflexivity].
  apply LINK_inv in E
    as (x & scheme & v & t' & E & _ & _ & Hscheme & Hv & _ & _ & _).
  injection E as E.
  apply split_unique in E as [<- E]; [|assumption|].
  - injection E as E.
    assert (Hs : starts_with scheme u = true).
    { apply (starts_with_split scheme u [RPAR] (v ++ RPAR :: t')); [easy|].
      apply (f_equal (@List.length N)) in E.
      rewrite !length_app in E. simpl in E.
      destruct v; [congruence|]. simpl in E. lia. }
    unfold schemed in Hsch. apply orb_false_iff in Hsch as [H1 H2].
    destruct Hscheme as [-> | ->]; congruence.
  - simpl. rewrite forallb_app, Hu. reflexivity.
Qed.

Lemma unschemed_link_fixed t u :
  plain (t ++ u) = true -> forallb (except RBRA) (t ++ u) = true ->
  schemed u = false ->
  process_inline_formatting (L "[" ++ t ++ L "](" ++ u ++ L ")") =
  L "[" ++ t ++ L "](" ++ u ++ L ")".
Proof.
  intros Hp Hr Hsch. apply plain_app in Hp as [Ht Hu].
  unfold plain in Ht, Hu. apply andb_prop in Ht as [Hts Htl].
  apply andb_prop in Hu as [Hus Hul].
  rewrite forallb_app in Hr. apply andb_prop in Hr as [Htr Hur].
  apply marker_free_fixed. unfold marker_free, occurs.
  change (L "[" ++ t ++ L "](" ++ u ++ L ")")
    with (LBRA :: t ++ RBRA :: LPAR :: u ++ [RPAR]).
  assert (Hstar : forallb (except STAR)
                    (LBRA :: t ++ RBRA :: LPAR :: u ++ [RPAR]) = true).
  { simpl. rewrite forallb_app, Hts. simpl. rewrite forallb_app, Hus.
    reflexivity. }
  rewrite (absent_without BOLD STAR false _ 0 None BOLD_starts Hstar).
  rewrite (absent_without ITALIC STAR false _ 0 None ITALIC_starts Hstar).
  cbn [occurs_from].
  rewrite (unschemed_link_none false 0 None t u Htr Hur Hsch).
  rewrite (absent_without LINK LBRA false _ 1 (Some LBRA) LINK_starts);
    [reflexivity|].
  rewrite forallb_app, Htl. simpl. rewrite forallb_app, Hul. reflexivity.
Qed.

Lemma schemed_link_resolved t scheme v :
  t <> [] -> forallb dot t = true -> plain t = true ->
  forallb (except RBRA) t = true ->
  scheme = L "http://" \/ scheme = L "https://" ->
  v <> [] -> forallb (except RPAR) v = true -> plain v = true ->
  process_inline_formatting (L "[" ++ t ++ L "](" ++ (scheme ++ v) ++ L ")") =
  anchor (scheme ++ v) t.
Proof.
  intros Hne Hd Hp Hr Hsch Hv Hvr Hvp.
  unfold plain in Hp, Hvp. apply andb_prop in Hp as [Hts Htl].
  apply andb_prop in Hvp as [Hvs Hvl].
  set (s := L "[" ++ t ++ L "](" ++ (scheme ++ v) ++ L ")").
  assert (Hstar : forallb (except STAR) s = true).
  { unfold s. simpl. rewrite forallb_app, Hts. simpl.
    rewrite !forallb_app, Hvs.
    destruct Hsch as [-> | ->]; reflexivity. }
  unfold process_inline_formatting, re_sub.
  rewrite (@sub_from_absent false BOLD BOLD_REPL s 0 None
             (absent_without BOLD STAR false s 0 None BOLD_starts Hstar)).
  rewrite (@sub_from_absent false ITALIC ITALIC_REPL s 0 None
             (absent_without ITALIC STAR false s 0 None ITALIC_starts Hstar)).
  assert (H : re_sub false LINK LINK_REPL ([] ++ s ++ []) =
              [] ++ expand LINK_REPL [(2, scheme ++ v); (1, t)] ++ []).
  { apply (@sub_one_match false LINK LBRA); auto using LINK_starts.
    - discriminate.
    - intros i b. rewrite app_nil_r. unfold s. rewrite <- app_assoc.
      change (L "[" ++ t ++ L "](" ++ scheme ++ v ++ L ")")
        with (LBRA :: t ++ RBRA :: LPAR :: scheme ++ v ++ RPAR :: []).
      rewrite LINK_match by assumption. f_equal. f_equal.
      simpl. rewrite !length_app. simpl. rewrite !length_app. simpl. lia. }
  rewrite !app_nil_r in H. simpl app in H. unfold re_sub in H. rewrite H.
  unfold expand, anchor. simpl. now rewrite <- !app_assoc.
Qed.



(** ** Bold and italic stay within a line *)

Section LazyStop.
Variable A : Type.

(** A lazy repetition fails when the run it can read ends before its
    continuation answers. *)
Lemma rep_lazy_stop p (k : cont A) w c t g : forall i b,
  p c = false ->
  (forall w1 w2, w = w1 ++ w2 ->
     k (i + List.length w1) (lastb b w1) (w2 ++ c :: t) g = None) ->
  rep_lazy p k i b (w ++ c :: t) g = None.
Proof.
  induction w as [|d w IH]; intros i b Hc Hk.
  - simpl. specialize (Hk [] [] eq_refl). simpl in Hk.
    rewrite Nat.add_0_r in Hk. now rewrite Hk, Hc.
  - cbn [app rep_lazy].
    pose proof (Hk [] (d :: w) eq_refl) as H0. simpl in H0.
    rewrite Nat.add_0_r in H0. rewrite H0.
    destruct (p d); [|reflexivity].
    apply IH; [assumption|]. intros w1 w2 ->.
    specialize (Hk (d :: w1) w2 eq_refl). simpl in Hk.
    now rewrite Nat.add_succ_r in Hk.
Qed.
End LazyStop.

Lemma occurs_from_step ml r i b c s :
  match_at ml r i b (c :: s) = None ->
  occurs_from ml r i b (c :: s) = occurs_from ml r (S i) (Some c) s.
Proof. simpl. now intros ->. Qed.

Lemma occurs_from_without r c0 ml w : forall t i b,
  starts_only r c0 -> forallb (except c0) w = true ->
  occurs_from ml r i b (w ++ t) =
  occurs_from ml r (i + List.length w) (lastb b w) t.
Proof.
  induction w as [|c w IH]; intros t i b Hr Hw.
  - simpl. now rewrite Nat.add_0_r.
  - simpl in Hw. apply andb_prop in Hw as [Hc Hw].
    cbn [app]. rewrite occurs_from_step
      by (apply (starts_only_none r c0 _ _ _ _ Hr); exact Hc).
    rewrite IH by assumption. simpl. now rewrite Nat.add_succ_r.
Qed.

(** No closing "*" on the line of the opening one: no italic. *)
Lemma ITALIC_no_close ml i b w rest :
  forallb (except STAR) (tl w) = true ->
  match_at ml ITALIC i b (STAR :: w ++ NL :: rest) = None.
Proof.
  intros Hw. unfold match_at, ITALIC, lit. cbn [m]. cbn.
  destruct w as [|c w]; [reflexivity|]. cbn. simpl in Hw.
  destruct (dot c) eqn:Hc; [|reflexivity].
  apply rep_lazy_stop; [reflexivity|].
  intros w1 w2 -> . cbv beta.
  rewrite forallb_app in Hw. apply andb_prop in Hw as [_ Hw].
  destruct w2 as [|d w2]; [reflexivity|].
  simpl in Hw. apply andb_prop in Hw as [Hd _].
  cbn [app]. unfold one at 1. now rewrite (except_char _ _ Hd).
Qed.

(** No closing "**" on the line of the opening one: no bold. *)
Lemma BOLD_no_close ml i b w rest :
  forallb (except STAR) (tl w) = true ->
  match_at ml BOLD i b (STAR :: STAR :: w ++ NL :: rest) = None.
Proof.
  intros Hw. unfold match_at, BOLD, lit. cbn [m]. cbn.
  destruct w as [|c w]; [reflexivity|]. cbn. simpl in Hw.
  destruct (dot c) eqn:Hc; [|reflexivity].
  apply rep_lazy_stop; [reflexivity|].
  intros w1 w2 -> . cbv beta.
  rewrite forallb_app in Hw. apply andb_prop in Hw as [_ Hw].
  destruct w2 as [|d w2]; [reflexivity|].
  simpl in Hw. apply andb_prop in Hw as [Hd _].
  cbn [app]. unfold one at 1. now rewrite (except_char _ _ Hd).
Qed.

Lemma BOLD_second ml i b s :
  match s with [] => true | c :: _ => except STAR c end = true ->
  match_at ml BOLD i b (STAR :: s) = None.
Proof.
  intros Hs. unfold match_at, BOLD, lit. cbn [m]. cbn.
  destruct s as [|c s]; [reflexivity|]. cbn.
  now rewrite (except_char _ _ Hs).
Qed.

Lemma forallb_tl (p : N -> bool) s :
  forallb p s = true -> forallb p (tl s) = true.
Proof.
  destruct s as [|c s]; [easy|]. simpl. intros H.
  now apply andb_prop in H as [_ H].
Qed.

Lemma head_of_line x y rest :
  forallb (except STAR) x = true ->
  match x ++ NL :: y ++ rest with
  | [] => true
  | c :: _ => except STAR c
  end = true.
Proof.
  destruct x as [|c x]; [reflexivity|]. simpl. intros H.
  now apply andb_prop in H as [H _].
Qed.

(** A "**" pair around a line break is left as it is. *)
Lemma cross_line_bold_fixed x y :
  plain x = true -> plain y = true ->
  process_inline_formatting (L "**" ++ x ++ [NL] ++ y ++ L "**") =
  L "**" ++ x ++ [NL] ++ y ++ L "**".
Proof.
  unfold plain. intros Hx Hy. apply andb_prop in Hx as [Hxs Hxl].
  apply andb_prop in Hy as [Hys Hyl].
  assert (Hm : forallb (except STAR) (x ++ NL :: y) = true)
    by (rewrite forallb_app; simpl; now rewrite Hxs, Hys).
  apply marker_free_fixed. unfold marker_free, occurs.
  change (L "**" ++ x ++ [NL] ++ y ++ L "**")
    with (STAR :: STAR :: x ++ NL :: y ++ [STAR; STAR]).
  rewrite (occurs_from_step false BOLD)
    by (apply BOLD_no_close; now apply forallb_tl).
  rewrite (occurs_from_step false BOLD)
    by (apply BOLD_second; now apply head_of_line).
  rewrite (occurs_from_step false ITALIC)
    by (apply (ITALIC_no_close false 0 None (STAR :: x)); exact Hxs).
  rewrite (occurs_from_step false ITALIC)
    by (apply ITALIC_no_close; now apply forallb_tl).
  replace (x ++ NL :: y ++ [STAR; STAR]) with ((x ++ NL :: y) ++ [STAR; STAR])
    by (now rewrite <- app_assoc).
  rewrite (occurs_from_without BOLD STAR false _ _ _ _ BOLD_starts Hm).
  rewrite (occurs_from_without ITALIC STAR false _ _ _ _ ITALIC_starts Hm).
  cbn [occurs_from match_at BOLD ITALIC lit m one rep rep_lazy
       N_of_ascii N_of_digits char dot except N.eqb Pos.eqb negb N.add N.mul].
  rewrite (absent_without LINK LBRA false _ _ _ LINK_starts); [reflexivity|].
  rewrite !forallb_app. simpl. now rewrite Hxl, Hyl.
Qed.

(** A "*" pair around a line break is left as it is. *)
Lemma cross_line_italic_fixed x y :
  plain x = true -> plain y = true ->
  process_inline_formatting (L "*" ++ x ++ [NL] ++ y ++ L "*") =
  L "*" ++ x ++ [NL] ++ y ++ L "*".
Proof.
  unfold plain. intros Hx Hy. apply andb_prop in Hx as [Hxs Hxl].
  apply andb_prop in Hy as [Hys Hyl].
  assert (Hm : forallb (except STAR) (x ++ NL :: y) = true)
    by (rewrite forallb_app; simpl; now rewrite Hxs, Hys).
  apply marker_free_fixed. unfold marker_free, occurs.
  change (L "*" ++ x ++ [NL] ++ y ++ L "*")
    with (STAR :: x ++ NL :: y ++ [STAR]).
  rewrite (occurs_from_step false BOLD)
    by (apply BOLD_second; now apply head_of_line).
  rewrite (occurs_from_step false ITALIC)
    by (apply ITALIC_no_close; now apply forallb_tl).
  replace (x ++ NL :: y ++ [STAR]) with ((x ++ NL :: y) ++ [STAR])
    by (now rewrite <- app_assoc).
  rewrite (occurs_from_without BOLD STAR false _ _ _ _ BOLD_starts Hm).
  rewrite (occurs_from_without ITALIC STAR false _ _ _ _ ITALIC_starts Hm).
  cbn [occurs_from match_at BOLD ITALIC lit m one rep rep_lazy
       N_of_ascii N_of_digits char dot except N.eqb Pos.eqb negb N.add N.mul].
  rewrite (absent_without LINK LBRA false _ _ _ LINK_starts); [reflexivity|].
  rewrite !forallb_app. simpl. now rewrite Hxl, Hyl.
Qed.



(** ** The missing font *)

(** C6.  When the font file is not there, the call raises
    [FileNotFoundError], whatever the content, the file name and the
    spacing are: ReportLab is not asked to build anything and no document
    is returned. *)
Theorem C6_missing_font_raises (path_exists : pystr -> bool)
    (build : list flowable -> outcome (list N)) (content file_name : pystr)
    (heading_to_content_space : Z) :
  path_exists font_path = false ->
  create_pdf_reportlab path_exists build content file_name
    heading_to_content_space =
  Raise (FileNotFoundError (L "TTF Font file not found: " ++ font_path)).
Proof.
  intros H. unfold create_pdf_reportlab. now rewrite H.
Qed.

Lemma C6_missing_font_raises_witness :
  create_pdf_reportlab (fun _ => false)
    (fun _ => Return [37; 80; 68; 70]%N)
    (L "## Intro" ++ [NL] ++ L "Hello") (L "out.pdf") 24 =
  Raise (FileNotFoundError (L "TTF Font file not found: " ++ font_path)).
Proof.
  apply (C6_missing_font_raises (fun _ => false)
           (fun _ => Return [37; 80; 68; 70]%N)).
  reflexivity.
Defined.

(** ** Headings *)

(** A match of [(^##\s*.+$)] under MULTILINE starts a line; it is "##",
    a run of whitespace and a text without "\n" that is not empty and
    that the end of a line follows; group 1 is all of it. *)
Lemma HEADING_inv i b s e g :
  match_at true HEADING i b s = Some (e, g) ->
  exists ws x t,
    s = HASH :: HASH :: ws ++ x ++ t /\ at_bol true b = true /\
    forallb isspace ws = true /\ x <> [] /\ forallb dot x = true /\
    at_eol true t = true /\
    e = i + 2 + List.length ws + List.length x /\
    g = [(1, HASH :: HASH :: ws ++ x)].
Proof.
  unfold match_at, HEADING, lit. cbn [m]. intros H.
  destruct (at_bol true b) eqn:Hb; [|discriminate].
  apply one_inv in H as (c1 & s1 & -> & Hc1 & H).
  apply one_inv in H as (c2 & s2 & -> & Hc2 & H).
  apply rep_inv in H as (ws & t0 & -> & Hws & H).
  apply one_inv in H as (c3 & s3 & -> & Hc3 & H).
  apply rep_inv in H as (x & t & -> & Hx & H).
  destruct (at_eol true t) eqn:Ht; [|discriminate].
  apply char_true in Hc1, Hc2. simpl in Hc1, Hc2. subst.
  exists ws, (c3 :: x), t.
  replace (HASH :: HASH :: ws ++ c3 :: x ++ t)
    with ((HASH :: HASH :: ws ++ c3 :: x) ++ t) in H
    by (simpl; now rewrite <- app_assoc).
  rewrite firstn_len in H
    by (cbn [List.length]; rewrite length_app; cbn [List.length]; lia).
  injection H as <- <-. cbn [forallb]. rewrite Hc3, Hx.
  repeat split; try discriminate; try reflexivity; auto.
  cbn [List.length]. lia.
Qed.

Lemma starts_with_hashes s :
  starts_with (L "##") s = true <-> exists s', s = HASH :: HASH :: s'.
Proof.
  split.
  - destruct s as [|c1 [|c2 s]]; simpl; try discriminate;
      try (rewrite andb_false_r; discriminate).
    rewrite andb_true_r. intros H. apply andb_prop in H as [H1 H2].
    apply N.eqb_eq in H1, H2. subst. eauto.
  - intros [s' ->]. reflexivity.
Qed.

(** The heading pattern occurs only where a line starts with "##". *)
Lemma HEADING_absent s : forall i b,
  marker_line_from b s = false -> occurs_from true HEADING i b s = false.
Proof.
  assert (Hnone : forall i b s,
            at_bol true b && starts_with (L "##") s = false ->
            match_at true HEADING i b s = None).
  { intros i b s0 H. destruct (match_at true HEADING i b s0) as [[e g]|] eqn:E;
      [|reflexivity].
    apply HEADING_inv in E as (ws & x & t & -> & Hb & _).
    rewrite Hb in H. discriminate. }
  induction s as [|c s IH]; intros i b H; simpl in H;
    apply orb_false_iff in H as [H1 H2]; cbn [occurs_from].
  - now rewrite Hnone.
  - rewrite Hnone by assumption. now apply IH.
Qed.

Lemma no_marker_no_parts content :
  has_heading_marker content = false ->
  re_split true HEADING content = [content].
Proof.
  intros H. unfold re_split.
  now rewrite (split_from_absent true HEADING content 0 None
                 (HEADING_absent content 0 None H)).
Qed.

(** C8.  A content without heading marker, with no line that starts with
    "##", has no section: the split has one part, the content itself, the
    loop adds nothing to [elements] and raises nothing, and with the font
    in place the result of the call is what ReportLab makes of the empty
    list.  The empty string is such a content. *)
Theorem C8_no_heading_no_section (path_exists : pystr -> bool)
    (build : list flowable -> outcome (list N)) (content file_name : pystr)
    (heading_to_content_space : Z) :
  has_heading_marker content = false ->
  path_exists font_path = true ->
  re_split true HEADING content = [content] /\
  elements_of content heading_to_content_space = [] /\
  create_pdf_reportlab path_exists build content file_name
    heading_to_content_space = build [].
Proof.
  intros Hc Hf.
  assert (He : elements_of content heading_to_content_space = []).
  { unfold elements_of. now rewrite (no_marker_no_parts content Hc). }
  repeat split.
  - now apply no_marker_no_parts.
  - exact He.
  - unfold create_pdf_reportlab. now rewrite Hf, He.
Qed.

Lemma C8_no_heading_no_section_witness :
  elements_of [] 24 = [] /\
  elements_of (L "plain text, a # and a  ## that starts no line") 24 = [].
Proof.
  split.
  - apply (C8_no_heading_no_section (fun _ => true) (fun _ => Return []) []
             (L "out.pdf") 24); reflexivity.
  - apply (C8_no_heading_no_section (fun _ => true) (fun _ => Return [])
             (L "plain text, a # and a  ## that starts no line")
             (L "out.pdf") 24); reflexivity.
Defined.

(** ** The bullet marker *)

Section GreedyFacts.
Variable A : Type.

(** A greedy repetition gives back what it has read only as long as its
    continuation fails: when it fails inside the run, the answer is the
    one behind the whole run. *)
Lemma rep_greedy_max p (k : cont A) w : forall t i b g,
  forallb p w = true ->
  match t with [] => true | c :: _ => negb (p c) end = true ->
  (forall w1 w2, w = w1 ++ w2 -> w2 <> [] ->
     k (i + List.length w1) (lastb b w1) (w2 ++ t) g = None) ->
  rep_greedy p k i b (w ++ t) g =
  k (i + List.length w) (lastb b w) t g.
Proof.
  induction w as [|c w IH]; intros t i b g Hw Ht Hk.
  - simpl. rewrite Nat.add_0_r. destruct t as [|c t]; [reflexivity|].
    simpl. apply negb_true_iff in Ht. now rewrite Ht.
  - simpl in Hw. apply andb_prop in Hw as [Hc Hw].
    cbn [app rep_greedy]. rewrite Hc.
    rewrite IH; [| assumption | assumption |].
    + pose proof (Hk [] (c :: w) eq_refl ltac:(discriminate)) as H0.
      simpl in H0. rewrite Nat.add_0_r in H0. cbn [app] in H0. rewrite H0.
      cbn [List.length]. rewrite Nat.add_succ_r.
      change (lastb b (c :: w)) with (lastb (Some c) w).
      change (S i + List.length w) with (S (i + List.length w)).
      now destruct (k (S (i + List.length w)) (lastb (Some c) w) t g).
    + intros w1 w2 -> Hne. specialize (Hk (c :: w1) w2 eq_refl Hne).
      simpl in Hk. now rewrite Nat.add_succ_r in Hk.
Qed.

Lemma rep_greedy_some p (k : cont A) s : forall i b g,
  (forall i b s g, k i b s g <> None) -> rep_greedy p k i b s g <> None.
Proof.
  induction s as [|c s IH]; intros i b g Hk; simpl; [apply Hk|].
  destruct (p c); [|apply Hk].
  destruct (rep_greedy p k (S i) (Some c) s g) eqn:E; [discriminate|].
  now apply IH in E.
Qed.
End GreedyFacts.

Lemma take_lstrip p s : s = take_by p s ++ lstrip_by p s.
Proof.
  induction s as [|c s IH]; [reflexivity|]. simpl.
  destruct (p c); [|reflexivity]. simpl. now rewrite <- IH.
Qed.

Lemma take_by_all p s : forallb p (take_by p s) = true.
Proof.
  induction s as [|c s IH]; [reflexivity|]. simpl.
  destruct (p c) eqn:E; [|reflexivity]. simpl. now rewrite E.
Qed.

Lemma lstrip_by_head p s :
  match lstrip_by p s with [] => true | c :: _ => negb (p c) end = true.
Proof.
  induction s as [|c s IH]; [reflexivity|]. simpl.
  destruct (p c) eqn:E; [assumption|]. simpl. now rewrite E.
Qed.

Lemma alnum_not c d : alnum d = false -> alnum c = true -> char d c = false.
Proof.
  intros Hd Hc. unfold char. destruct (N.eqb_spec c d); [|reflexivity].
  subst. congruence.
Qed.

Lemma greedy_space_some i b s g :
  rep_greedy isspace (fun e _ _ g0 => Some (e, g0)) i b s g <> None.
Proof. apply rep_greedy_some. discriminate. Qed.

(** The bullet pattern matches at the start of a line exactly when the
    line starts with a bullet marker. *)
Lemma BULLET_marker i line :
  is_some (match_at false BULLET i None line) = has_bullet_marker line.
Proof.
  unfold match_at, BULLET, lit. cbn [m at_bol]. unfold orelse.
  destruct line as [|c s]; [reflexivity|].
  cbn [has_bullet_marker]. unfold one at 1.
  destruct (alnum c) eqn:Hc.
  - unfold rep.
    rewrite (take_lstrip alnum s) at 1.
    rewrite rep_greedy_max;
      [| apply take_by_all | apply lstrip_by_head |].
    + unfold one at 3. simpl N_of_ascii.
      rewrite (alnum_not c DASH eq_refl Hc).
      destruct (lstrip_by alnum s) as [|d t]; [reflexivity|].
      unfold one at 1. unfold char at 1. simpl N_of_ascii.
      destruct (d =? DOT)%N; [|reflexivity].
      unfold one at 1. destruct t as [|c' t']; [reflexivity|].
      cbn [andb space_next]. destruct (isspace c'); [|reflexivity].
      pose proof (greedy_space_some
                    (S (S (S i + List.length (take_by alnum s))))
                    (Some c') t' []) as H.
      now destruct (rep_greedy isspace _ _ _ t' []).
    + intros w1 [|d w2] E Hne; [congruence|].
      cbn [app]. unfold one at 1. simpl N_of_ascii.
      assert (Hd : alnum d = true).
      { pose proof (take_by_all alnum s) as H. rewrite E in H.
        rewrite forallb_app in H. apply andb_prop in H as [_ H].
        simpl in H. now apply andb_prop in H as [H _]. }
      now rewrite (alnum_not d DOT eq_refl Hd).
  - unfold one at 1. unfold char at 1. simpl N_of_ascii.
    destruct (c =? DASH)%N; [|reflexivity].
    unfold one at 1. destruct s as [|c' t']; [reflexivity|].
    cbn [andb space_next]. destruct (isspace c'); [|reflexivity].
    pose proof (greedy_space_some (S (S i)) (Some c') t' []) as H.
    unfold rep. now destruct (rep_greedy isspace _ _ _ t' []).
Qed.

(** ** The loop over the sections *)

Lemma first_bullet_match_first lines :
  first_bullet_match lines =
  match first_nonblank lines with
  | Some line => re_match BULLET line
  | None => None
  end.
Proof.
  induction lines as [|l ls IH]; [reflexivity|]. simpl.
  now destruct (nonempty (strip l)).
Qed.

(** The loop that collects the items is a map over the lines that are
    not blank. *)
Lemma bullet_items_fold lines : forall acc,
  fold_left bullet_step lines acc =
  acc ++ map (fun line => Paragraph (re_sub false BULLET [] line) bullet_style)
             (filter nonempty (map strip lines)).
Proof.
  induction lines as [|l ls IH]; intros acc; simpl.
  - now rewrite app_nil_r.
  - rewrite IH. unfold bullet_step.
    destruct (nonempty (strip l)); [|reflexivity].
    simpl. now rewrite <- app_assoc.
Qed.

(** One turn of the loop adds the block of the section at [i]. *)
Lemma section_step_block parts sp elements i :
  section_step parts sp elements i =
  elements ++
  section_block sp
    (nth i parts [],
     if i + 1 <? List.length parts then nth (i + 1) parts [] else []).
Proof.
  unfold section_step, section_block, body_block, heading_block.
  cbn [fst snd].
  replace (strip (if i + 1 <? List.length parts
                  then nth (i + 1) parts [] else []))
    with (if i + 1 <? List.length parts
          then strip (nth (i + 1) parts []) else [])
    by (now destruct (i + 1 <? List.length parts)).
  remember (process_inline_formatting
              (if i + 1 <? List.length parts
               then strip (nth (i + 1) parts []) else [])) as sc eqn:Hsc.
  clear Hsc. rewrite first_bullet_match_first.
  destruct (first_nonblank (splitlines sc)) as [line|] eqn:Ef.
  - assert (Hne : nonempty sc = true)
      by (destruct sc; [discriminate|reflexivity]).
    rewrite <- (BULLET_marker 0 line). unfold re_match.
    destruct (match_at false BULLET 0 None line); cbn [is_some].
    + rewrite bullet_items_fold. unfold bullet_items_of.
      cbn [app]. now rewrite <- !app_assoc.
    + rewrite Hne. now rewrite <- !app_assoc.
  - destruct (nonempty sc); now rewrite <- ?app_assoc.
Qed.

Lemma pairs_ind (P : list pystr -> Prop) :
  P [] -> (forall h, P [h]) ->
  (forall h b l, P l -> P (h :: b :: l)) ->
  forall l, P l.
Proof.
  intros H0 H1 H2.
  assert (H : forall l, P l /\ (forall h, P (h :: l))).
  { induction l as [|a l [IHa IHb]]; split; auto. }
  intros l. apply H.
Qed.

(** The loop over the odd indices of [parts] adds the blocks of the
    sections, in their order. *)
Lemma fold_sections sp rest : forall before acc fuel,
  List.length rest <= fuel ->
  fold_left (section_step (before ++ rest) sp)
    (range_from fuel (List.length before)
                (List.length (before ++ rest)) 2) acc =
  acc ++ flat_map (section_block sp) (pairs rest).
Proof.
  induction rest as [|h|h b rest IH] using pairs_ind;
    intros before acc fuel Hfuel.
  - rewrite app_nil_r.
    destruct fuel; simpl; [now rewrite app_nil_r|].
    rewrite Nat.ltb_irrefl. simpl. now rewrite app_nil_r.
  - destruct fuel as [|fuel]; [simpl in Hfuel; lia|].
    cbn [range_from]. rewrite length_app. cbn [List.length].
    replace (List.length before <? List.length before + 1) with true
      by (symmetry; apply Nat.ltb_lt; lia).
    replace (range_from fuel (List.length before + 2)
               (List.length before + 1) 2) with (@nil nat).
    + cbn [fold_left]. rewrite section_step_block.
      rewrite length_app. cbn [List.length]. rewrite Nat.ltb_irrefl.
      rewrite app_nth2, Nat.sub_diag by lia. cbn [nth pairs flat_map].
      now rewrite app_nil_r.
    + destruct fuel; [reflexivity|]. cbn [range_from].
      replace (List.length before + 2 <? List.length before + 1) with false
        by (symmetry; apply Nat.ltb_ge; lia).
      reflexivity.
  - destruct fuel as [|fuel]; [simpl in Hfuel; lia|].
    cbn [range_from]. rewrite length_app. cbn [List.length].
    replace (List.length before <? List.length before + S (S (List.length rest)))
      with true by (symmetry; apply Nat.ltb_lt; lia).
    cbn [fold_left]. rewrite section_step_block.
    rewrite length_app. cbn [List.length].
    replace (List.length before + 1 <?
             List.length before + S (S (List.length rest)))
      with true by (symmetry; apply Nat.ltb_lt; lia).
    rewrite app_nth2, Nat.sub_diag by lia.
    rewrite app_nth2 by lia.
    replace (List.length before + 1 - List.length before) with 1 by lia.
    cbn [nth pairs flat_map].
    specialize (IH (before ++ [h; b])
                  (acc ++ section_block sp (h, b)) fuel).
    rewrite <- app_assoc in IH. cbn [app] in IH.
    rewrite length_app in IH. cbn [List.length] in IH.
    rewrite length_app in IH. cbn [List.length] in IH.
    replace (List.length before + 2 + List.length rest)
      with (List.length before + S (S (List.length rest))) in IH by lia.
    rewrite IH by (simpl in Hfuel; lia).
    now rewrite <- app_assoc.
Qed.

(** What the loop leaves in [elements]: the blocks of the sections. *)
Lemma elements_blocks content sp :
  elements_of content sp = flat_map (section_block sp) (sections content).
Proof.
  unfold elements_of, sections, re_split, range.
  destruct (split_from true HEADING 0 0 None content) as [p ps].
  cbn [tl].
  change (p :: ps) with ([p] ++ ps).
  change 1 with (List.length [p]) at 1.
  rewrite fold_sections; [reflexivity|].
  rewrite length_app. simpl. lia.
Qed.

(** ** The split keeps the text *)

Lemma HEADING_whole : whole_match true HEADING.
Proof.
  intros i b s e g H.
  apply HEADING_inv in H as (ws & x & t & -> & _ & _ & _ & _ & _ & -> & ->).
  exists (HASH :: HASH :: ws ++ x), t. repeat split.
  - simpl. now rewrite <- app_assoc.
  - simpl. rewrite length_app. lia.
Qed.

(** With such a pattern the parts of a split, put together, are the text. *)
Lemma split_from_concat ml r s :
  whole_match ml r -> forall skip i b,
  skip <= List.length s ->
  fst (split_from ml r skip i b s)
  ++ List.concat (snd (split_from ml r skip i b s)) = skipn skip s.
Proof.
  intros Hr. induction s as [|c s IH]; intros skip i b Hskip.
  - simpl in Hskip. replace skip with 0 by lia. simpl.
    destruct (match_at ml r i b []) as [[e g]|] eqn:E; [|reflexivity].
    destruct (Hr _ _ _ _ _ E) as (w & t & Hs & _ & Hg).
    symmetry in Hs. apply app_eq_nil in Hs as [-> _].
    simpl. now rewrite Hg.
  - destruct skip as [|n]; cbn [split_from skipn].
    + destruct (match_at ml r i b (c :: s)) as [[e g]|] eqn:E.
      * destruct (Hr _ _ _ _ _ E) as (w & t & Hs & -> & Hg).
        destruct w as [|c' w].
        -- simpl in Hs. subst t.
           replace (i + List.length (@nil N) <=? i) with true
             by (symmetry; apply Nat.leb_le; simpl; lia).
           specialize (IH 0 (S i) (Some c) ltac:(lia)).
           destruct (split_from ml r 0 (S i) (Some c) s) as [p ps].
           simpl in *. rewrite Hg. simpl. now rewrite IH.
        -- injection Hs as <- ->.
           replace (i + List.length (c :: w) <=? i) with false
             by (symmetry; apply Nat.leb_gt; simpl; lia).
           replace (i + List.length (c :: w) - i - 1) with (List.length w)
             by (simpl; lia).
           specialize (IH (List.length w) (S i) (Some c)
                         ltac:(rewrite length_app; lia)).
           destruct (split_from ml r (List.length w) (S i) (Some c) (w ++ t))
             as [p ps].
           simpl in *. rewrite Hg, IH.
           rewrite skipn_app, skipn_all, Nat.sub_diag. simpl.
           reflexivity.
      * specialize (IH 0 (S i) (Some c) ltac:(lia)).
        destruct (split_from ml r 0 (S i) (Some c) s) as [p ps].
        simpl in *. now rewrite IH.
    + apply IH. simpl in Hskip. lia.
Qed.

Lemma re_split_concat content :
  List.concat (re_split true HEADING content) = content.
Proof.
  unfold re_split.
  pose proof (split_from_concat true HEADING content HEADING_whole 0 0 None
                ltac:(lia)) as H.
  destruct (split_from true HEADING 0 0 None content) as [p ps].
  exact H.
Qed.

Lemma concat_pairs parts :
  flat_map (fun section => fst section ++ snd section) (pairs parts) =
  List.concat parts.
Proof.
  induction parts as [|h|h b l IH] using pairs_ind; simpl.
  - reflexivity.
  - now rewrite !app_nil_r.
  - now rewrite IH, app_assoc.
Qed.

(** The content is what comes before the first heading and then, in
    their order, the heading lines with the texts behind them. *)
Lemma content_sections content :
  content =
  hd [] (re_split true HEADING content)
  ++ flat_map (fun section => fst section ++ snd section) (sections content).
Proof.
  unfold sections. rewrite concat_pairs.
  rewrite <- (re_split_concat content) at 1.
  unfold re_split. now destruct (split_from true HEADING 0 0 None content).
Qed.

(** ** The block of a body *)

(** Substitution makes no text empty when the template has text. *)
Lemma re_sub_nonempty ml r repl s :
  (forall g, expand repl g <> []) -> s <> [] -> re_sub ml r repl s <> [].
Proof.
  intros Hrepl Hs. destruct s as [|c s]; [congruence|].
  unfold re_sub. cbn [sub_from].
  destruct (match_at ml r 0 None (c :: s)) as [[e g]|]; [|discriminate].
  intros H. apply app_eq_nil in H as [H _]. now apply (Hrepl g).
Qed.

Lemma resolved_nonempty s : s <> [] -> process_inline_formatting s <> [].
Proof.
  intros Hs. unfold process_inline_formatting.
  repeat apply re_sub_nonempty; try assumption; intros g; discriminate.
Qed.

Lemma body_block_empty body : strip body = [] -> body_block body = [].
Proof. unfold body_block. now intros ->. Qed.

Lemma body_block_one body :
  strip body <> [] -> exists block, body_block body = [block].
Proof.
  intros H. apply resolved_nonempty in H. unfold body_block.
  destruct (first_nonblank (splitlines (process_inline_formatting (strip body))))
    as [line|].
  - destruct (has_bullet_marker line); eauto.
  - destruct (process_inline_formatting (strip body)); [congruence|].
    simpl. eauto.
Qed.


(** ** The first line decides *)

(** The first line of a text is what stands before its first "\n". *)
Lemma splitlines_first line rest :
  forallb (fun c => negb (islinebreak c)) line = true ->
  splitlines (line ++ NL :: rest) = line :: splitlines rest.
Proof.
  induction line as [|c line IH]; intros H.
  - simpl. now destruct rest.
  - simpl in H. apply andb_prop in H as [Hc H].
    apply negb_true_iff in Hc. cbn [app splitlines]. rewrite Hc.
    now rewrite IH.
Qed.

Lemma first_nonblank_skips blanks line rest :
  forallb (fun l => negb (nonempty (strip l))) blanks = true ->
  nonempty (strip line) = true ->
  first_nonblank (blanks ++ line :: rest) = Some line.
Proof.
  induction blanks as [|l ls IH]; intros Hb Hl; simpl.
  - now rewrite Hl.
  - simpl in Hb. apply andb_prop in Hb as [H Hb].
    apply negb_true_iff in H. rewrite H. now apply IH.
Qed.

(** The block of a body whose resolved text starts with the line [line]. *)
Lemma body_block_first_line body line rest :
  process_inline_formatting (strip body) = line ++ NL :: rest ->
  forallb (fun c => negb (islinebreak c)) line = true ->
  nonempty (strip line) = true ->
  body_block body =
  if has_bullet_marker line
  then [ListFlowable (bullet_items_of (line ++ NL :: rest)) "bullet" 20]
  else [Paragraph (line ++ NL :: rest) body_style].
Proof.
  intros Hsc Hline Hne. unfold body_block. rewrite Hsc.
  rewrite splitlines_first by assumption.
  cbn [first_nonblank]. now rewrite Hne.
Qed.


(** ** Heading lines *)

Section ScanSplit.
Variables (ml : bool) (r : regex).

Lemma split_from_skip w : forall t i b,
  split_from ml r (List.length w) i b (w ++ t) =
  split_from ml r 0 (i + List.length w) (lastb b w) t.
Proof.
  induction w as [|c w IH]; intros t i b; simpl.
  - now rewrite Nat.add_0_r.
  - now rewrite IH, Nat.add_succ_r.
Qed.

(** Text in which no match starts goes to the part being collected. *)
Lemma split_from_copy w : forall t i b,
  (forall w1 w2, w = w1 ++ w2 -> w2 <> [] ->
     match_at ml r (i + List.length w1) (lastb b w1) (w2 ++ t) = None) ->
  split_from ml r 0 i b (w ++ t) =
  (w ++ fst (split_from ml r 0 (i + List.length w) (lastb b w) t),
   snd (split_from ml r 0 (i + List.length w) (lastb b w) t)).
Proof.
  induction w as [|c w IH]; intros t i b H.
  - simpl. rewrite Nat.add_0_r. now destruct (split_from ml r 0 i b t).
  - pose proof (H [] (c :: w) eq_refl ltac:(discriminate)) as H0.
    simpl in H0. rewrite Nat.add_0_r in H0.
    cbn [app split_from]. rewrite H0.
    rewrite IH.
    + simpl. now rewrite Nat.add_succ_r.
    + intros w1 w2 -> Hne. specialize (H (c :: w1) w2 eq_refl Hne).
      simpl in H. now rewrite Nat.add_succ_r in H.
Qed.

(** A match closes the part being collected and opens the next one. *)
Lemma split_from_match w t i b g :
  w <> [] ->
  match_at ml r i b (w ++ t) = Some (i + List.length w, g) ->
  split_from ml r 0 i b (w ++ t) =
  ([], group g 1
       :: fst (split_from ml r 0 (i + List.length w) (lastb b w) t)
       :: snd (split_from ml r 0 (i + List.length w) (lastb b w) t)).
Proof.
  destruct w as [|c w]; [congruence|]. intros _ H.
  cbn [app split_from]. cbn [app] in H. rewrite H.
  replace (i + List.length (c :: w) <=? i) with false
    by (symmetry; apply Nat.leb_gt; simpl; lia).
  replace (i + List.length (c :: w) - i - 1) with (List.length w)
    by (simpl; lia).
  rewrite split_from_skip. simpl. rewrite Nat.add_succ_r.
  now destruct (split_from ml r 0 (S (i + List.length w))
                  (lastb (Some c) w) t).
Qed.
End ScanSplit.

Lemma HEADING_none i b s :
  at_bol true b && marker_line s = false ->
  match_at true HEADING i b s = None.
Proof.
  intros H. destruct (match_at true HEADING i b s) as [[e g]|] eqn:E;
    [|reflexivity].
  apply HEADING_inv in E as (ws & x & t & -> & Hb & _).
  rewrite Hb in H. discriminate.
Qed.

(** A marker line with heading text is a match of the heading pattern,
    from its "##" to its end. *)
Lemma HEADING_line i b line tail :
  at_bol true b = true -> marker_line line = true ->
  forallb dot line = true -> has_text line = true ->
  match tail with [] => true | c :: _ => (c =? NL)%N end = true ->
  match_at true HEADING i b (line ++ tail) =
  Some (i + List.length line, [(1, line)]).
Proof.
  intros Hb Hm Hd Ht Htail.
  apply starts_with_hashes in Hm as [rest ->].
  unfold has_text in Ht. cbn [skipn] in Ht. simpl in Hd.
  unfold match_at, HEADING, lit. cbn [m]. rewrite Hb.
  cbn [app one]. simpl N_of_ascii. unfold char. rewrite !N.eqb_refl.
  unfold rep.
  assert (Hrest : exists c x, lstrip_by isspace rest = c :: x /\
                              isspace c = false).
  { clear Hd. induction rest as [|c rest IH]; [discriminate|].
    simpl in Ht. simpl. destruct (isspace c) eqn:Hc.
    - simpl in Ht. now apply IH.
    - eauto. }
  destruct Hrest as (c & x & Hx & Hc).
  pose proof (take_lstrip isspace rest) as Hsplit. rewrite Hx in Hsplit.
  assert (Hdx : dot c = true /\ forallb dot x = true).
  { rewrite Hsplit, forallb_app in Hd. apply andb_prop in Hd as [_ Hd].
    simpl in Hd. now apply andb_prop in Hd. }
  destruct Hdx as [Hdc Hdx].
  rewrite Hsplit at 1. rewrite <- app_assoc.
  apply rep_greedy_all.
  - apply take_by_all.
  - cbn [app one]. rewrite Hdc.
    apply rep_greedy_all; [assumption| |].
    + replace (at_eol true tail) with true
        by (destruct tail; [reflexivity|]; simpl in *;
            now rewrite Htail).
      f_equal. f_equal.
      * rewrite Hsplit at 2. cbn [List.length].
        rewrite !length_app. cbn [List.length]. lia.
      * f_equal. f_equal.
        replace (HASH :: HASH :: take_by isspace rest ++ c :: x ++ tail)
          with ((HASH :: HASH :: rest) ++ tail)
          by (rewrite Hsplit at 1; simpl; now rewrite <- app_assoc).
        apply (firstn_len _ (HASH :: HASH :: rest) tail).
        rewrite Hsplit at 2. cbn [List.length].
        rewrite !length_app. cbn [List.length]. lia.
    + destruct tail as [|d tail]; [reflexivity|].
      apply N.eqb_eq in Htail. subst d. reflexivity.
  - cbn [app]. now rewrite Hc.
Qed.

Lemma marker_line_app l tail :
  match tail with [] => true | c :: _ => (c =? NL)%N end = true ->
  marker_line (l ++ tail) = marker_line l.
Proof.
  intros Ht. unfold marker_line.
  destruct l as [|c1 [|c2 l]]; simpl.
  - destruct tail as [|d [|d' tail]]; simpl; try reflexivity;
      apply N.eqb_eq in Ht; subst d; reflexivity.
  - destruct tail as [|d tail]; simpl; [reflexivity|].
    apply N.eqb_eq in Ht. subst d. simpl. now rewrite andb_false_r.
  - reflexivity.
Qed.

Lemma lastb_some b w :
  w <> [] -> exists c, lastb b w = Some c /\ In c w.
Proof.
  revert b. induction w as [|c w IH]; intros b H; [congruence|].
  destruct w as [|d w].
  - exists c. simpl. auto.
  - destruct (IH (Some c) ltac:(discriminate)) as (x & Hx & Hin).
    exists x. split; [exact Hx|]. now right.
Qed.

Lemma at_bol_inside b w :
  w <> [] -> forallb dot w = true -> at_bol true (lastb b w) = false.
Proof.
  intros Hne Hd. destruct (lastb_some b w Hne) as (c & -> & Hin).
  simpl. rewrite forallb_forall in Hd. specialize (Hd c Hin).
  unfold dot, except in Hd. now apply negb_true_iff in Hd.
Qed.

(** No heading starts inside a line, nor at a line without marker. *)
Lemma no_heading_in_line i b l tail w1 w2 :
  forallb dot l = true -> marker_line l = false ->
  match tail with [] => true | c :: _ => (c =? NL)%N end = true ->
  l = w1 ++ w2 ->
  match_at true HEADING (i + List.length w1) (lastb b w1) (w2 ++ tail) = None.
Proof.
  intros Hd Hm Ht ->. apply HEADING_none.
  destruct w1 as [|c w1].
  - simpl in *. rewrite marker_line_app by assumption.
    rewrite Hm. apply andb_false_r.
  - rewrite at_bol_inside; [reflexivity|discriminate|].
    rewrite forallb_app in Hd. now apply andb_prop in Hd as [Hd _].
Qed.

Lemma text_until_lead lines :
  lines <> [] -> text_until lines = NL :: lead_of lines.
Proof.
  destruct lines as [|l ls]; [congruence|]. intros _. simpl.
  now destruct (marker_line l).
Qed.

Lemma split_from_end i b : split_from true HEADING 0 i b [] = ([], []).
Proof.
  cbn [split_from]. now rewrite HEADING_none by apply andb_false_r.
Qed.

(** The split of a content, line by line: where every marker line has
    heading text, the parts are the text before the first marker line
    and then the marker lines, each with the text up to the next. *)
Lemma split_lines ls : forall l i b,
  at_bol true b = true ->
  forallb (forallb dot) (l :: ls) = true ->
  forallb (fun l => implb (marker_line l) (has_text l)) (l :: ls) = true ->
  split_from true HEADING 0 i b (join_nl (l :: ls)) =
  (lead_of (l :: ls), unpairs (sections_of_lines (l :: ls))).
Proof.
  induction ls as [|l' ls IH]; intros l i b Hb Hd Ht;
    cbn [forallb] in Hd, Ht;
    apply andb_prop in Hd as [Hdl Hd]; apply andb_prop in Ht as [Htl Ht].
  - cbn [join_nl lead_of sections_of_lines text_until].
    rewrite <- (app_nil_r l) at 1.
    destruct (marker_line l) eqn:Hm.
    + simpl in Htl.
      rewrite (split_from_match true HEADING l [] i b [(1, l)]).
      * now rewrite split_from_end.
      * apply starts_with_hashes in Hm as [x ->]. discriminate.
      * now apply HEADING_line.
    + rewrite split_from_copy.
      * rewrite split_from_end. reflexivity.
      * intros w1 w2 E _. now apply no_heading_in_line with (l := l).
  - change (join_nl (l :: l' :: ls)) with (l ++ NL :: join_nl (l' :: ls)).
    cbn [lead_of sections_of_lines].
    rewrite (text_until_lead (l' :: ls)) by discriminate.
    specialize (IH l').
    destruct (marker_line l) eqn:Hm.
    + simpl in Htl.
      rewrite (split_from_match true HEADING l _ i b [(1, l)]).
      * cbn [split_from].
        rewrite HEADING_none.
        -- rewrite IH by (cbn [forallb]; auto).
           reflexivity.
        -- rewrite at_bol_inside; [reflexivity| |assumption].
           apply starts_with_hashes in Hm as [x ->]. discriminate.
      * apply starts_with_hashes in Hm as [x ->]. discriminate.
      * now apply HEADING_line.
    + rewrite split_from_copy.
      * cbn [split_from].
        rewrite HEADING_none
          by (unfold marker_line; simpl; apply andb_false_r).
        rewrite IH by (cbn [forallb]; auto).
        reflexivity.
      * intros w1 w2 E _. now apply no_heading_in_line with (l := l).
Qed.

Lemma split_nl_cons s : exists l ls, split_nl s = l :: ls.
Proof.
  induction s as [|c s (l & ls & IH)]; simpl; [eauto|].
  destruct (c =? NL)%N; [eauto|]. rewrite IH. eauto.
Qed.

Lemma join_split s : join_nl (split_nl s) = s.
Proof.
  induction s as [|c s IH]; [reflexivity|]. simpl.
  destruct (split_nl_cons s) as (l & ls & E). rewrite E in *.
  destruct (N.eqb_spec c NL) as [->|Hc].
  - change (join_nl ([] :: l :: ls)) with (NL :: join_nl (l :: ls)).
    now rewrite IH.
  - destruct ls; simpl in *; now rewrite <- IH.
Qed.

Lemma split_nl_lines s : forallb (forallb dot) (split_nl s) = true.
Proof.
  induction s as [|c s IH]; [reflexivity|]. simpl.
  destruct (split_nl_cons s) as (l & ls & E). rewrite E in *.
  destruct (c =? NL)%N eqn:Hc; [exact IH|].
  simpl in *. unfold dot at 1, except. now rewrite Hc.
Qed.

Lemma pairs_unpairs sections : pairs (unpairs sections) = sections.
Proof.
  induction sections as [|[h b] l IH]; [reflexivity|].
  simpl. now rewrite IH.
Qed.

(** Where every marker line has heading text, the sections are the
    marker lines, each with the text up to the next one. *)
Lemma sections_lines content :
  headings_have_text content = true ->
  re_split true HEADING content =
    lead_of (split_nl content)
    :: unpairs (sections_of_lines (split_nl content)) /\
  sections content = sections_of_lines (split_nl content).
Proof.
  unfold headings_have_text, sections, re_split. intros H.
  pose proof (join_split content) as J.
  pose proof (split_nl_lines content) as Hd.
  destruct (split_nl_cons content) as (l & ls & E). rewrite E in *.
  rewrite <- J. rewrite split_lines by auto. cbn [tl].
  split; [reflexivity|]. now rewrite pairs_unpairs.
Qed.

Lemma sections_of_lines_fst lines :
  map fst (sections_of_lines lines) = filter marker_line lines.
Proof.
  induction lines as [|l ls IH]; [reflexivity|]. simpl.
  destruct (marker_line l); simpl; now rewrite IH.
Qed.

(** C2, as the program has it.  In a content in which every line that
    starts with "##" has heading text behind the marker, on that line,
    each such line starts a section: the heading lines of the sections
    are those lines, in their order, each with the text up to the next
    one as its body, and what stands before the first of them is in no
    section.  "stray text\n## Only\nBody" has one section, with the
    heading "Only" and the body "Body". *)
Theorem C2_marker_lines_with_text_start_sections (content : pystr) :
  headings_have_text content = true ->
  sections content = sections_of_lines (split_nl content) /\
  map fst (sections content) = filter marker_line (split_nl content) /\
  List.length (sections content) = marker_lines content /\
  hd [] (re_split true HEADING content) = lead_of (split_nl content) /\
  (forall sp,
     elements_of content sp =
     flat_map (section_block sp) (sections_of_lines (split_nl content))) /\
  sections (L "stray text" ++ [NL] ++ L "## Only" ++ [NL] ++ L "Body") =
    [(L "## Only", [NL] ++ L "Body")] /\
  (forall sp,
     elements_of (L "stray text" ++ [NL] ++ L "## Only" ++ [NL] ++ L "Body") sp
     = [Paragraph (L "Only") heading_style; Spacer 1 sp;
        Paragraph (L "Body") body_style; Spacer 1 12]).
Proof.
  intros H. destruct (sections_lines content H) as [Hsplit Hsec].
  split; [exact Hsec|]. split; [|split; [|split; [|split; [|split]]]].
  - rewrite Hsec. apply sections_of_lines_fst.
  - unfold marker_lines. rewrite <- sections_of_lines_fst, length_map.
    now rewrite Hsec.
  - now rewrite Hsplit.
  - intros sp. rewrite elements_blocks. now rewrite Hsec.
  - reflexivity.
  - reflexivity.
Qed.

Lemma C2_marker_lines_with_text_start_sections_witness :
  sections (L "stray text" ++ [NL] ++ L "## Only" ++ [NL] ++ L "Body") =
  sections_of_lines
    (split_nl (L "stray text" ++ [NL] ++ L "## Only" ++ [NL] ++ L "Body")).
Proof.
  apply (C2_marker_lines_with_text_start_sections
           (L "stray text" ++ [NL] ++ L "## Only" ++ [NL] ++ L "Body")).
  reflexivity.
Defined.

(** A line that is "##" and nothing else starts with the heading marker
    and starts no section; and when such a line is followed by another
    marker line, the two make one section, whose heading keeps a "##". *)
Lemma C2_counterexample :
  marker_lines (L "##") = 1 /\ sections (L "##") = [] /\
  marker_lines (L "##" ++ [NL] ++ L "## B") = 2 /\
  sections (L "##" ++ [NL] ++ L "## B") = [(L "##" ++ [NL] ++ L "## B", [])] /\
  elements_of (L "##" ++ [NL] ++ L "## B") 24 =
    [Paragraph (L "## B") heading_style; Spacer 1 24; Spacer 1 12].
Proof. repeat split; reflexivity. Qed.

(** ** Resolution and lines *)

Section LazySim.
Variable A : Type.

(** Two lazy repetitions whose continuations answer alike along a text
    answer alike, when behind the text the first one finds nothing. *)
Lemma rep_lazy_sim p (k k' : cont A) (f : A -> A) w tail g g' :
  match tail with
  | [] => True
  | c :: t => p c = true -> forall j bj, rep_lazy p k j bj t g = None
  end ->
  forall i b i' b',
  (forall w1 w2, w = w1 ++ w2 ->
     k (i + List.length w1) (lastb b w1) (w2 ++ tail) g =
     option_map f (k' (i' + List.length w1) (lastb b' w1) w2 g')) ->
  rep_lazy p k i b (w ++ tail) g = option_map f (rep_lazy p k' i' b' w g').
Proof.
  intros Hend. induction w as [|c w IH]; intros i b i' b' Hk.
  - pose proof (Hk [] [] eq_refl) as H0. simpl in H0.
    rewrite !Nat.add_0_r in H0. cbn [app rep_lazy].
    destruct tail as [|d tail]; cbn [rep_lazy]; rewrite H0;
      destruct (k' i' b' [] g'); try reflexivity.
    cbn [option_map]. destruct (p d); [now apply Hend|reflexivity].
  - pose proof (Hk [] (c :: w) eq_refl) as H0. simpl in H0.
    rewrite !Nat.add_0_r in H0. cbn [app rep_lazy]. rewrite H0.
    destruct (k' i' b' (c :: w) g'); [reflexivity|]. cbn [option_map].
    destruct (p c); [|reflexivity].
    apply IH. intros w1 w2 ->.
    specialize (Hk (c :: w1) w2 eq_refl). simpl in Hk.
    now rewrite !Nat.add_succ_r in Hk.
Qed.

Lemma blocked_end p (k : cont A) tail g :
  blocked tail = true -> p NL = false ->
  match tail with
  | [] => True
  | c :: t => p c = true -> forall j bj, rep_lazy p k j bj t g = None
  end.
Proof.
  intros Ht Hp. destruct tail as [|d t]; [exact I|].
  simpl in Ht. apply N.eqb_eq in Ht. subst d. congruence.
Qed.

(** A lazy repetition whose continuation wants a "*" finds nothing in a
    text without "*". *)
Lemma rep_lazy_starfree p (k : cont A) s g : forall i b,
  (forall i b t g,
     match t with [] => true | c :: _ => except STAR c end = true ->
     k i b t g = None) ->
  forallb (except STAR) s = true ->
  rep_lazy p k i b s g = None.
Proof.
  intros i b Hk Hs. apply rep_lazy_none. intros w t ->.
  rewrite forallb_app in Hs. apply andb_prop in Hs as [_ Hs].
  apply Hk. destruct t as [|c t]; [reflexivity|]. simpl in Hs.
  now apply andb_prop in Hs as [Hc _].
Qed.

Lemma starfree_one (k : cont A) i b tail g :
  forallb (except STAR) tail = true -> one (char STAR) k i b tail g = None.
Proof.
  intros Hs. destruct tail as [|c t]; [reflexivity|]. simpl in Hs.
  apply andb_prop in Hs as [Hc _]. unfold one.
  now rewrite (except_char _ _ Hc).
Qed.

Lemma head_one (k : cont A) i b t g :
  match t with [] => true | c :: _ => except STAR c end = true ->
  one (char STAR) k i b t g = None.
Proof.
  intros H. destruct t as [|c t]; [reflexivity|]. unfold one.
  now rewrite (except_char _ _ H).
Qed.
End LazySim.

Lemma blocked_one (A : Type) p (k : cont A) i b tail g :
  blocked tail = true -> p NL = false -> one p k i b tail g = None.
Proof.
  intros Ht Hp. destruct tail as [|d tail]; [reflexivity|].
  simpl in Ht. apply N.eqb_eq in Ht. subst d. unfold one. now rewrite Hp.
Qed.

Lemma ITALIC_local ml : line_local ml ITALIC.
Proof.
  intros i b u tail Ht. unfold match_at, ITALIC, lit. cbn [m].
  simpl N_of_ascii.
  destruct u as [|c1 u]; [now rewrite blocked_one|].
  cbn [app]. unfold one at 1 4. destruct (char STAR c1); [|reflexivity].
  destruct u as [|c u]; [cbn [app]; now rewrite blocked_one|].
  cbn [app]. unfold one at 1 3. destruct (dot c); [|reflexivity].
  unfold rep. apply rep_lazy_sim; [now apply blocked_end|].
  intros w1 w2 ->.
  destruct w2 as [|d w2]; [cbn [app]; now rewrite blocked_one|].
  cbn [app]. unfold one. destruct (char STAR d); [|reflexivity].
  unfold shift. cbn [option_map fst snd].
  rewrite <- !app_assoc, !app_comm_cons.
  rewrite !firstn_len by (cbn [List.length]; lia).
  f_equal. f_equal. lia.
Qed.

Lemma BOLD_local ml : line_local ml BOLD.
Proof.
  intros i b u tail Ht. unfold match_at, BOLD, lit. cbn [m].
  simpl N_of_ascii.
  destruct u as [|c1 u]; [now rewrite blocked_one|].
  cbn [app]. unfold one at 1 6. destruct (char STAR c1); [|reflexivity].
  destruct u as [|c2 u]; [cbn [app]; now rewrite blocked_one|].
  cbn [app]. unfold one at 1 5. destruct (char STAR c2); [|reflexivity].
  destruct u as [|c u]; [cbn [app]; now rewrite blocked_one|].
  cbn [app]. unfold one at 1 4. destruct (dot c); [|reflexivity].
  unfold rep. apply rep_lazy_sim; [now apply blocked_end|].
  intros w1 w2 ->.
  destruct w2 as [|d w2]; [cbn [app]; now rewrite blocked_one|].
  cbn [app]. unfold one at 1 3. destruct (char STAR d); [|reflexivity].
  destruct w2 as [|d' w2]; [cbn [app]; now rewrite blocked_one|].
  cbn [app]. unfold one. destruct (char STAR d'); [|reflexivity].
  unfold shift. cbn [option_map fst snd].
  rewrite <- !app_assoc, !app_comm_cons.
  rewrite !firstn_len by (cbn [List.length]; lia).
  f_equal. f_equal. lia.
Qed.

Ltac wants_star :=
  let H := fresh in
  intros ? ? [|? ?] ? H; [reflexivity|];
  cbv beta; unfold one; now rewrite (except_char _ _ H).

(** Nor does a text without "*" behind it change what the italic or the
    bold pattern matches. *)
Lemma ITALIC_tail ml : tail_local ml ITALIC.
Proof.
  intros i b u tail Ht. unfold match_at, ITALIC, lit. cbn [m].
  simpl N_of_ascii.
  destruct u as [|c1 u]; [now rewrite starfree_one|].
  cbn [app]. unfold one at 1 4. destruct (char STAR c1); [|reflexivity].
  unfold rep.
  destruct u as [|c u].
  - cbn [app one option_map]. destruct tail as [|d t]; [reflexivity|].
    simpl in Ht. apply andb_prop in Ht as [_ Ht].
    unfold one. destruct (dot d); [|reflexivity].
    apply rep_lazy_starfree; [|assumption]. wants_star.
  - cbn [app]. unfold one at 1 3. destruct (dot c); [|reflexivity].
    apply rep_lazy_sim.
    + destruct tail as [|d t]; [exact I|]. intros _ j bj.
      simpl in Ht. apply andb_prop in Ht as [_ Ht].
      apply rep_lazy_starfree; [|assumption]. wants_star.
    + intros w1 w2 ->.
      destruct w2 as [|d w2]; [cbn [app]; now rewrite starfree_one|].
      cbn [app]. unfold one. destruct (char STAR d); [|reflexivity].
      unfold shift. cbn [option_map fst snd].
      rewrite <- !app_assoc, !app_comm_cons.
      rewrite !firstn_len by (cbn [List.length]; lia).
      f_equal. f_equal. lia.
Qed.

Lemma BOLD_tail ml : tail_local ml BOLD.
Proof.
  intros i b u tail Ht. unfold match_at, BOLD, lit. cbn [m].
  simpl N_of_ascii.
  destruct u as [|c1 u]; [now rewrite starfree_one|].
  cbn [app]. unfold one at 1 6. destruct (char STAR c1); [|reflexivity].
  destruct u as [|c2 u]; [cbn [app]; now rewrite starfree_one|].
  cbn [app]. unfold one at 1 5. destruct (char STAR c2); [|reflexivity].
  unfold rep.
  destruct u as [|c u].
  - cbn [app one option_map]. destruct tail as [|d t]; [reflexivity|].
    simpl in Ht. apply andb_prop in Ht as [_ Ht].
    unfold one. destruct (dot d); [|reflexivity].
    apply rep_lazy_starfree; [|assumption]. wants_star.
  - cbn [app]. unfold one at 1 4. destruct (dot c); [|reflexivity].
    apply rep_lazy_sim.
    + destruct tail as [|d t]; [exact I|]. intros _ j bj.
      simpl in Ht. apply andb_prop in Ht as [_ Ht].
      apply rep_lazy_starfree; [|assumption]. wants_star.
    + intros w1 w2 ->.
      destruct w2 as [|d w2]; [cbn [app]; now rewrite starfree_one|].
      cbn [app]. unfold one at 1 3. destruct (char STAR d); [|reflexivity].
      destruct w2 as [|d' w2]; [cbn [app]; now rewrite starfree_one|].
      cbn [app]. unfold one. destruct (char STAR d'); [|reflexivity].
      unfold shift. cbn [option_map fst snd].
      rewrite <- !app_assoc, !app_comm_cons.
      rewrite !firstn_len by (cbn [List.length]; lia).
      f_equal. f_equal. lia.
Qed.

Lemma BOLD_proper ml : proper_match ml BOLD.
Proof.
  intros s e g H. apply BOLD_inv in H as (x & t & -> & _ & _ & -> & _).
  simpl. rewrite length_app. simpl. lia.
Qed.

Lemma ITALIC_proper ml : proper_match ml ITALIC.
Proof.
  intros s e g H. apply ITALIC_inv in H as (x & t & -> & _ & _ & -> & _).
  simpl. rewrite length_app. simpl. lia.
Qed.

Section SubLines.
Variables (ml : bool) (r : regex) (repl : list piece).
Hypothesis Hlocal : line_local ml r.
Hypothesis Hproper : proper_match ml r.

Lemma local_at i b s :
  match_at ml r i b s = option_map (shift i) (match_at ml r 0 None s).
Proof.
  rewrite <- (app_nil_r s) at 1. now apply Hlocal.
Qed.

Lemma local_none_at_end i b tail :
  blocked tail = true -> match_at ml r i b tail = None.
Proof.
  intros Ht. pose proof (Hlocal i b [] tail Ht) as H. cbn [app] in H.
  rewrite H.
  destruct (match_at ml r 0 None []) as [[e g]|] eqn:E; [|reflexivity].
  apply Hproper in E. simpl in E. lia.
Qed.

(** The substitution does not depend on where the text stands. *)
Lemma sub_from_anywhere s : forall skip i b i' b',
  skip <= List.length s ->
  sub_from ml r repl skip i b s = sub_from ml r repl skip i' b' s.
Proof.
  induction s as [|c s IH]; intros skip i b i' b' Hskip.
  - simpl in Hskip. replace skip with 0 by lia. cbn [sub_from].
    now rewrite !local_none_at_end.
  - destruct skip as [|n]; cbn [sub_from].
    + rewrite (local_at i b), (local_at i' b').
      destruct (match_at ml r 0 None (c :: s)) as [[e g]|] eqn:E;
        cbn [option_map shift fst snd].
      * apply Hproper in E. cbn [List.length] in E.
        replace (i + e <=? i) with false by (symmetry; apply Nat.leb_gt; lia).
        replace (i' + e <=? i') with false
          by (symmetry; apply Nat.leb_gt; lia).
        f_equal. replace (i + e - i - 1) with (e - 1) by lia.
        replace (i' + e - i' - 1) with (e - 1) by lia.
        apply IH. lia.
      * f_equal. apply IH. lia.
    + apply IH. simpl in Hskip. lia.
Qed.

(** The substitution goes line by line. *)
Lemma sub_from_lines u v : forall skip i b,
  skip <= List.length u ->
  sub_from ml r repl skip i b (u ++ NL :: v) =
  sub_from ml r repl skip i b u ++ NL :: re_sub ml r repl v.
Proof.
  induction u as [|c u IH]; intros skip i b Hskip.
  - simpl in Hskip. replace skip with 0 by lia. cbn [app sub_from].
    rewrite !local_none_at_end by reflexivity. cbn [app]. f_equal.
    unfold re_sub. apply sub_from_anywhere. lia.
  - destruct skip as [|n]; cbn [app sub_from].
    + pose proof (Hlocal i b (c :: u) (NL :: v) eq_refl) as H.
      cbn [app] in H. rewrite H, (local_at i b).
      destruct (match_at ml r 0 None (c :: u)) as [[e g]|] eqn:E;
        cbn [option_map shift fst snd].
      * apply Hproper in E. cbn [List.length] in E.
        replace (i + e <=? i) with false by (symmetry; apply Nat.leb_gt; lia).
        rewrite <- app_assoc. f_equal. apply IH. lia.
      * cbn [app]. f_equal. apply IH. lia.
    + apply IH. simpl in Hskip. lia.
Qed.

Lemma re_sub_lines u v :
  re_sub ml r repl (u ++ NL :: v) =
  re_sub ml r repl u ++ NL :: re_sub ml r repl v.
Proof. unfold re_sub at 1 2. apply sub_from_lines. lia. Qed.
End SubLines.

(** Bold and italic are resolved line by line. *)
Lemma bold_lines u v :
  re_sub false BOLD BOLD_REPL (u ++ NL :: v) =
  re_sub false BOLD BOLD_REPL u ++ NL :: re_sub false BOLD BOLD_REPL v.
Proof. apply re_sub_lines; [apply BOLD_local|apply BOLD_proper]. Qed.

Lemma italic_lines u v :
  re_sub false ITALIC ITALIC_REPL (u ++ NL :: v) =
  re_sub false ITALIC ITALIC_REPL u ++ NL :: re_sub false ITALIC ITALIC_REPL v.
Proof. apply re_sub_lines; [apply ITALIC_local|apply ITALIC_proper]. Qed.

(** A substitution whose template brings no character of a kind puts
    none into a text that has none. *)
Lemma sub_from_keeps (q : N -> bool) ml r repl s : forall skip i b,
  (forall i b s e g, match_at ml r i b s = Some (e, g) ->
     forallb q s = true -> forallb q (expand repl g) = true) ->
  forallb q s = true ->
  forallb q (sub_from ml r repl skip i b s) = true.
Proof.
  induction s as [|c s IH]; intros skip i b Hq Hs.
  - cbn [sub_from]. destruct skip; [|reflexivity].
    destruct (match_at ml r i b []) as [[e g]|] eqn:E; [|reflexivity].
    now apply (Hq _ _ _ _ _ E).
  - pose proof Hs as Hs'. simpl in Hs'. apply andb_prop in Hs' as [Hc Hs'].
    destruct skip as [|n]; cbn [sub_from]; [|now apply IH].
    destruct (match_at ml r i b (c :: s)) as [[e g]|] eqn:E.
    + rewrite forallb_app, (Hq _ _ _ _ _ E Hs). cbn [andb].
      destruct (e <=? i); [simpl; rewrite Hc|]; now apply IH.
    + simpl. rewrite Hc. now apply IH.
Qed.

Lemma bold_keeps_no_bracket s :
  forallb (except LBRA) s = true ->
  forallb (except LBRA) (re_sub false BOLD BOLD_REPL s) = true.
Proof.
  apply sub_from_keeps. intros i b s0 e g H Hs.
  apply BOLD_inv in H as (x & t & -> & _ & _ & _ & ->).
  simpl in Hs. rewrite forallb_app in Hs. apply andb_prop in Hs as [Hx _].
  unfold expand. simpl. now rewrite forallb_app, Hx.
Qed.

Lemma italic_keeps_no_bracket s :
  forallb (except LBRA) s = true ->
  forallb (except LBRA) (re_sub false ITALIC ITALIC_REPL s) = true.
Proof.
  apply sub_from_keeps. intros i b s0 e g H Hs.
  apply ITALIC_inv in H as (x & t & -> & _ & _ & _ & ->).
  simpl in Hs. rewrite forallb_app in Hs. apply andb_prop in Hs as [Hx _].
  unfold expand. simpl. now rewrite forallb_app, Hx.
Qed.

Lemma link_fixed_no_bracket s :
  forallb (except LBRA) s = true -> re_sub false LINK LINK_REPL s = s.
Proof.
  intros H. unfold re_sub. apply sub_from_absent.
  exact (absent_without LINK LBRA false s 0 None LINK_starts H).
Qed.

(** In a body without "[" every line is resolved on its own. *)
Lemma resolve_lines_without_links u v :
  forallb (except LBRA) (u ++ v) = true ->
  process_inline_formatting (u ++ NL :: v) =
  process_inline_formatting u ++ NL :: process_inline_formatting v.
Proof.
  intros H. rewrite forallb_app in H. apply andb_prop in H as [Hu Hv].
  unfold process_inline_formatting.
  rewrite bold_lines, italic_lines.
  pose proof (italic_keeps_no_bracket _ (bold_keeps_no_bracket _ Hu)) as Hu'.
  pose proof (italic_keeps_no_bracket _ (bold_keeps_no_bracket _ Hv)) as Hv'.
  rewrite !link_fixed_no_bracket; try assumption; [reflexivity|].
  rewrite forallb_app. simpl. now rewrite Hu', Hv'.
Qed.

Lemma bullet_items_count section_content :
  List.length (bullet_items_of section_content) =
  List.length (filter (fun line => nonempty (strip line))
                      (splitlines section_content)).
Proof.
  unfold bullet_items_of. rewrite length_map.
  induction (splitlines section_content) as [|l ls IH]; [reflexivity|].
  simpl. destruct (nonempty (strip l)); simpl; now rewrite IH.
Qed.

(** ** The marker of an item *)

Lemma rep_greedy_final p s : forall i b g,
  rep_greedy p (fun e _ _ g0 => Some (e, g0)) i b s g =
  Some (i + List.length (take_by p s), g).
Proof.
  induction s as [|c s IH]; intros i b g; simpl.
  - now rewrite Nat.add_0_r.
  - destruct (p c); simpl.
    + rewrite IH. now rewrite Nat.add_succ_r.
    + now rewrite Nat.add_0_r.
Qed.

(** The bullet pattern matches the marker of a line and the whitespace
    behind it, and nothing else. *)
Lemma BULLET_match_at i line :
  match_at false BULLET i None line =
  if has_bullet_marker line then Some (i + marker_length line, []) else None.
Proof.
  unfold match_at, BULLET, lit. cbn [m at_bol]. unfold orelse.
  destruct line as [|c s]; [reflexivity|].
  cbn [has_bullet_marker marker_length]. unfold one at 1.
  destruct (alnum c) eqn:Hc.
  - unfold rep.
    rewrite (take_lstrip alnum s) at 1.
    rewrite rep_greedy_max;
      [| apply take_by_all | apply lstrip_by_head |].
    + unfold one at 3. simpl N_of_ascii.
      rewrite (alnum_not c DASH eq_refl Hc).
      destruct (lstrip_by alnum s) as [|d t]; [reflexivity|].
      unfold one at 1. unfold char at 1. simpl N_of_ascii.
      destruct (d =? DOT)%N; [|reflexivity].
      unfold one at 1. destruct t as [|c' t']; [reflexivity|].
      cbn [andb space_next take_by]. destruct (isspace c'); [|reflexivity].
      rewrite rep_greedy_final. f_equal. f_equal. cbn [List.length]. lia.
    + intros w1 [|d w2] E Hne; [congruence|].
      cbn [app]. unfold one at 1. simpl N_of_ascii.
      assert (Hd : alnum d = true).
      { pose proof (take_by_all alnum s) as H. rewrite E in H.
        rewrite forallb_app in H. apply andb_prop in H as [_ H].
        simpl in H. now apply andb_prop in H as [H _]. }
      now rewrite (alnum_not d DOT eq_refl Hd).
  - unfold one at 1. unfold char at 1. simpl N_of_ascii.
    destruct (c =? DASH)%N; [|reflexivity].
    unfold one at 1. destruct s as [|c' t']; [reflexivity|].
    cbn [andb space_next take_by]. destruct (isspace c'); [|reflexivity].
    unfold rep. rewrite rep_greedy_final. f_equal. f_equal.
    cbn [List.length]. lia.
Qed.

Lemma BULLET_inside i c s : match_at false BULLET i (Some c) s = None.
Proof. reflexivity. Qed.

Lemma BULLET_absent_inside s : forall i c,
  occurs_from false BULLET i (Some c) s = false.
Proof.
  induction s as [|d s IH]; intros i c; cbn [occurs_from];
    rewrite BULLET_inside; [reflexivity|apply IH].
Qed.

Lemma marker_length_le line : marker_length line <= List.length line.
Proof.
  destruct line as [|c s]; [reflexivity|]. cbn [marker_length List.length].
  destruct (alnum c).
  - pose proof (take_lstrip alnum s) as E.
    destruct (lstrip_by alnum s) as [|d t]; [lia|].
    destruct ((d =? DOT)%N && space_next t); [|lia].
    apply (f_equal (@List.length N)) in E. rewrite length_app in E.
    cbn [List.length] in E.
    pose proof (take_lstrip isspace t) as E'.
    apply (f_equal (@List.length N)) in E'. rewrite length_app in E'. lia.
  - destruct ((c =? DASH)%N && space_next s); [|lia].
    pose proof (take_lstrip isspace s) as E'.
    apply (f_equal (@List.length N)) in E'. rewrite length_app in E'. lia.
Qed.

Lemma marker_length_none line :
  has_bullet_marker line = false -> marker_length line = 0.
Proof.
  destruct line as [|c s]; [reflexivity|]. cbn [has_bullet_marker marker_length].
  destruct (alnum c).
  - destruct (lstrip_by alnum s) as [|d t]; [reflexivity|]. now intros ->.
  - now intros ->.
Qed.

Lemma lastb_behind c w : exists x, lastb (Some c) w = Some x.
Proof.
  revert c. induction w as [|d w IH]; intros c; [now exists c|].
  apply (IH d).
Qed.

(** Removing the bullet pattern from a line removes its marker. *)
Lemma BULLET_sub line : re_sub false BULLET [] line = without_marker line.
Proof.
  unfold re_sub, without_marker. destruct line as [|c s]; [reflexivity|].
  cbn [sub_from]. rewrite BULLET_match_at. cbn [Nat.add].
  destruct (has_bullet_marker (c :: s)) eqn:Hm.
  - pose proof (marker_length_le (c :: s)) as Hle.
    destruct (marker_length (c :: s)) as [|n] eqn:Hn.
    + cbn [expand flat_map app Nat.leb skipn].
      now rewrite (sub_from_absent false BULLET [] s 1 (Some c)
                     (BULLET_absent_inside s 1 c)).
    + cbn [expand flat_map app Nat.leb Nat.sub skipn].
      rewrite Nat.sub_0_r. cbn [List.length] in Hle.
      rewrite <- (firstn_skipn n s) at 1.
      replace n with (List.length (firstn n s)) at 1
        by (apply firstn_length_le; lia).
      rewrite sub_from_skip.
      apply sub_from_absent.
      destruct (lastb_behind c (firstn n s)) as (x & Hx).
      rewrite Hx. apply BULLET_absent_inside.
  - rewrite (marker_length_none _ Hm). cbn [skipn]. f_equal.
    exact (sub_from_absent false BULLET [] s 1 (Some c)
             (BULLET_absent_inside s 1 c)).
Qed.

Lemma take_by_stop p w x r :
  p x = false -> take_by p (w ++ x :: r) = take_by p w.
Proof.
  intros Hx. induction w as [|c w IH]; simpl; [now rewrite Hx|].
  destruct (p c); [now rewrite IH|reflexivity].
Qed.

Lemma lstrip_by_stop p w x r :
  p x = false -> lstrip_by p (w ++ x :: r) = lstrip_by p w ++ x :: r.
Proof.
  intros Hx. induction w as [|c w IH]; simpl; [now rewrite Hx|].
  destruct (p c); [exact IH|reflexivity].
Qed.

Lemma space_next_stop w x r :
  isspace x = false -> space_next (w ++ x :: r) = space_next w.
Proof. intros Hx. destruct w; simpl; [exact Hx|reflexivity]. Qed.

(** What follows a marker does not change it. *)
Lemma marker_length_stop w x r :
  stopper x = true -> marker_length (w ++ x :: r) = marker_length w.
Proof.
  unfold stopper. intros H.
  apply andb_prop in H as [H Hdash]. apply andb_prop in H as [H Hdot].
  apply andb_prop in H as [Hal Hsp].
  apply negb_true_iff in Hal, Hsp, Hdot, Hdash.
  destruct w as [|c s]; cbn [app marker_length].
  - now rewrite Hal, Hdash.
  - destruct (alnum c).
    + rewrite lstrip_by_stop, take_by_stop by assumption.
      destruct (lstrip_by alnum s) as [|d t]; cbn [app].
      * now rewrite Hdot.
      * rewrite space_next_stop, take_by_stop by assumption. reflexivity.
    + rewrite space_next_stop, take_by_stop by assumption. reflexivity.
Qed.

Lemma without_marker_stop w x r :
  stopper x = true ->
  without_marker (w ++ x :: r) = without_marker w ++ x :: r.
Proof.
  intros H. unfold without_marker. rewrite marker_length_stop by assumption.
  pose proof (marker_length_le w) as Hle.
  rewrite skipn_app.
  replace (marker_length w - List.length w) with 0 by lia. reflexivity.
Qed.

Lemma skipn_all_true (q : N -> bool) n s :
  forallb q s = true -> forallb q (skipn n s) = true.
Proof.
  revert s. induction n as [|n IH]; intros s H; [exact H|].
  destruct s as [|c s]; [reflexivity|]. simpl in *.
  apply andb_prop in H as [_ H]. now apply IH.
Qed.

(** Resolution copies the text before the first "*" of a text without
    "[". *)
Lemma resolve_after_prefix w s :
  forallb (except STAR) w = true -> forallb (except LBRA) (w ++ s) = true ->
  process_inline_formatting (w ++ s) = w ++ process_inline_formatting s.
Proof.
  intros Hw Hl. pose proof Hl as Hl'. rewrite forallb_app in Hl'.
  apply andb_prop in Hl' as [Hwl Hsl].
  assert (Hcopy : forall r repl t,
            starts_only r STAR -> line_local false r ->
            proper_match false r ->
            re_sub false r repl (w ++ t) = w ++ re_sub false r repl t).
  { intros r repl t Hr Hloc Hprop. unfold re_sub.
    rewrite sub_from_copy.
    - f_equal. apply sub_from_anywhere; auto. lia.
    - intros w1 [|c w2] -> Hne; [congruence|].
      apply (starts_only_none r STAR _ _ _ _ Hr). simpl.
      rewrite forallb_app in Hw. apply andb_prop in Hw as [_ Hw].
      simpl in Hw. now apply andb_prop in Hw as [Hc _]. }
  unfold process_inline_formatting.
  rewrite (Hcopy BOLD BOLD_REPL s BOLD_starts (BOLD_local false)
             (BOLD_proper false)).
  rewrite (Hcopy ITALIC ITALIC_REPL _ ITALIC_starts (ITALIC_local false)
             (ITALIC_proper false)).
  pose proof (italic_keeps_no_bracket _ (bold_keeps_no_bracket _ Hsl)) as Hs'.
  rewrite !link_fixed_no_bracket; try assumption; [reflexivity|].
  rewrite forallb_app. now rewrite Hwl, Hs'.
Qed.

Lemma bold_head c s :
  exists r, re_sub false BOLD BOLD_REPL (c :: s) = c :: r \/
            re_sub false BOLD BOLD_REPL (c :: s) = 60%N :: r.
Proof.
  unfold re_sub. cbn [sub_from].
  destruct (match_at false BOLD 0 None (c :: s)) as [[e g]|].
  - eexists. right. unfold expand. simpl. reflexivity.
  - eexists. left. reflexivity.
Qed.

Lemma italic_head c s :
  exists r, re_sub false ITALIC ITALIC_REPL (c :: s) = c :: r \/
            re_sub false ITALIC ITALIC_REPL (c :: s) = 60%N :: r.
Proof.
  unfold re_sub. cbn [sub_from].
  destruct (match_at false ITALIC 0 None (c :: s)) as [[e g]|].
  - eexists. right. unfold expand. simpl. reflexivity.
  - eexists. left. reflexivity.
Qed.

(** A resolved text that started with "*" starts with "*" or "<". *)
Lemma resolve_head s :
  forallb (except LBRA) s = true ->
  exists x r, process_inline_formatting (STAR :: s) = x :: r /\
              stopper x = true.
Proof.
  intros Hl. unfold process_inline_formatting.
  pose proof (italic_keeps_no_bracket _
                (bold_keeps_no_bracket (STAR :: s) Hl)) as Hk.
  rewrite link_fixed_no_bracket by exact Hk.
  destruct (bold_head STAR s) as (r1 & [-> | ->]).
  - destruct (italic_head STAR r1) as (r2 & [-> | ->]); eauto.
  - destruct (italic_head 60%N r1) as (r2 & [-> | ->]); eauto.
Qed.

(** In a line without "[" the marker can be removed before the line is
    resolved or after it: the item is the same. *)
Lemma marker_before_or_after line :
  forallb (except LBRA) line = true ->
  re_sub false BULLET [] (process_inline_formatting line) =
  process_inline_formatting (re_sub false BULLET [] line).
Proof.
  intros Hl. rewrite !BULLET_sub.
  pose proof (take_lstrip (except STAR) line) as E.
  pose proof (take_by_all (except STAR) line) as Hw.
  pose proof (lstrip_by_head (except STAR) line) as Hh.
  set (w := take_by (except STAR) line) in *.
  destruct (lstrip_by (except STAR) line) as [|c s].
  - rewrite app_nil_r in E. rewrite E in *.
    assert (Hp : plain w = true) by (unfold plain; now rewrite Hw, Hl).
    rewrite (plain_fixed w Hp). symmetry. apply plain_fixed.
    unfold plain, without_marker. now rewrite !skipn_all_true.
  - assert (c = STAR).
    { apply negb_true_iff in Hh. unfold except in Hh.
      apply negb_false_iff in Hh. now apply N.eqb_eq in Hh. }
    subst c. rewrite E in *. clear E.
    pose proof Hl as Hl'. rewrite forallb_app in Hl'.
    apply andb_prop in Hl' as [Hwl Hsl]. simpl in Hsl.
    rewrite resolve_after_prefix by assumption.
    destruct (resolve_head s Hsl) as (x & r & Hx & Hstop).
    rewrite Hx, !without_marker_stop by (assumption || reflexivity).
    rewrite resolve_after_prefix.
    + now rewrite Hx.
    + unfold without_marker. now apply skipn_all_true.
    + rewrite forallb_app. unfold without_marker.
      rewrite skipn_all_true by assumption. exact Hsl.
Qed.

(** ** Resolution and the whitespace around a line *)

Section SubTail.
Variables (ml : bool) (r : regex) (repl : list piece).
Hypothesis Hlocal : line_local ml r.
Hypothesis Htail : tail_local ml r.
Hypothesis Hproper : proper_match ml r.
Hypothesis Hstarts : starts_only r STAR.

(** The substitution copies a text without "*" at the end. *)
Lemma sub_from_tail u t :
  forallb (except STAR) t = true -> forall skip i b,
  skip <= List.length u ->
  sub_from ml r repl skip i b (u ++ t) = sub_from ml r repl skip i b u ++ t.
Proof.
  intros Ht. induction u as [|c u IH]; intros skip i b Hskip.
  - simpl in Hskip. replace skip with 0 by lia. cbn [app].
    rewrite (sub_from_absent ml r repl t i b
               (absent_without r STAR ml t i b Hstarts Ht)).
    cbn [sub_from].
    now rewrite (local_none_at_end ml r Hlocal Hproper i b [] eq_refl).
  - destruct skip as [|n]; cbn [app sub_from].
    + pose proof (Htail i b (c :: u) t Ht) as H. cbn [app] in H.
      rewrite H, (local_at ml r Hlocal i b).
      destruct (match_at ml r 0 None (c :: u)) as [[e g]|] eqn:E;
        cbn [option_map shift fst snd].
      * apply Hproper in E. cbn [List.length] in E.
        replace (i + e <=? i) with false by (symmetry; apply Nat.leb_gt; lia).
        rewrite <- app_assoc. f_equal. apply IH. lia.
      * cbn [app]. f_equal. apply IH. lia.
    + apply IH. simpl in Hskip. lia.
Qed.

Lemma re_sub_tail u t :
  forallb (except STAR) t = true ->
  re_sub ml r repl (u ++ t) = re_sub ml r repl u ++ t.
Proof. intros Ht. unfold re_sub. apply sub_from_tail; [assumption|lia]. Qed.

Lemma starts_well_app x y :
  x <> [] -> starts_well (x ++ y) = starts_well x.
Proof. destruct x; [congruence|reflexivity]. Qed.

Lemma ends_well_app x y : y <> [] -> ends_well (x ++ y) = ends_well y.
Proof.
  intros Hy. unfold ends_well. rewrite rev_app_distr.
  apply starts_well_app. intros H. apply (f_equal (@rev N)) in H.
  rewrite rev_involutive in H. simpl in H. congruence.
Qed.

Lemma ends_well_cons c s : s <> [] -> ends_well (c :: s) = ends_well s.
Proof. intros Hs. now apply (ends_well_app [c] s). Qed.

(** The substitution keeps the end of a text free of whitespace, when
    its template ends so. *)
Lemma sub_from_ends s : forall skip i b before,
  (forall g, ends_well (expand repl g) = true /\ expand repl g <> []) ->
  ends_well s = true -> skip <= List.length s ->
  (skip = List.length s -> ends_well before = true) ->
  ends_well (before ++ sub_from ml r repl skip i b s) = true.
Proof.
  induction s as [|c s IH]; intros skip i b before Hrepl Hs Hskip Hb.
  - simpl in Hskip. replace skip with 0 by lia. cbn [sub_from].
    rewrite (local_none_at_end ml r Hlocal Hproper i b [] eq_refl).
    rewrite app_nil_r. apply Hb. simpl. lia.
  - assert (Hs' : ends_well s = true).
    { destruct s as [|d s]; [reflexivity|].
      now rewrite ends_well_cons in Hs by discriminate. }
    destruct skip as [|n]; cbn [sub_from].
    + rewrite (local_at ml r Hlocal i b).
      destruct (match_at ml r 0 None (c :: s)) as [[e g]|] eqn:E;
        cbn [option_map shift fst snd].
      * apply Hproper in E. cbn [List.length] in E.
        replace (i + e <=? i) with false by (symmetry; apply Nat.leb_gt; lia).
        rewrite app_assoc. apply IH; auto; [lia|].
        intros _. destruct (Hrepl g) as [Hg Hne].
        now rewrite ends_well_app.
      * change (c :: sub_from ml r repl 0 (S i) (Some c) s)
          with ([c] ++ sub_from ml r repl 0 (S i) (Some c) s).
        rewrite app_assoc. apply IH; auto; [lia|].
        intros Hlen. destruct s; [|discriminate].
        rewrite ends_well_app by discriminate. exact Hs.
    + apply IH; auto; [simpl in Hskip; lia|].
      intros Hn. apply Hb. simpl. lia.
Qed.
End SubTail.

Lemma space_not_star ws :
  forallb isspace ws = true -> forallb (except STAR) ws = true.
Proof.
  induction ws as [|c ws IH]; [reflexivity|]. simpl. intros H.
  apply andb_prop in H as [Hc H]. rewrite IH by assumption.
  unfold except. destruct (N.eqb_spec c STAR); [subst; discriminate|].
  reflexivity.
Qed.

Lemma lstrip_by_spaces ws x :
  forallb isspace ws = true ->
  lstrip_by isspace (ws ++ x) = lstrip_by isspace x.
Proof.
  induction ws as [|c ws IH]; [reflexivity|]. simpl. intros H.
  apply andb_prop in H as [-> H]. now apply IH.
Qed.

Lemma lstrip_by_well x :
  starts_well x = true -> lstrip_by isspace x = x.
Proof.
  destruct x as [|c x]; [reflexivity|]. simpl. intros H.
  apply negb_true_iff in H. now rewrite H.
Qed.

Lemma lstrip_by_all ws :
  forallb isspace ws = true -> lstrip_by isspace ws = [].
Proof.
  intros H. rewrite <- (app_nil_r ws). now rewrite lstrip_by_spaces.
Qed.

Lemma forallb_rev (p : N -> bool) s : forallb p (rev s) = forallb p s.
Proof.
  induction s as [|c s IH]; [reflexivity|]. simpl.
  rewrite forallb_app, IH. simpl. rewrite andb_true_r. apply andb_comm.
Qed.

(** Stripping a text leaves its core. *)
Lemma strip_core before x behind :
  forallb isspace before = true -> forallb isspace behind = true ->
  starts_well x = true -> ends_well x = true ->
  strip (before ++ x ++ behind) = x.
Proof.
  intros Hb Ha Hs He. unfold strip, rstrip_by.
  rewrite lstrip_by_spaces by assumption.
  destruct x as [|c x].
  - cbn [app]. now rewrite (lstrip_by_all behind Ha).
  - rewrite (lstrip_by_well ((c :: x) ++ behind) Hs).
    rewrite rev_app_distr, lstrip_by_spaces
      by (now rewrite forallb_rev).
    rewrite (lstrip_by_well (rev (c :: x)) He). apply rev_involutive.
Qed.

(** A text is whitespace, its core, whitespace. *)
Lemma strip_parts s :
  exists before behind,
    s = before ++ strip s ++ behind /\
    forallb isspace before = true /\ forallb isspace behind = true /\
    starts_well (strip s) = true /\ ends_well (strip s) = true.
Proof.
  set (s1 := lstrip_by isspace s).
  exists (take_by isspace s), (rev (take_by isspace (rev s1))).
  assert (E1 : s1 = strip s ++ rev (take_by isspace (rev s1))).
  { unfold strip, rstrip_by. fold s1.
    rewrite <- rev_app_distr, <- take_lstrip. now rewrite rev_involutive. }
  assert (He : ends_well (strip s) = true).
  { unfold ends_well, strip, rstrip_by. fold s1. rewrite rev_involutive.
    pose proof (lstrip_by_head isspace (rev s1)) as H.
    now destruct (lstrip_by isspace (rev s1)). }
  repeat split.
  - rewrite <- E1. apply take_lstrip.
  - apply take_by_all.
  - rewrite forallb_rev. apply take_by_all.
  - pose proof (lstrip_by_head isspace s) as H. fold s1 in H.
    rewrite E1 in H. now destruct (strip s).
  - exact He.
Qed.

(** Resolution copies the text behind the last "*" of a text without
    "[". *)
Lemma resolve_before_suffix u t :
  forallb (except STAR) t = true -> forallb (except LBRA) (u ++ t) = true ->
  process_inline_formatting (u ++ t) = process_inline_formatting u ++ t.
Proof.
  intros Ht Hl. pose proof Hl as Hl'. rewrite forallb_app in Hl'.
  apply andb_prop in Hl' as [Hul Htl].
  unfold process_inline_formatting.
  rewrite (re_sub_tail false BOLD BOLD_REPL (BOLD_local false)
             (BOLD_tail false) (BOLD_proper false) BOLD_starts u t Ht).
  rewrite (re_sub_tail false ITALIC ITALIC_REPL (ITALIC_local false)
             (ITALIC_tail false) (ITALIC_proper false) ITALIC_starts _ t Ht).
  pose proof (italic_keeps_no_bracket _ (bold_keeps_no_bracket _ Hul)) as Hu'.
  rewrite !link_fixed_no_bracket; try assumption; [reflexivity|].
  rewrite forallb_app. now rewrite Hu', Htl.
Qed.

Lemma stopper_well x : stopper x = true -> isspace x = false.
Proof.
  unfold stopper. intros H. apply andb_prop in H as [H _].
  apply andb_prop in H as [H _]. apply andb_prop in H as [_ H].
  now apply negb_true_iff in H.
Qed.

(** A resolved text starts and ends without whitespace when the text
    does. *)
Lemma resolve_starts_well s :
  forallb (except LBRA) s = true -> starts_well s = true ->
  starts_well (process_inline_formatting s) = true.
Proof.
  intros Hl Hs. destruct s as [|c s]; [reflexivity|].
  simpl in Hl. apply andb_prop in Hl as [Hcl Hsl].
  destruct (N.eqb_spec c STAR) as [->|Hc].
  - destruct (resolve_head s Hsl) as (x & r & -> & Hx).
    simpl. now rewrite (stopper_well x Hx).
  - change (c :: s) with ([c] ++ s). rewrite resolve_after_prefix.
    + exact Hs.
    + simpl. unfold except. apply N.eqb_neq in Hc. now rewrite Hc.
    + simpl. now rewrite Hcl, Hsl.
Qed.

Lemma resolve_ends_well s :
  forallb (except LBRA) s = true -> ends_well s = true ->
  ends_well (process_inline_formatting s) = true.
Proof.
  intros Hl Hs. unfold process_inline_formatting.
  pose proof (italic_keeps_no_bracket _ (bold_keeps_no_bracket _ Hl)) as Hk.
  rewrite link_fixed_no_bracket by exact Hk.
  assert (Hstep : forall r repl t,
            line_local false r -> proper_match false r ->
            (forall g, ends_well (expand repl g) = true
                       /\ expand repl g <> []) ->
            ends_well t = true -> ends_well (re_sub false r repl t) = true).
  { intros r repl t Hloc Hprop Hrepl Ht. unfold re_sub.
    apply (sub_from_ends false r repl Hloc Hprop t 0 0 None []);
      [exact Hrepl|exact Ht|lia|].
    intros H. destruct t; [reflexivity|discriminate]. }
  apply Hstep; [apply ITALIC_local|apply ITALIC_proper| |].
  - intros g. split; [|discriminate]. unfold expand. simpl.
    rewrite !app_comm_cons.
    now rewrite ends_well_app by discriminate.
  - apply Hstep; [apply BOLD_local|apply BOLD_proper| |exact Hs].
    intros g. split; [|discriminate]. unfold expand. simpl.
    rewrite !app_comm_cons.
    now rewrite ends_well_app by discriminate.
Qed.

Lemma forallb_parts (q : N -> bool) a b c :
  forallb q (a ++ b ++ c) = true -> forallb q b = true.
Proof.
  rewrite !forallb_app. intros H. apply andb_prop in H as [_ H].
  now apply andb_prop in H as [H _].
Qed.

(** In a text without "[", stripping and resolving commute. *)
Lemma strip_resolve s :
  forallb (except LBRA) s = true ->
  strip (process_inline_formatting s) = process_inline_formatting (strip s).
Proof.
  intros Hl.
  destruct (strip_parts s) as (before & behind & E & Hb & Ha & Hs & He).
  rewrite E at 1. rewrite E in Hl.
  pose proof (forallb_parts _ _ _ _ Hl) as Hcore.
  rewrite resolve_after_prefix
    by (assumption || now apply space_not_star).
  rewrite forallb_app in Hl. apply andb_prop in Hl as [_ Hl].
  rewrite resolve_before_suffix
    by (assumption || now apply space_not_star).
  apply strip_core; auto.
  - now apply resolve_starts_well.
  - now apply resolve_ends_well.
Qed.

Lemma forallb_strip (q : N -> bool) s :
  forallb q s = true -> forallb q (strip s) = true.
Proof.
  intros H. destruct (strip_parts s) as (before & behind & E & _).
  rewrite E in H. now apply forallb_parts in H.
Qed.

Lemma resolved_empty s :
  nonempty (process_inline_formatting s) = nonempty s.
Proof.
  destruct s as [|c s]; [reflexivity|].
  pose proof (resolved_nonempty (c :: s) ltac:(discriminate)) as H.
  now destruct (process_inline_formatting (c :: s)).
Qed.

Lemma nonblank_resolved line :
  forallb (except LBRA) line = true ->
  nonempty (strip (process_inline_formatting line)) = nonempty (strip line).
Proof.
  intros H. rewrite strip_resolve by assumption. apply resolved_empty.
Qed.

(** ** The program and the line-by-line reading *)

Lemma has_marker_length line :
  has_bullet_marker line = negb (marker_length line =? 0).
Proof.
  destruct line as [|c s]; [reflexivity|].
  cbn [has_bullet_marker marker_length]. destruct (alnum c).
  - destruct (lstrip_by alnum s) as [|d t]; [reflexivity|].
    now destruct ((d =? DOT)%N && space_next t).
  - now destruct ((c =? DASH)%N && space_next s).
Qed.

Lemma star_stopper : stopper STAR = true.
Proof. reflexivity. Qed.

(** Resolution leaves the marker of a line without "[" as it is. *)
Lemma marker_length_resolved line :
  forallb (except LBRA) line = true ->
  marker_length (process_inline_formatting line) = marker_length line.
Proof.
  intros Hl.
  pose proof (take_lstrip (except STAR) line) as E.
  pose proof (take_by_all (except STAR) line) as Hw.
  pose proof (lstrip_by_head (except STAR) line) as Hh.
  set (w := take_by (except STAR) line) in *.
  destruct (lstrip_by (except STAR) line) as [|c s].
  - rewrite app_nil_r in E. rewrite E in *.
    now rewrite plain_fixed by (unfold plain; now rewrite Hw, Hl).
  - assert (c = STAR).
    { apply negb_true_iff in Hh. unfold except in Hh.
      apply negb_false_iff in Hh. now apply N.eqb_eq in Hh. }
    subst c. rewrite E in *. clear E.
    pose proof Hl as Hl'. rewrite forallb_app in Hl'.
    apply andb_prop in Hl' as [Hwl Hsl]. simpl in Hsl.
    rewrite resolve_after_prefix by assumption.
    destruct (resolve_head s Hsl) as (x & r & -> & Hstop).
    now rewrite !marker_length_stop by (assumption || reflexivity).
Qed.

Lemma has_marker_resolved line :
  forallb (except LBRA) line = true ->
  has_bullet_marker (process_inline_formatting line) = has_bullet_marker line.
Proof.
  intros H. now rewrite !has_marker_length, marker_length_resolved.
Qed.

Lemma sub_keeps_class (q : N -> bool) ml r repl s :
  (forall i b s e g, match_at ml r i b s = Some (e, g) ->
     forallb q s = true -> forallb q (expand repl g) = true) ->
  forallb q s = true -> forallb q (re_sub ml r repl s) = true.
Proof. intros H Hs. unfold re_sub. now apply sub_from_keeps. Qed.

(** Resolution brings no line boundary into a text. *)
Lemma resolve_keeps_line s :
  forallb (fun c => negb (islinebreak c)) s = true ->
  forallb (fun c => negb (islinebreak c)) (process_inline_formatting s) = true.
Proof.
  intros Hs. unfold process_inline_formatting.
  apply sub_keeps_class; [|apply sub_keeps_class; [|apply sub_keeps_class]];
    try exact Hs.
  - intros i b s0 e g H Hq.
    apply LINK_inv in H as (x & sc & u & t & -> & _ & _ & Hsc & _ & _ & _ & ->).
    simpl in Hq. rewrite forallb_app in Hq. apply andb_prop in Hq as [Hx Hq].
    simpl in Hq. rewrite !forallb_app in Hq.
    apply andb_prop in Hq as [Hs1 Hq]. apply andb_prop in Hq as [Hu _].
    unfold expand. simpl. rewrite !forallb_app. simpl.
    rewrite !forallb_app. simpl. now rewrite Hs1, Hu, Hx.
  - intros i b s0 e g H Hq.
    apply ITALIC_inv in H as (x & t & -> & _ & _ & _ & ->).
    simpl in Hq. rewrite forallb_app in Hq. apply andb_prop in Hq as [Hx _].
    unfold expand. simpl. now rewrite forallb_app, Hx.
  - intros i b s0 e g H Hq.
    apply BOLD_inv in H as (x & t & -> & _ & _ & _ & ->).
    simpl in Hq. rewrite forallb_app in Hq. apply andb_prop in Hq as [Hx _].
    unfold expand. simpl. now rewrite forallb_app, Hx.
Qed.

Lemma splitlines_single s :
  forallb (fun c => negb (islinebreak c)) s = true ->
  splitlines s = match s with [] => [] | _ => [s] end.
Proof.
  induction s as [|c s IH]; [reflexivity|]. simpl. intros H.
  apply andb_prop in H as [Hc H]. apply negb_true_iff in Hc. rewrite Hc.
  rewrite IH by assumption. now destruct s.
Qed.

Lemma forallb_join (q : N -> bool) lines :
  q NL = true -> forallb (forallb q) lines = true ->
  forallb q (join_nl lines) = true.
Proof.
  intros Hq. induction lines as [|l ls IH]; [reflexivity|].
  simpl. intros H. apply andb_prop in H as [Hl H].
  destruct ls as [|l' ls]; [exact Hl|].
  rewrite forallb_app, Hl. simpl. rewrite Hq. now apply IH.
Qed.

(** A text without "[" is resolved line by line. *)
Lemma resolve_join lines :
  forallb (forallb (except LBRA)) lines = true ->
  process_inline_formatting (join_nl lines) =
  join_nl (map process_inline_formatting lines).
Proof.
  induction lines as [|l ls IH]; [reflexivity|].
  intros H. simpl in H. apply andb_prop in H as [Hl H].
  destruct ls as [|l' ls]; [reflexivity|].
  change (join_nl (l :: l' :: ls)) with (l ++ NL :: join_nl (l' :: ls)).
  rewrite resolve_lines_without_links.
  - rewrite IH by assumption. reflexivity.
  - rewrite forallb_app, Hl. now apply forallb_join.
Qed.

(** The lines of the resolved text are the resolved lines of the text. *)
Lemma splitlines_resolved_lines lines :
  lines <> [] ->
  forallb (forallb (fun c => negb (islinebreak c))) lines = true ->
  forallb (forallb (except LBRA)) lines = true ->
  splitlines (process_inline_formatting (join_nl lines)) =
  map process_inline_formatting (splitlines (join_nl lines)).
Proof.
  induction lines as [|l ls IH]; [congruence|]. intros _ Hb Hl.
  simpl in Hb, Hl. apply andb_prop in Hb as [Hb1 Hb].
  apply andb_prop in Hl as [Hl1 Hl].
  destruct ls as [|l' ls].
  - cbn [join_nl].
    rewrite !splitlines_single
      by (assumption || now apply resolve_keeps_line).
    pose proof (resolved_empty l) as He.
    destruct l as [|c l]; [reflexivity|]. cbn [map].
    now destruct (process_inline_formatting (c :: l)).
  - change (join_nl (l :: l' :: ls)) with (l ++ NL :: join_nl (l' :: ls)).
    rewrite resolve_lines_without_links
      by (rewrite forallb_app, Hl1; now apply forallb_join).
    rewrite !splitlines_first
      by (assumption || now apply resolve_keeps_line).
    cbn [map]. f_equal. apply IH; [discriminate|assumption|assumption].
Qed.

Lemma split_nl_all (q : N -> bool) s :
  forallb (fun c => q c || (c =? NL)%N) s = true ->
  forallb (forallb q) (split_nl s) = true.
Proof.
  induction s as [|c s IH]; [reflexivity|]. simpl. intros H.
  apply andb_prop in H as [Hc H]. specialize (IH H).
  destruct (split_nl_cons s) as (l & ls & E). rewrite E in *.
  destruct (c =? NL)%N; [exact IH|].
  rewrite orb_false_r in Hc. simpl in *. now rewrite Hc.
Qed.

Lemma forallb_weaken (p q : N -> bool) s :
  (forall c, p c = true -> q c = true) ->
  forallb p s = true -> forallb q s = true.
Proof.
  intros Hpq. induction s as [|c s IH]; [reflexivity|]. simpl.
  intros H. apply andb_prop in H as [Hc H].
  now rewrite (Hpq c Hc), IH.
Qed.

Lemma splitlines_resolved s :
  forallb (except LBRA) s = true -> only_nl s = true ->
  splitlines (process_inline_formatting s) =
  map process_inline_formatting (splitlines s).
Proof.
  intros Hl Hn. rewrite <- (join_split s).
  destruct (split_nl_cons s) as (l & ls & E).
  apply splitlines_resolved_lines.
  - rewrite E. discriminate.
  - now apply split_nl_all.
  - apply split_nl_all.
    apply (forallb_weaken (except LBRA)); [|exact Hl].
    now intros c ->.
Qed.

Lemma splitlines_all_nl (q : N -> bool) s :
  only_nl s = true -> forallb q s = true ->
  forallb (forallb q) (splitlines s) = true.
Proof.
  unfold only_nl. induction s as [|c s IH]; [reflexivity|].
  intros Hn Hq. simpl in Hn, Hq.
  apply andb_prop in Hn as [Hc Hn]. apply andb_prop in Hq as [Hqc Hq].
  specialize (IH Hn Hq). cbn [splitlines].
  destruct (islinebreak c) eqn:Hb.
  - simpl in Hc. apply N.eqb_eq in Hc. subst c.
    destruct s as [|c' s']; [reflexivity|]. exact IH.
  - destruct (splitlines s) as [|l ls]; simpl in *; now rewrite Hqc.
Qed.

Lemma first_nonblank_in lines line :
  first_nonblank lines = Some line -> In line lines.
Proof.
  induction lines as [|l ls IH]; [discriminate|]. simpl.
  destruct (nonempty (strip l)).
  - intros H. injection H as ->. now left.
  - intros H. right. now apply IH.
Qed.

Lemma first_nonblank_resolved lines :
  forallb (forallb (except LBRA)) lines = true ->
  first_nonblank (map process_inline_formatting lines) =
  option_map process_inline_formatting (first_nonblank lines).
Proof.
  induction lines as [|l ls IH]; [reflexivity|]. simpl. intros H.
  apply andb_prop in H as [Hl H].
  rewrite nonblank_resolved by assumption.
  destruct (nonempty (strip l)); [reflexivity|]. now apply IH.
Qed.

Lemma items_resolved lines :
  forallb (forallb (except LBRA)) lines = true ->
  map (fun line => Paragraph (re_sub false BULLET [] line) bullet_style)
      (filter nonempty (map strip (map process_inline_formatting lines))) =
  map (fun line =>
         Paragraph (process_inline_formatting (re_sub false BULLET [] line))
                   bullet_style)
      (filter nonempty (map strip lines)).
Proof.
  induction lines as [|l ls IH]; [reflexivity|]. simpl. intros H.
  apply andb_prop in H as [Hl H].
  rewrite strip_resolve, resolved_empty by assumption.
  destruct (nonempty (strip l)); [|now apply IH].
  simpl. rewrite IH by assumption.
  now rewrite marker_before_or_after by (now apply forallb_strip).
Qed.

(** On a body without "[" whose line boundaries are all "\n", the items
    of the program are those of the line-by-line reading. *)
Lemma bullet_items_agree body :
  forallb (except LBRA) body = true -> only_nl body = true ->
  bullet_items_of (process_inline_formatting (strip body)) =
  spec_bullet_items body.
Proof.
  intros Hl Hn. unfold bullet_items_of, spec_bullet_items.
  pose proof (forallb_strip _ _ Hl) as Hl'.
  pose proof (forallb_strip _ _ Hn) as Hn'.
  rewrite splitlines_resolved by assumption.
  apply items_resolved. now apply splitlines_all_nl.
Qed.

(** and so is the block of the body. *)
Lemma body_block_agree body :
  forallb (except LBRA) body = true -> only_nl body = true ->
  body_block body = spec_body_block body.
Proof.
  intros Hl Hn. unfold body_block, spec_body_block.
  rewrite bullet_items_agree by assumption.
  pose proof (forallb_strip _ _ Hl) as Hl'.
  pose proof (forallb_strip _ _ Hn) as Hn'.
  pose proof (splitlines_all_nl _ _ Hn' Hl') as Hlines.
  assert (Hp : process_inline_formatting (strip body) =
               spec_paragraph (strip body)).
  { unfold spec_paragraph. rewrite <- resolve_join, join_split; [easy|].
    apply split_nl_all. apply (forallb_weaken (except LBRA)); [|exact Hl'].
    now intros c ->. }
  rewrite splitlines_resolved, first_nonblank_resolved by assumption.
  destruct (first_nonblank (splitlines (strip body))) as [line|] eqn:E;
    cbn [option_map].
  - rewrite has_marker_resolved.
    + now rewrite Hp.
    + apply first_nonblank_in in E. rewrite forallb_forall in Hlines.
      now apply Hlines.
  - now rewrite resolved_empty, Hp.
Qed.




(** ** The first line of the body, resolved or not *)

Lemma linebreak_space c : islinebreak c = true -> isspace c = true.
Proof.
  unfold islinebreak, isspace, between.
  rewrite !orb_true_iff, !andb_true_iff, !N.leb_le, !N.eqb_eq. lia.
Qed.

Lemma hd_splitlines s : hd [] (splitlines s) = first_line s.
Proof.
  unfold first_line. induction s as [|c s IH]; [reflexivity|].
  cbn [splitlines take_by]. destruct (islinebreak c); [reflexivity|].
  cbn [negb]. rewrite <- IH. now destruct (splitlines s).
Qed.

Lemma splitlines_cons c s : exists l ls, splitlines (c :: s) = l :: ls.
Proof.
  cbn [splitlines]. destruct (islinebreak c); [eauto|].
  destruct (splitlines s); eauto.
Qed.

Lemma lstrip_by_some s :
  existsb (fun c => negb (isspace c)) s = true -> lstrip_by isspace s <> [].
Proof.
  induction s as [|c s IH]; [discriminate|]. simpl.
  destruct (isspace c); simpl; [exact IH|discriminate].
Qed.

Lemma well_nonblank l :
  starts_well l = true -> l <> [] -> nonempty (strip l) = true.
Proof.
  destruct l as [|c l]; [congruence|]. intros Hc _.
  unfold strip, rstrip_by. rewrite (lstrip_by_well (c :: l) Hc).
  assert (H : lstrip_by isspace (rev (c :: l)) <> []).
  { apply lstrip_by_some. simpl. rewrite existsb_app. simpl.
    simpl in Hc. rewrite Hc. apply orb_true_r. }
  destruct (lstrip_by isspace (rev (c :: l))) as [|d t]; [congruence|].
  simpl. now destruct (rev t).
Qed.

(** A text that starts without whitespace has its first line for its
    first line that is not blank. *)
Lemma first_nonblank_first text :
  starts_well text = true -> text <> [] ->
  first_nonblank (splitlines text) = Some (first_line text).
Proof.
  intros Hw Hne. destruct text as [|c s]; [congruence|].
  pose proof (hd_splitlines (c :: s)) as Hhd.
  destruct (splitlines_cons c s) as (l & ls & E). rewrite E in *.
  cbn [hd] in Hhd. subst l. cbn [first_nonblank].
  rewrite well_nonblank; [reflexivity| |].
  - unfold first_line. simpl. simpl in Hw.
    destruct (islinebreak c) eqn:Hb; [|exact Hw].
    apply linebreak_space in Hb. rewrite Hb in Hw. discriminate.
  - unfold first_line. simpl. simpl in Hw.
    destruct (islinebreak c) eqn:Hb; [|discriminate].
    apply linebreak_space in Hb. rewrite Hb in Hw. discriminate.
Qed.

Lemma take_by_app p w x :
  take_by p (w ++ x) =
  if forallb p w then w ++ take_by p x else take_by p w.
Proof.
  induction w as [|c w IH]; [reflexivity|]. simpl.
  destruct (p c); [|reflexivity]. simpl. rewrite IH.
  now destruct (forallb p w).
Qed.

Lemma stopper_line z : stopper z = true -> islinebreak z = false.
Proof.
  intros H. apply stopper_well in H.
  destruct (islinebreak z) eqn:E; [|reflexivity].
  apply linebreak_space in E. congruence.
Qed.

Lemma has_marker_stop w z r :
  stopper z = true -> has_bullet_marker (w ++ z :: r) = has_bullet_marker w.
Proof.
  intros H. now rewrite !has_marker_length, marker_length_stop.
Qed.

(** What stands behind a stopper does not change the marker of the
    first line. *)
Lemma marker_of_first_line w x :
  match x with [] => true | z :: _ => stopper z end = true ->
  has_bullet_marker (first_line (w ++ x)) = has_bullet_marker (first_line w).
Proof.
  intros Hx. unfold first_line. rewrite take_by_app.
  destruct (forallb (fun c => negb (islinebreak c)) w) eqn:Hw; [|reflexivity].
  assert (E : take_by (fun c => negb (islinebreak c)) w = w).
  { clear Hx. induction w as [|c w IH]; [reflexivity|]. simpl in *.
    apply andb_prop in Hw as [-> Hw]. now rewrite IH. }
  rewrite E. destruct x as [|z r]; [now rewrite app_nil_r|].
  simpl. rewrite (stopper_line z Hx). simpl.
  now apply has_marker_stop.
Qed.

Lemma link_head i b c s :
  exists r, sub_from false LINK LINK_REPL 0 i b (c :: s) = c :: r \/
            sub_from false LINK LINK_REPL 0 i b (c :: s) = 60%N :: r.
Proof.
  cbn [sub_from].
  destruct (match_at false LINK i b (c :: s)) as [[e g]|].
  - eexists. right. unfold expand. simpl. reflexivity.
  - eexists. left. reflexivity.
Qed.

Lemma plain_char_stopper y : plain_char y = false -> stopper y = true.
Proof.
  unfold plain_char, except. intros H.
  apply andb_false_iff in H as [H|H]; apply negb_false_iff in H;
    apply N.eqb_eq in H; subst y; reflexivity.
Qed.

(** Resolution copies the text before the first "*" or "[", and what it
    puts behind that text starts with a character that ends a marker. *)
Lemma resolve_prefix_any w s :
  forallb plain_char w = true ->
  match s with [] => true | y :: _ => negb (plain_char y) end = true ->
  exists z, process_inline_formatting (w ++ s) = w ++ z /\
            match z with [] => true | x :: _ => stopper x end = true.
Proof.
  intros Hw Hs.
  assert (Hstar : forallb (except STAR) w = true).
  { apply (forallb_weaken plain_char); [|exact Hw].
    intros c Hc. unfold plain_char in Hc. now apply andb_prop in Hc as [? _]. }
  assert (Hbra : forallb (except LBRA) w = true).
  { apply (forallb_weaken plain_char); [|exact Hw].
    intros c Hc. unfold plain_char in Hc. now apply andb_prop in Hc as [_ ?]. }
  assert (Hcopy : forall r repl t,
            starts_only r STAR -> line_local false r ->
            proper_match false r ->
            re_sub false r repl (w ++ t) = w ++ re_sub false r repl t).
  { intros r repl t Hr Hloc Hprop. unfold re_sub.
    rewrite sub_from_copy.
    - f_equal. apply sub_from_anywhere; auto. lia.
    - intros w1 [|c w2] -> Hne; [congruence|].
      apply (starts_only_none r STAR _ _ _ _ Hr). simpl.
      rewrite forallb_app in Hstar. apply andb_prop in Hstar as [_ Hstar].
      simpl in Hstar. now apply andb_prop in Hstar as [Hc _]. }
  unfold process_inline_formatting.
  rewrite (Hcopy BOLD BOLD_REPL s BOLD_starts (BOLD_local false)
             (BOLD_proper false)).
  rewrite (Hcopy ITALIC ITALIC_REPL _ ITALIC_starts (ITALIC_local false)
             (ITALIC_proper false)).
  unfold re_sub at 1. rewrite sub_from_copy.
  2:{ intros w1 [|c w2] -> Hne; [congruence|].
      apply (starts_only_none LINK LBRA _ _ _ _ LINK_starts). simpl.
      rewrite forallb_app in Hbra. apply andb_prop in Hbra as [_ Hbra].
      simpl in Hbra. now apply andb_prop in Hbra as [Hc _]. }
  eexists. split; [reflexivity|].
  destruct s as [|y s].
  - assert (E : re_sub false ITALIC ITALIC_REPL
                 (re_sub false BOLD BOLD_REPL []) = []) by reflexivity.
    rewrite E. cbn [sub_from].
    now rewrite (starts_only_none LINK LBRA _ _ _ _ LINK_starts).
  - apply negb_true_iff, plain_char_stopper in Hs.
    destruct (bold_head y s) as (r1 & [-> | ->]).
    + destruct (italic_head y r1) as (r2 & [-> | ->]).
      * destruct (link_head (0 + List.length w) (lastb None w) y r2)
          as (r3 & [-> | ->]); [exact Hs|reflexivity].
      * destruct (link_head (0 + List.length w) (lastb None w) 60%N r2)
          as (r3 & [-> | ->]); reflexivity.
    + destruct (italic_head 60%N r1) as (r2 & [-> | ->]);
        destruct (link_head (0 + List.length w) (lastb None w) 60%N r2)
          as (r3 & [-> | ->]); reflexivity.
Qed.

Lemma stopper_tail s :
  match s with [] => true | y :: _ => negb (plain_char y) end = true ->
  match s with [] => true | y :: _ => stopper y end = true.
Proof.
  destruct s as [|y s]; [reflexivity|]. intros H.
  now apply negb_true_iff, plain_char_stopper in H.
Qed.

(** The first line of a stripped body that is not empty is its first
    line that is not blank, before resolution and after it, and
    resolution does not change whether that line has a bullet marker. *)
Lemma first_line_raw text :
  starts_well text = true -> text <> [] ->
  first_nonblank (splitlines text) = Some (first_line text) /\
  first_nonblank (splitlines (process_inline_formatting text)) =
    Some (first_line (process_inline_formatting text)) /\
  has_bullet_marker (first_line (process_inline_formatting text)) =
    has_bullet_marker (first_line text).
Proof.
  intros Hw Hne. split; [now apply first_nonblank_first|].
  pose proof (resolved_nonempty text Hne) as Hres.
  pose proof (take_lstrip plain_char text) as E.
  pose proof (take_by_all plain_char text) as Hall.
  pose proof (lstrip_by_head plain_char text) as Hhead.
  set (w := take_by plain_char text) in *.
  set (s := lstrip_by plain_char text) in *.
  destruct (resolve_prefix_any w s Hall Hhead) as (z & Hz & Hstop).
  rewrite <- E in Hz. rewrite Hz in *. split.
  - apply first_nonblank_first; [|exact Hres].
    destruct w as [|c w].
    + destruct z as [|x z]; [now elim Hres|]. simpl.
      simpl in Hstop. now rewrite (stopper_well x Hstop).
    + rewrite E in Hw. exact Hw.
  - rewrite (marker_of_first_line w z Hstop). rewrite E.
    symmetry. apply marker_of_first_line. now apply stopper_tail.
Qed.

(** The block of a body, with the decision read off the body as it
    stands in the content. *)
Lemma body_block_raw body :
  body_block body =
  match first_nonblank (splitlines (strip body)) with
  | Some line =>
      if has_bullet_marker line
      then [ListFlowable
              (bullet_items_of (process_inline_formatting (strip body)))
              "bullet" 20]
      else [Paragraph (process_inline_formatting (strip body)) body_style]
  | None => []
  end.
Proof.
  destruct (strip_parts body) as (_ & _ & _ & _ & _ & Hw & _).
  unfold body_block. destruct (strip body) as [|c t] eqn:E; [reflexivity|].
  destruct (first_line_raw (c :: t) Hw) as (H1 & H2 & H3); [discriminate|].
  now rewrite H1, H2, H3.
Qed.



(** ** The items of a list *)

Lemma skipn_take_by p s : skipn (List.length (take_by p s)) s = lstrip_by p s.
Proof.
  induction s as [|c s IH]; [reflexivity|]. simpl.
  destruct (p c); [exact IH|reflexivity].
Qed.

(** A line without its marker is the line, or what follows the
    whitespace behind the marker. *)
Lemma without_marker_cases line :
  without_marker line = line \/
  exists pre t, line = pre ++ t /\ space_next t = true /\
                without_marker line = lstrip_by isspace t.
Proof.
  unfold without_marker. destruct line as [|c s]; [now left|].
  cbn [marker_length]. destruct (alnum c).
  - pose proof (take_lstrip alnum s) as E.
    pose proof (skipn_take_by alnum s) as Hk.
    destruct (lstrip_by alnum s) as [|d t]; [now left|].
    destruct ((d =? DOT)%N && space_next t) eqn:Hm; [|now left].
    apply andb_prop in Hm as [_ Hsp]. right.
    exists (c :: take_by alnum s ++ [d]), t. split; [|split].
    + cbn [app]. f_equal. rewrite <- app_assoc. exact E.
    + exact Hsp.
    + cbn [Nat.add skipn].
      replace (List.length (take_by alnum s) + 1
               + List.length (take_by isspace t))
        with (S (List.length (take_by isspace t))
              + List.length (take_by alnum s)) by lia.
      rewrite <- skipn_skipn, Hk. cbn [skipn]. apply skipn_take_by.
  - destruct ((c =? DASH)%N && space_next s) eqn:Hm; [|now left].
    apply andb_prop in Hm as [_ Hsp]. right.
    exists [c], s. split; [reflexivity|]. split; [exact Hsp|].
    cbn [Nat.add skipn]. apply skipn_take_by.
Qed.

Lemma all_space_ends t :
  t <> [] -> forallb isspace t = true -> ends_well t = false.
Proof.
  intros Hne Hall. unfold ends_well.
  rewrite <- forallb_rev in Hall.
  destruct (rev t) as [|c r] eqn:E.
  - apply (f_equal (@rev N)) in E. rewrite rev_involutive in E.
    now elim Hne.
  - simpl in *. apply andb_prop in Hall as [-> _]. reflexivity.
Qed.

(** A line that neither starts nor ends with whitespace keeps text when
    its marker is removed, and that text neither starts nor ends with
    whitespace. *)
Lemma without_marker_trimmed line :
  line <> [] -> starts_well line = true -> ends_well line = true ->
  without_marker line <> [] /\
  starts_well (without_marker line) = true /\
  ends_well (without_marker line) = true.
Proof.
  intros Hne Hs He.
  destruct (without_marker_cases line) as [-> | (pre & t & E & Hsp & ->)];
    [auto|].
  pose proof (take_lstrip isspace t) as Et.
  pose proof (lstrip_by_head isspace t) as Hh.
  assert (Ht : t <> []) by (destruct t; [discriminate|discriminate]).
  assert (Hrest : lstrip_by isspace t <> []).
  { intros Hnil. rewrite Hnil, app_nil_r in Et.
    rewrite E, (ends_well_app pre t Ht) in He.
    rewrite all_space_ends in He; [discriminate|exact Ht|].
    rewrite Et. apply take_by_all. }
  split; [exact Hrest|]. split.
  - destruct (lstrip_by isspace t); [reflexivity|exact Hh].
  - rewrite E, Et, app_assoc, ends_well_app in He; assumption.
Qed.

Lemma strip_trimmed s :
  starts_well (strip s) = true /\ ends_well (strip s) = true.
Proof. destruct (strip_parts s) as (_ & _ & _ & _ & _ & H1 & H2). auto. Qed.

Lemma nonempty_not_nil s : nonempty s = true -> s <> [].
Proof. now destruct s. Qed.

Lemma bullet_items_trimmed section_content item :
  In item (bullet_items_of section_content) ->
  exists text,
    item = Paragraph text bullet_style /\ text <> [] /\
    starts_well text = true /\ ends_well text = true.
Proof.
  unfold bullet_items_of. intros H. apply in_map_iff in H as (line & <- & H).
  apply filter_In in H as [H Hne]. apply in_map_iff in H as (raw & <- & _).
  exists (re_sub false BULLET [] (strip raw)). split; [reflexivity|].
  rewrite BULLET_sub. destruct (strip_trimmed raw) as [Hs He].
  apply without_marker_trimmed; auto using nonempty_not_nil.
Qed.

Lemma first_nonblank_filter lines line :
  first_nonblank lines = Some line ->
  filter nonempty (map strip lines) <> [].
Proof.
  induction lines as [|l ls IH]; [discriminate|]. simpl.
  destruct (nonempty (strip l)); [discriminate|exact IH].
Qed.

Lemma body_block_list body items bullet_type left_indent :
  In (ListFlowable items bullet_type left_indent) (body_block body) ->
  items = bullet_items_of (process_inline_formatting (strip body)) /\
  items <> [].
Proof.
  unfold body_block.
  destruct (first_nonblank
              (splitlines (process_inline_formatting (strip body))))
    as [line|] eqn:E.
  - destruct (has_bullet_marker line).
    + intros [H|[]]. injection H as <- _ _. split; [reflexivity|].
      unfold bullet_items_of. intros Hnil. apply map_eq_nil in Hnil.
      revert Hnil. now apply (first_nonblank_filter _ line).
    + intros [H|[]]. discriminate.
  - destruct (nonempty (process_inline_formatting (strip body)));
      [intros [H|[]]; discriminate|intros []].
Qed.

(** X1.  A list that is handed to ReportLab is never empty, and each of
    its items is a paragraph in the bullet style whose text is not empty
    and neither starts nor ends with whitespace: the marker goes with
    all the whitespace behind it, and a line such as "-", with no
    whitespace behind the dash, has no marker and stays as it is. *)
Theorem bullet_lists_have_trimmed_items (content : pystr) (sp : Z)
    (items : list flowable) (bullet_type : string) (left_indent : Z) :
  In (ListFlowable items bullet_type left_indent) (elements_of content sp) ->
  items <> [] /\
  forall item, In item items ->
    exists text,
      item = Paragraph text bullet_style /\ text <> [] /\
      starts_well text = true /\ ends_well text = true.
Proof.
  rewrite elements_blocks. intros H.
  apply in_flat_map in H as (section & _ & H).
  unfold section_block in H. cbn [app] in H.
  destruct H as [H|[H|H]]; [discriminate|discriminate|].
  apply in_app_or in H as [H|[H|[]]]; [|discriminate].
  apply body_block_list in H as [-> Hne]. split; [exact Hne|].
  intros item. apply bullet_items_trimmed.
Qed.

Lemma bullet_lists_have_trimmed_items_witness :
  [Paragraph (L "item") bullet_style] <> [] /\
  forall item, In item [Paragraph (L "item") bullet_style] ->
    exists text,
      item = Paragraph text bullet_style /\ text <> [] /\
      starts_well text = true /\ ends_well text = true.
Proof.
  apply (bullet_lists_have_trimmed_items
           (L "## H" ++ [NL] ++ L "-   item  ") 24
           [Paragraph (L "item") bullet_style] "bullet" 20).
  vm_compute. right. right. left. reflexivity.
Defined.

(** ** The text of a heading *)

Lemma split_nl_single l : forallb dot l = true -> split_nl l = [l].
Proof.
  induction l as [|c l IH]; [reflexivity|]. simpl. intros H.
  apply andb_prop in H as [Hc H]. unfold dot, except in Hc.
  apply negb_true_iff in Hc. rewrite Hc. now rewrite IH.
Qed.

Lemma split_nl_app l body :
  forallb dot l = true -> split_nl (l ++ NL :: body) = l :: split_nl body.
Proof.
  induction l as [|c l IH]; [reflexivity|]. simpl. intros H.
  apply andb_prop in H as [Hc H]. unfold dot, except in Hc.
  apply negb_true_iff in Hc. rewrite Hc. now rewrite IH.
Qed.

Lemma no_marker_sections lines :
  filter marker_line lines = [] -> sections_of_lines lines = [].
Proof.
  induction lines as [|l ls IH]; [reflexivity|]. simpl.
  destruct (marker_line l); [discriminate|exact IH].
Qed.

Lemma no_marker_text_until lines : forall l,
  filter marker_line (l :: lines) = [] ->
  text_until (l :: lines) = NL :: join_nl (l :: lines).
Proof.
  induction lines as [|l' ls IH]; intros l H.
  - simpl in *. destruct (marker_line l); [discriminate|].
    now rewrite app_nil_r.
  - cbn [filter] in H.
    change (text_until (l :: l' :: ls))
      with (if marker_line l then [NL] else NL :: l ++ text_until (l' :: ls)).
    destruct (marker_line l); [discriminate|].
    rewrite (IH l' H). reflexivity.
Qed.

Lemma no_marker_forallb lines :
  filter marker_line lines = [] ->
  forallb (fun l => implb (marker_line l) (has_text l)) lines = true.
Proof.
  induction lines as [|l ls IH]; [reflexivity|]. simpl.
  destruct (marker_line l); [discriminate|]. exact IH.
Qed.

Lemma lstrip_by_repeat p c k x :
  p c = true -> lstrip_by p (repeat c k ++ x) = lstrip_by p x.
Proof. intros H. induction k as [|k IH]; simpl; [|rewrite H]; auto. Qed.

Lemma forallb_repeat (p : N -> bool) c k :
  p c = true -> forallb p (repeat c k) = true.
Proof. intros H. induction k as [|k IH]; simpl; [|rewrite H]; auto. Qed.

(** A heading line with text, and what follows it when no later line
    starts with "##": one section. *)
Lemma one_heading_section line rest :
  forallb dot line = true -> marker_line line = true ->
  has_text line = true ->
  blocked rest = true -> marker_lines rest = 0 ->
  sections (line ++ rest) = [(line, rest)].
Proof.
  intros Hline Hmark Htext Hb Hm.
  unfold marker_lines in Hm. apply length_zero_iff_nil in Hm.
  destruct rest as [|c body].
  - rewrite app_nil_r.
    destruct (sections_lines line) as [_ ->].
    + unfold headings_have_text. rewrite (split_nl_single line Hline).
      simpl. now rewrite Hmark, Htext.
    + rewrite (split_nl_single line Hline). simpl. now rewrite Hmark.
  - simpl in Hb. apply N.eqb_eq in Hb. subst c.
    change (split_nl (NL :: body)) with ([] :: split_nl body) in Hm.
    cbn [filter] in Hm. change (marker_line []) with false in Hm.
    destruct (sections_lines (line ++ NL :: body)) as [_ ->].
    + unfold headings_have_text. rewrite (split_nl_app line body Hline).
      cbn [forallb]. rewrite Hmark, Htext. now apply no_marker_forallb.
    + rewrite (split_nl_app line body Hline). cbn [sections_of_lines].
      rewrite Hmark, (no_marker_sections _ Hm).
      destruct (split_nl_cons body) as (l & ls & E). rewrite E in *.
      rewrite (no_marker_text_until ls l Hm), <- E, join_split.
      reflexivity.
Qed.

Lemma heading_line_shape k sep H trail :
  2 <= k -> forallb dot sep = true -> H <> [] -> starts_well H = true ->
  forallb dot H = true -> forallb dot trail = true ->
  forallb dot (repeat HASH k ++ sep ++ H ++ trail) = true /\
  marker_line (repeat HASH k ++ sep ++ H ++ trail) = true /\
  has_text (repeat HASH k ++ sep ++ H ++ trail) = true.
Proof.
  intros Hk Hsepd Hne Hs Hd Htd. split; [|split].
  - rewrite !forallb_app, Hsepd, Hd, Htd. now rewrite forallb_repeat.
  - destruct k as [|[|k]]; [lia|lia|reflexivity].
  - unfold has_text. destruct k as [|[|k]]; [lia|lia|].
    cbn [repeat app skipn]. rewrite !existsb_app.
    destruct H as [|c H]; [congruence|]. simpl in Hs. simpl.
    rewrite Hs. now rewrite !orb_true_r.
Qed.

Lemma heading_line_text k sep H trail :
  2 <= k -> forallb isspace sep = true -> forallb isspace trail = true ->
  H <> [] -> starts_well H = true -> ends_well H = true ->
  starts_with (L "#") (sep ++ H) = false ->
  strip (lstrip (L "#") (strip (repeat HASH k ++ sep ++ H ++ trail))) = H.
Proof.
  intros Hk Hsep Htrail Hne Hs He Hh.
  assert (E1 : strip (repeat HASH k ++ sep ++ H ++ trail)
               = repeat HASH k ++ sep ++ H).
  { replace (repeat HASH k ++ sep ++ H ++ trail)
      with ([] ++ (repeat HASH k ++ sep ++ H) ++ trail)
      by (cbn [app]; now rewrite <- !app_assoc).
    apply strip_core; try reflexivity; try assumption.
    - destruct k; [lia|reflexivity].
    - now rewrite app_assoc, ends_well_app. }
  rewrite E1. unfold lstrip. rewrite lstrip_by_repeat by reflexivity.
  assert (E2 : lstrip_by (fun c => existsb (N.eqb c) (L "#")) (sep ++ H)
               = sep ++ H).
  { destruct (sep ++ H) as [|c x]; [reflexivity|]. simpl in *.
    rewrite orb_false_r. apply andb_false_iff in Hh as [Hh|Hh];
      [now rewrite Hh|discriminate]. }
  rewrite E2. rewrite <- (app_nil_r H) at 1.
  now apply strip_core.
Qed.

Lemma body_block_strip body body' :
  strip body = strip body' -> body_block body = body_block body'.
Proof. unfold body_block. now intros ->. Qed.

(** X2.  A content that is one heading line and a body without further
    heading lines: the line is two or more "#", whitespace or none, a
    heading text that neither starts nor ends with whitespace and does
    not put a further "#" at the hashes, and whitespace or none up to
    the end of the line, as the "\r" of a line that ends in "\r\n".
    The list handed to ReportLab then is the heading paragraph with
    exactly that text, resolved, the spacer, the block of the body and
    the closing spacer: the hashes and the whitespace around the text
    are gone, whatever their number. *)
Theorem heading_text_without_marker (k : nat) (sep H trail rest : pystr)
    (sp : Z) :
  2 <= k ->
  forallb isspace sep = true -> forallb dot sep = true ->
  H <> [] -> starts_well H = true -> ends_well H = true ->
  forallb dot H = true ->
  starts_with (L "#") (sep ++ H) = false ->
  forallb isspace trail = true -> forallb dot trail = true ->
  blocked rest = true -> marker_lines rest = 0 ->
  elements_of (repeat HASH k ++ sep ++ H ++ trail ++ rest) sp =
    [Paragraph (process_inline_formatting H) heading_style; Spacer 1 sp]
    ++ body_block rest ++ [Spacer 1 12].
Proof.
  intros Hk Hsep Hsepd Hne Hs He Hd Hh Htrail Htd Hb Hm.
  destruct (heading_line_shape k sep H trail) as (Hline & Hmark & Htext);
    try assumption.
  replace (repeat HASH k ++ sep ++ H ++ trail ++ rest)
    with ((repeat HASH k ++ sep ++ H ++ trail) ++ rest)
    by now rewrite <- !app_assoc.
  rewrite elements_blocks, one_heading_section by assumption.
  cbn [flat_map]. rewrite app_nil_r. unfold section_block, heading_block.
  cbn [fst snd]. now rewrite heading_line_text.
Qed.

Lemma heading_text_without_marker_witness :
  elements_of (repeat HASH 3 ++ L "  " ++ L "A #1 **plan**" ++ [CR] ++
               ([NL] ++ L "Body")) 24 =
    [Paragraph (process_inline_formatting (L "A #1 **plan**")) heading_style;
     Spacer 1 24]
    ++ body_block ([NL] ++ L "Body") ++ [Spacer 1 12].
Proof.
  apply (heading_text_without_marker 3 (L "  ") (L "A #1 **plan**") [CR]
           ([NL] ++ L "Body") 24);
    first [lia | discriminate | reflexivity].
Defined.

(** ** Resolution keeps the text *)

Lemma count_app q s t : count q (s ++ t) = count q s + count q t.
Proof. induction s as [|c s IH]; simpl; [reflexivity|]. rewrite IH. lia. Qed.

Lemma count_all s : count (fun _ => true) s = List.length s.
Proof. induction s as [|c s IH]; simpl; congruence. Qed.

Section Counting.
Variable R : nat -> nat -> Prop.
Hypothesis Rrefl : forall n, R n n.
Hypothesis Radd : forall a b c d, R a b -> R c d -> R (a + c) (b + d).
Variable q : N -> bool.
Variables (ml : bool) (r : regex) (repl : list piece).
Variables (taken brought : nat).
Hypothesis Rpattern : R taken brought.
Hypothesis Hmatch : forall i b s e g,
  match_at ml r i b s = Some (e, g) ->
  exists w t n, s = w ++ t /\ e = i + List.length w /\
                count q w = taken + n /\
                count q (expand repl g) = brought + n.

Lemma match_count i b s e g :
  match_at ml r i b s = Some (e, g) ->
  exists w t, s = w ++ t /\ e = i + List.length w /\
              R (count q w) (count q (expand repl g)).
Proof.
  intros H. apply Hmatch in H as (w & t & n & -> & -> & Hw & Hx).
  exists w, t. rewrite Hw, Hx. auto.
Qed.

(** A substitution whose matches each bring what they take away, in the
    sense of [R], does so for the whole text. *)
Lemma sub_from_count s : forall skip i b,
  R (count q (skipn skip s)) (count q (sub_from ml r repl skip i b s)).
Proof.
  induction s as [|c s IH]; intros skip i b.
  - rewrite skipn_nil. cbn [sub_from]. destruct skip; [|apply Rrefl].
    destruct (match_at ml r i b []) as [[e g]|] eqn:E; [|apply Rrefl].
    apply match_count in E as (w & t & E & _ & HR).
    symmetry in E. apply app_eq_nil in E as [-> _]. exact HR.
  - destruct skip as [|n]; [|cbn [skipn sub_from]; apply IH].
    cbn [skipn sub_from].
    destruct (match_at ml r i b (c :: s)) as [[e g]|] eqn:E.
    + apply match_count in E as (w & t & E & -> & HR).
      rewrite count_app. destruct w as [|c' w].
      * replace (i + List.length (@nil N) <=? i) with true
          by (symmetry; apply Nat.leb_le; simpl; lia).
        change (count q (c :: s)) with (0 + count q (c :: s)).
        apply Radd; [exact HR|]. cbn [count].
        apply Radd; [apply Rrefl|]. apply (IH 0).
      * cbn [app] in E. injection E as <- ->.
        replace (i + List.length (c :: w) <=? i) with false
          by (symmetry; apply Nat.leb_gt; simpl; lia).
        replace (i + List.length (c :: w) - i - 1) with (List.length w)
          by (simpl; lia).
        change (c :: w ++ t) with ((c :: w) ++ t). rewrite count_app.
        apply Radd; [exact HR|].
        specialize (IH (List.length w) (S i) (Some c)).
        now rewrite skipn_app, skipn_all, Nat.sub_diag in IH.
    + cbn [count]. apply Radd; [apply Rrefl|]. apply (IH 0).
Qed.
End Counting.

Lemma BOLD_counts q ml i b s e g :
  match_at ml BOLD i b s = Some (e, g) ->
  exists w t n, s = w ++ t /\ e = i + List.length w /\
                count q w = count q (L "****") + n /\
                count q (expand BOLD_REPL g)
                = count q (template_text BOLD_REPL) + n.
Proof.
  intros H. apply BOLD_inv in H as (x & t & -> & _ & _ & -> & ->).
  exists (STAR :: STAR :: x ++ [STAR; STAR]), t, (count q x).
  split; [cbn [app]; now rewrite <- app_assoc|]. split.
  - cbn [List.length]. rewrite length_app. simpl. lia.
  - unfold expand. simpl. rewrite !count_app. simpl. lia.
Qed.

Lemma ITALIC_counts q ml i b s e g :
  match_at ml ITALIC i b s = Some (e, g) ->
  exists w t n, s = w ++ t /\ e = i + List.length w /\
                count q w = count q (L "**") + n /\
                count q (expand ITALIC_REPL g)
                = count q (template_text ITALIC_REPL) + n.
Proof.
  intros H. apply ITALIC_inv in H as (x & t & -> & _ & _ & -> & ->).
  exists (STAR :: x ++ [STAR]), t, (count q x).
  split; [cbn [app]; now rewrite <- app_assoc|]. split.
  - cbn [List.length]. rewrite length_app. simpl. lia.
  - unfold expand. simpl. rewrite !count_app. simpl. lia.
Qed.

Lemma LINK_counts q ml i b s e g :
  match_at ml LINK i b s = Some (e, g) ->
  exists w t n, s = w ++ t /\ e = i + List.length w /\
                count q w = count q (L "[]()") + n /\
                count q (expand LINK_REPL g)
                = count q (template_text LINK_REPL) + n.
Proof.
  intros H.
  apply LINK_inv in H
    as (x & scheme & u & t & -> & _ & _ & _ & _ & _ & -> & ->).
  exists (LBRA :: x ++ RBRA :: LPAR :: scheme ++ u ++ [RPAR]), t,
         (count q x + count q (scheme ++ u)).
  split; [cbn [app]; now rewrite <- !app_assoc; cbn [app];
                         rewrite <- !app_assoc|].
  split.
  - cbn [List.length]. rewrite !length_app. cbn [List.length].
    rewrite !length_app. simpl. lia.
  - unfold expand. simpl. rewrite !count_app. simpl.
    rewrite !count_app. simpl. lia.
Qed.

Lemma avoids_count q chars w :
  avoids q chars = true ->
  forallb (fun c => existsb (N.eqb c) chars) w = true -> count q w = 0.
Proof.
  unfold avoids. intros Hq Hw. induction w as [|c w IH]; [reflexivity|].
  simpl in Hw. apply andb_prop in Hw as [Hc Hw]. simpl. rewrite (IH Hw).
  apply existsb_exists in Hc as (d & Hd & E). apply N.eqb_eq in E. subst d.
  rewrite forallb_forall in Hq. specialize (Hq c Hd).
  apply negb_true_iff in Hq. now rewrite Hq.
Qed.

Section ResolutionCount.
Variable R : nat -> nat -> Prop.
Hypothesis Rrefl : forall n, R n n.
Hypothesis Radd : forall a b c d, R a b -> R c d -> R (a + c) (b + d).
Hypothesis Rtrans : forall a b c, R a b -> R b c -> R a c.
Variable q : N -> bool.
Hypothesis Rbold :
  R (count q (L "****")) (count q (template_text BOLD_REPL)).
Hypothesis Ritalic :
  R (count q (L "**")) (count q (template_text ITALIC_REPL)).
Hypothesis Rlink :
  R (count q (L "[]()")) (count q (template_text LINK_REPL)).

Lemma resolution_count text :
  R (count q text) (count q (process_inline_formatting text)).
Proof.
  unfold process_inline_formatting, re_sub.
  eapply Rtrans; [|eapply Rtrans]; cycle 2.
  - exact (sub_from_count R Rrefl Radd q false LINK LINK_REPL _ _ Rlink
             (LINK_counts q false) _ 0 0 None).
  - exact (sub_from_count R Rrefl Radd q false BOLD BOLD_REPL _ _ Rbold
             (BOLD_counts q false) text 0 0 None).
  - exact (sub_from_count R Rrefl Radd q false ITALIC ITALIC_REPL _ _ Ritalic
             (ITALIC_counts q false) _ 0 0 None).
Qed.
End ResolutionCount.

(** X3.  Inline resolution loses no text.  The resolved text is at
    least as long as the text; of every character other than "*", "[",
    "]", "(" and ")" it has at least as many as the text; and of every
    character that is also none of those the three templates are made
    of, digits, capital letters and line breaks among them, it has
    exactly as many. *)
Theorem resolution_keeps_text (text : pystr) :
  List.length text <= List.length (process_inline_formatting text) /\
  (forall q, avoids q markers = true ->
     count q text <= count q (process_inline_formatting text)) /\
  (forall q, avoids q markers = true -> avoids q tag_chars = true ->
     count q (process_inline_formatting text) = count q text).
Proof.
  split; [|split].
  - rewrite <- !count_all.
    apply (resolution_count le); simpl; lia.
  - intros q Hq.
    apply (resolution_count le); try lia;
      rewrite (avoids_count q markers) by (exact Hq || reflexivity); lia.
  - intros q Hq Ht. symmetry.
    apply (resolution_count eq); try lia;
      rewrite (avoids_count q markers) by (exact Hq || reflexivity);
      rewrite (avoids_count q tag_chars) by (exact Ht || reflexivity);
      reflexivity.
Qed.

Lemma resolution_keeps_text_witness :
  count (N.eqb NL)
    (process_inline_formatting
       (L "**a**" ++ [NL] ++ L "[t](http://x" ++ [NL] ++ L "y) *b*")) =
  count (N.eqb NL)
    (L "**a**" ++ [NL] ++ L "[t](http://x" ++ [NL] ++ L "y) *b*").
Proof.
  apply (proj2 (proj2 (resolution_keeps_text
           (L "**a**" ++ [NL] ++ L "[t](http://x" ++ [NL] ++ L "y) *b*"))));
    reflexivity.
Defined.

(** * The application around the document *)

(** ** The saved resources *)

Lemma str_eqb_eq a b : str_eqb a b = true <-> a = b.
Proof.
  revert b. induction a as [|c a IH]; intros [|d b]; simpl;
    try (split; [discriminate|discriminate]); [tauto|].
  rewrite andb_true_iff, N.eqb_eq, IH. split.
  - now intros [-> ->].
  - intros H. injection H as -> ->. auto.
Qed.

Lemma str_eqb_refl a : str_eqb a a = true.
Proof. now apply str_eqb_eq. Qed.

Lemma str_in_In x l : str_in x l = true <-> In x l.
Proof.
  unfold str_in. rewrite existsb_exists. split.
  - intros (y & Hy & E). apply str_eqb_eq in E. now subst.
  - intros H. exists x. split; [exact H|apply str_eqb_refl].
Qed.

Lemma str_in_not x l : str_in x l = false <-> ~ In x l.
Proof.
  rewrite <- str_in_In. destruct (str_in x l); split; congruence.
Qed.

(** [save_resource] on a session that has its list. *)
Lemma save_resource_new resource w saved :
  saved_resources w = Some saved -> str_in resource saved = false ->
  save_resource resource w =
  ([st_success (L "Saved resource: " ++ resource)],
   {| saved_resources := Some (saved ++ [resource]);
      peer_suggestions := peer_suggestions w;
      saved_resources_json := json_file (saved ++ [resource]);
      peer_suggestions_json := peer_suggestions_json w |},
   Done tt).
Proof.
  intros Hs Hin. unfold save_resource, bind, get_saved_resources.
  rewrite Hs, Hin. reflexivity.
Qed.

Lemma save_resource_old resource w saved :
  saved_resources w = Some saved -> str_in resource saved = true ->
  save_resource resource w =
  ([st_info (L "Resource already saved.")], w, Done tt).
Proof.
  intros Hs Hin. unfold save_resource, bind, get_saved_resources.
  rewrite Hs, Hin. reflexivity.
Qed.

Lemma add_peer_suggestion_step s w suggestions :
  peer_suggestions w = Some suggestions ->
  add_peer_suggestion s w =
  ([st_success (L "Thank you for your suggestion!")],
   {| saved_resources := saved_resources w;
      peer_suggestions := Some (suggestions ++ [s]);
      saved_resources_json := saved_resources_json w;
      peer_suggestions_json := json_file (suggestions ++ [s]) |},
   Done tt).
Proof.
  intros Hs. unfold add_peer_suggestion, bind, get_peer_suggestions.
  rewrite Hs. reflexivity.
Qed.

(** X4.  Saving a resource twice is saving it once.  On a session that
    has its list, without duplicates, the first call returns, leaves a
    list without duplicates that holds the resource and all that was
    saved before; a second call with the same resource changes neither
    the session nor the files and only reports that the resource is
    already saved. *)
Theorem save_resource_twice (resource : pystr) (w : world)
    (saved : list pystr) :
  saved_resources w = Some saved -> NoDup saved ->
  let w1 := world_of (save_resource resource w) in
  result_of (save_resource resource w) = Done tt /\
  (exists saved1,
     saved_resources w1 = Some saved1 /\ NoDup saved1 /\
     In resource saved1 /\ incl saved saved1) /\
  save_resource resource w1 =
    ([st_info (L "Resource already saved.")], w1, Done tt).
Proof.
  intros Hs Hnd. cbv zeta.
  destruct (str_in resource saved) eqn:Hin.
  - rewrite (save_resource_old resource w saved Hs Hin).
    cbn [world_of result_of fst snd]. split; [reflexivity|]. split.
    + exists saved. apply str_in_In in Hin. auto using incl_refl.
    + now apply (save_resource_old resource w saved).
  - rewrite (save_resource_new resource w saved Hs Hin).
    cbn [world_of result_of fst snd]. split; [reflexivity|].
    assert (Hnew : In resource (saved ++ [resource]))
      by (apply in_or_app; right; now left).
    split.
    + exists (saved ++ [resource]). split; [reflexivity|].
      split; [|split; [exact Hnew|now apply incl_appl, incl_refl]].
      apply str_in_not in Hin.
      rewrite <- (rev_involutive (saved ++ [resource])).
      apply NoDup_rev. rewrite rev_app_distr. simpl. constructor.
      * now rewrite <- in_rev.
      * now apply NoDup_rev.
    + apply (save_resource_old resource _ (saved ++ [resource]));
        [reflexivity|now apply str_in_In].
Qed.

Lemma save_resource_twice_witness :
  save_resource (L "fractions")
    (world_of (save_resource (L "fractions")
       {| saved_resources := Some [L "decimals"];
          peer_suggestions := Some [];
          saved_resources_json := json_file [L "decimals"];
          peer_suggestions_json := no_file |})) =
  ([st_info (L "Resource already saved.")],
   world_of (save_resource (L "fractions")
       {| saved_resources := Some [L "decimals"];
          peer_suggestions := Some [];
          saved_resources_json := json_file [L "decimals"];
          peer_suggestions_json := no_file |}),
   Done tt).
Proof.
  apply (save_resource_twice (L "fractions")
           {| saved_resources := Some [L "decimals"];
              peer_suggestions := Some [];
              saved_resources_json := json_file [L "decimals"];
              peer_suggestions_json := no_file |} [L "decimals"]).
  - reflexivity.
  - constructor; [intros []|constructor].
Defined.

(** ** The session and the files *)

Lemma initialize_mirrored w0 t w :
  initialize_session_state (new_session w0) = (t, w, Done tt) -> mirrored w.
Proof.
  unfold initialize_session_state, new_session, bind, has_saved_resources,
    has_peer_suggestions, load_saved_resources, load_peer_suggestions,
    set_saved_resources, set_peer_suggestions, mirrored, on_disk.
  cbn. destruct (saved_resources_json w0) as [|rs|x] eqn:E1;
    destruct (peer_suggestions_json w0) as [|ss|y] eqn:E2; cbn;
    intros H; try discriminate; injection H as <- <-; cbn; eauto 10.
Qed.

Lemma mirrored_initialize w :
  mirrored w -> initialize_session_state (new_session w) = ([], w, Done tt).
Proof.
  intros (rs & ss & H1 & H2 & H3 & H4). destruct w as [a b f g].
  cbn in *. subst a b.
  unfold initialize_session_state, new_session, bind, has_saved_resources,
    has_peer_suggestions, load_saved_resources, load_peer_suggestions,
    set_saved_resources, set_peer_suggestions.
  cbn. destruct H3 as [-> | [-> ->]], H4 as [-> | [-> ->]]; reflexivity.
Qed.

Lemma perform_mirrored a w :
  mirrored w ->
  exists t w', perform a w = (t, w', Done tt) /\ mirrored w'.
Proof.
  intros (rs & ss & H1 & H2 & H3 & H4). destruct a as [r|s]; cbn [perform].
  - destruct (str_in r rs) eqn:Hin.
    + rewrite (save_resource_old r w rs H1 Hin). do 2 eexists.
      split; [reflexivity|]. exists rs, ss. auto.
    + rewrite (save_resource_new r w rs H1 Hin). do 2 eexists.
      split; [reflexivity|]. exists (rs ++ [r]), ss. cbn.
      unfold on_disk. auto.
  - rewrite (add_peer_suggestion_step s w ss H2). do 2 eexists.
    split; [reflexivity|]. exists rs, (ss ++ [s]). cbn.
    unfold on_disk. auto.
Qed.

Lemma perform_all_mirrored actions : forall w,
  mirrored w ->
  exists t w', perform_all actions w = (t, w', Done tt) /\ mirrored w'.
Proof.
  induction actions as [|a l IH]; intros w Hw.
  - exists [], w. auto.
  - destruct (perform_mirrored a w Hw) as (t1 & w1 & E1 & H1).
    destruct (IH w1 H1) as (t2 & w2 & E2 & H2).
    exists (t1 ++ t2), w2. split; [|exact H2].
    cbn [perform_all]. unfold bind. now rewrite E1, E2.
Qed.



(** ** The lists only grow *)

Lemma perform_all_result actions : forall w rs ss,
  saved_resources w = Some rs -> peer_suggestions w = Some ss ->
  exists added,
    saved_resources (world_of (perform_all actions w)) = Some (rs ++ added) /\
    peer_suggestions (world_of (perform_all actions w))
      = Some (ss ++ suggestions_of actions) /\
    (forall r, In r added <-> In r (resources_of actions) /\ ~ In r rs) /\
    NoDup added.
Proof.
  induction actions as [|a l IH]; intros w rs ss H1 H2.
  - exists []. cbn. rewrite !app_nil_r. repeat split; auto; try tauto.
    constructor.
  - cbn [perform_all]. unfold bind. destruct a as [r|s]; cbn [perform].
    + destruct (str_in r rs) eqn:Hin.
      * rewrite (save_resource_old r w rs H1 Hin).
        destruct (IH w rs ss H1 H2) as (added & E1 & E2 & Hadd & Hnd).
        destruct (perform_all l w) as [[t' w'] res].
        cbn [world_of fst snd] in *. exists added.
        split; [exact E1|]. split; [exact E2|]. split; [|exact Hnd].
        intros x. rewrite Hadd. cbn. apply str_in_In in Hin.
        split; [tauto|]. intros [[<-|Hx] Hn]; tauto.
      * rewrite (save_resource_new r w rs H1 Hin).
        match goal with |- context [perform_all l ?w1] =>
          destruct (IH w1 (rs ++ [r]) ss eq_refl H2)
            as (added & E1 & E2 & Hadd & Hnd);
          destruct (perform_all l w1) as [[t' w'] res] end.
        cbn [world_of fst snd] in *. exists (r :: added).
        rewrite <- app_assoc in E1. split; [exact E1|].
        split; [exact E2|]. apply str_in_not in Hin. split.
        -- intros x. cbn. rewrite Hadd, in_app_iff. cbn.
           destruct (str_eqb r x) eqn:Ex.
           ++ apply str_eqb_eq in Ex. subst x. tauto.
           ++ assert (r <> x)
                by (intros ->; now rewrite str_eqb_refl in Ex).
              tauto.
        -- constructor; [|exact Hnd]. rewrite Hadd, in_app_iff. cbn. tauto.
    + rewrite (add_peer_suggestion_step s w ss H2).
      match goal with |- context [perform_all l ?w1] =>
        destruct (IH w1 rs (ss ++ [s]) H1 eq_refl)
          as (added & E1 & E2 & Hadd & Hnd);
        destruct (perform_all l w1) as [[t' w'] res] end.
      cbn [world_of fst snd] in *. exists added.
      split; [exact E1|]. rewrite <- app_assoc in E2.
      split; [exact E2|]. split; [|exact Hnd]. exact Hadd.
Qed.

(** X6.  The two lists only grow.  Whatever resources are saved and
    suggestions added, in whatever order, the lists of the session
    afterwards begin with the lists from before, in their order.  Behind
    them the suggestions are all those that were added, in the order of
    the calls and with their repetitions; the resources are those that
    were saved and were not in the list, each once. *)
Theorem lists_only_grow (actions : list action) (w : world)
    (resources : list pystr) (suggestions : list suggestion) :
  saved_resources w = Some resources ->
  peer_suggestions w = Some suggestions ->
  exists added,
    saved_resources (world_of (perform_all actions w))
      = Some (resources ++ added) /\
    peer_suggestions (world_of (perform_all actions w))
      = Some (suggestions ++ suggestions_of actions) /\
    (forall r, In r added <->
               In r (resources_of actions) /\ ~ In r resources) /\
    NoDup added.
Proof. apply perform_all_result. Qed.

Lemma lists_only_grow_witness :
  exists added,
    saved_resources
      (world_of
         (perform_all [SaveResource (L "b"); SaveResource (L "a");
                       AddPeerSuggestion []; SaveResource (L "b")]
            {| saved_resources := Some [L "a"];
               peer_suggestions := Some [];
               saved_resources_json := no_file;
               peer_suggestions_json := no_file |}))
      = Some ([L "a"] ++ added) /\
    peer_suggestions
      (world_of
         (perform_all [SaveResource (L "b"); SaveResource (L "a");
                       AddPeerSuggestion []; SaveResource (L "b")]
            {| saved_resources := Some [L "a"];
               peer_suggestions := Some [];
               saved_resources_json := no_file;
               peer_suggestions_json := no_file |}))
      = Some ([] ++ suggestions_of
                      [SaveResource (L "b"); SaveResource (L "a");
                       AddPeerSuggestion []; SaveResource (L "b")]) /\
    (forall r, In r added <->
               In r (resources_of
                       [SaveResource (L "b"); SaveResource (L "a");
                        AddPeerSuggestion []; SaveResource (L "b")]) /\
               ~ In r [L "a"]) /\
    NoDup added.
Proof.
  apply (lists_only_grow
           [SaveResource (L "b"); SaveResource (L "a");
            AddPeerSuggestion []; SaveResource (L "b")]
           {| saved_resources := Some [L "a"];
              peer_suggestions := Some [];
              saved_resources_json := no_file;
              peer_suggestions_json := no_file |});
    reflexivity.
Defined.

(** ** The prompt *)

Lemma infix_app_r x a s : infix x s = true -> infix x (a ++ s) = true.
Proof.
  intros H. induction a as [|c a IH]; [exact H|].
  cbn [app infix]. rewrite IH. apply orb_true_r.
Qed.

Lemma skipn_length_app (a b : pystr) : skipn (List.length a) (a ++ b) = b.
Proof. induction a as [|c a IH]; [reflexivity|exact IH]. Qed.

(** X7.  Only the first sentence of the prompt is an f-string.  The
    generator is called with the prompt, 1000 tokens and the temperature
    0.7; for every query and subject the prompt holds the text
    "{subject}" as it stands, in the advice that should name the
    subject; and behind the subject in the first sentence the prompts
    for two subjects are the same. *)
Theorem prompt_keeps_placeholder
    (generate : pystr -> Z -> QArith_base.Q -> result (list pystr))
    (query subject : pystr) (w : world) :
  hd_error (events_of (generate_resource_content generate query subject w)) =
    Some (generator_generate (dynamic_prompt query subject) 1000
            (QArith_base.Qmake 7 10)) /\
  infix (L "strategies tailored specifically to {subject}.")
        (dynamic_prompt query subject) = true /\
  forall subject',
    skipn (List.length (L "You are an expert teacher in " ++ subject))
          (dynamic_prompt query subject) =
    skipn (List.length (L "You are an expert teacher in " ++ subject'))
          (dynamic_prompt query subject').
Proof.
  split; [|split].
  - unfold generate_resource_content, bind, emit, answer, events_of.
    destruct (generate _ _ _) as [[|text l]|e]; reflexivity.
  - unfold dynamic_prompt. rewrite !app_assoc.
    apply infix_app_r. vm_compute. reflexivity.
  - intros subject'.
    assert (E : forall s,
              dynamic_prompt query s =
              (L "You are an expert teacher in " ++ s) ++
              L ". A student asked: '" ++ query ++ L "'." ++ [NL; NL] ++
              prompt_requirements)
      by (intros s; unfold dynamic_prompt; now rewrite app_assoc).
    now rewrite !E, !skipn_length_app.
Qed.

(** Two prompts are the same only for the same subject and query, when
    the subjects are among those of the select box. *)
Lemma prompt_injective q1 q2 s1 s2 :
  In s1 subjects -> In s2 subjects ->
  dynamic_prompt q1 s1 = dynamic_prompt q2 s2 -> q1 = q2 /\ s1 = s2.
Proof.
  unfold dynamic_prompt. intros H1 H2 E.
  apply app_inv_head in E.
  assert (Hs : s1 = s2).
  { cbn in H1, H2.
    destruct H1 as [<-|[<-|[<-|[]]]], H2 as [<-|[<-|[<-|[]]]];
      try reflexivity; discriminate E. }
  split; [|exact Hs]. subst s2. apply app_inv_head in E.
  apply app_inv_head in E. now apply app_inv_tail in E.
Qed.

(** X8.  The prompt tells the requests apart.  For subjects of the
    select box, two prompts are the same only when the subjects and the
    queries are; for arbitrary subjects they need not be, since the
    query is put between quotes that it may contain itself. *)
Theorem prompt_tells_requests_apart :
  (forall q1 q2 s1 s2,
     In s1 subjects -> In s2 subjects ->
     dynamic_prompt q1 s1 = dynamic_prompt q2 s2 -> q1 = q2 /\ s1 = s2) /\
  dynamic_prompt (L "r") (L "S. A student asked: 'q") =
  dynamic_prompt (L "q. A student asked: 'r") (L "S").
Proof. split; [exact prompt_injective|reflexivity]. Qed.

Lemma prompt_tells_requests_apart_witness :
  L "fractions" = L "fractions" /\ L "Math" = L "Math".
Proof.
  apply (proj1 prompt_tells_requests_apart
           (L "fractions") (L "fractions") (L "Math") (L "Math"));
    [left; reflexivity|left; reflexivity|reflexivity].
Defined.

(** ** The FAQ *)

Lemma dict_get_listed d default : forall key,
  In key (dict_keys d) ->
  exists v, In (key, v) d /\ dict_get d key default = v.
Proof.
  induction d as [|[k v] d IH]; intros key; [intros []|].
  cbn [dict_keys map fst In dict_get]. intros H.
  destruct (str_eqb k key) eqn:E.
  - apply str_eqb_eq in E. subst k. exists v. auto.
  - destruct H as [->|H]; [now rewrite str_eqb_refl in E|].
    destruct (IH key H) as (v' & Hv & Eg). exists v'. auto.
Qed.

(** X9.  The FAQ never apologises.  For every question that the select
    box offers, the answer shown at "Get Answer" is the one that the
    table pairs with the question, and not the text for a question
    without answer; nothing else is shown and the state is left as it
    was. *)
Theorem faq_answer_is_listed (faq_question : pystr) (w : world) :
  In faq_question (dict_keys FAQS) ->
  exists answer,
    In (faq_question, answer) FAQS /\
    answer <> L "Sorry, I don't have an answer for that." /\
    display_faq faq_question true w =
      ([st_subheader (L "FAQs");
        st_selectbox (L "Select a question") (dict_keys FAQS);
        st_button (L "Get Answer");
        st_info answer], w, Done tt).
Proof.
  intros H.
  destruct (dict_get_listed FAQS (L "Sorry, I don't have an answer for that.")
              faq_question H) as (v & Hv & E).
  exists v. split; [exact Hv|]. split.
  - cbn in Hv. destruct Hv as [Hv|[Hv|[Hv|[Hv|[]]]]];
      injection Hv as _ <-; discriminate.
  - unfold display_faq, bind, emit, ret. now rewrite E.
Qed.

Lemma faq_answer_is_listed_witness :
  exists answer,
    In (L "How can I save a resource?", answer) FAQS /\
    answer <> L "Sorry, I don't have an answer for that." /\
    display_faq (L "How can I save a resource?") true
      {| saved_resources := None; peer_suggestions := None;
         saved_resources_json := no_file;
         peer_suggestions_json := no_file |} =
      ([st_subheader (L "FAQs");
        st_selectbox (L "Select a question") (dict_keys FAQS);
        st_button (L "Get Answer");
        st_info answer],
       {| saved_resources := None; peer_suggestions := None;
          saved_resources_json := no_file;
          peer_suggestions_json := no_file |}, Done tt).
Proof.
  apply (faq_answer_is_listed (L "How can I save a resource?")).
  right. left. reflexivity.
Defined.

(** ** The handler of "Get Recommendation" *)

Lemma bind_ret (A B : Type) (a : A) (k : A -> M B) w :
  bind (ret a) k w = k a w.
Proof. unfold bind, ret. now destruct (k a w) as [[t w'] r]. Qed.

Lemma bind_emit (B : Type) e (k : unit -> M B) w :
  bind (emit e) k w = match k tt w with (t, w', r) => (e :: t, w', r) end.
Proof. reflexivity. Qed.

Lemma strip_blank s : forallb isspace s = true -> strip s = [].
Proof.
  intros H. rewrite <- (app_nil_r s).
  now apply (strip_core s [] []).
Qed.

(** X10.  A query of whitespace asks nothing.  When the query is empty
    or has only whitespace, the handler warns and does nothing else: no
    model is called, nothing is saved, no document is made. *)
Theorem blank_query_only_warns
    (classifier : pystr -> list pystr -> result (list pystr))
    (translate : pystr -> pystr -> result pystr)
    (generate : pystr -> Z -> QArith_base.Q -> result (list pystr))
    (path_exists : pystr -> bool)
    (build : list flowable -> outcome (list N))
    (user_query language subject file_name : pystr)
    (save_this_resource : bool) (w : world) :
  forallb isspace user_query = true ->
  get_recommendation classifier translate generate path_exists build
    user_query language subject file_name save_this_resource w =
  ([st_warning (L "Please enter a query.")], w, Done tt).
Proof.
  intros H. unfold get_recommendation. now rewrite (strip_blank _ H).
Qed.

Lemma blank_query_only_warns_witness :
  get_recommendation (fun _ _ => Done [L "PDF"]) (fun t _ => Done t)
    (fun _ _ _ => Done [L "## H"]) (fun _ => true) (fun _ => Return [])
    (L "  " ++ [NL]) (L "hi") (L "Math") (L "generated_resource") true
    {| saved_resources := Some []; peer_suggestions := Some [];
       saved_resources_json := no_file; peer_suggestions_json := no_file |} =
  ([st_warning (L "Please enter a query.")],
   {| saved_resources := Some []; peer_suggestions := Some [];
      saved_resources_json := no_file; peer_suggestions_json := no_file |},
   Done tt).
Proof.
  apply (blank_query_only_warns (fun _ _ => Done [L "PDF"]) (fun t _ => Done t)
           (fun _ _ _ => Done [L "## H"]) (fun _ => true) (fun _ => Return [])
           (L "  " ++ [NL]) (L "hi") (L "Math") (L "generated_resource") true).
  reflexivity.
Defined.

Section Handler.
Variable classifier : pystr -> list pystr -> result (list pystr).
Variable translate : pystr -> pystr -> result pystr.
Variable generate : pystr -> Z -> QArith_base.Q -> result (list pystr).
Variable path_exists : pystr -> bool.
Variable build : list flowable -> outcome (list N).

(** The handler behind the translation and the report of it. *)
Lemma get_recommendation_language user_query language subject file_name
    save_this_resource w :
  get_recommendation classifier translate generate path_exists build
    user_query language subject file_name save_this_resource w =
  match get_recommendation classifier translate generate path_exists build
          user_query (L "en") subject file_name save_this_resource w with
  | (t, w', r) =>
      (if nonempty (strip user_query) && negb (str_eqb language (L "en"))
       then st_info (L "Translated Query: " ++ user_query) :: t
       else t, w', r)
  end.
Proof.
  unfold get_recommendation.
  destruct (nonempty (strip user_query)); [|reflexivity].
  cbn [negb andb]. unfold translate_text. rewrite !str_eqb_refl. cbn [negb].
  rewrite !bind_ret.
  set (rest := bind (classify_query classifier user_query) _).
  destruct (str_eqb language (L "en")); cbn [negb].
  - rewrite bind_ret. now destruct (rest w) as [[t w'] r].
  - rewrite bind_emit. now destruct (rest w) as [[t w'] r].
Qed.

Lemma only_bind P (A B : Type) (m : M A) (k : A -> M B) :
  only P m -> (forall a, only P (k a)) -> only P (bind m k).
Proof.
  unfold only, bind, events_of. intros Hm Hk w. specialize (Hm w).
  destruct (m w) as [[t w'] [a|x]]; cbn in *; [|exact Hm].
  specialize (Hk a w'). destruct (k a w') as [[t' w''] r]. cbn in *.
  now rewrite forallb_app, Hm, Hk.
Qed.

Lemma only_ret P (A : Type) (a : A) : only P (ret a).
Proof. intros w. reflexivity. Qed.

Lemma only_raise P (A : Type) e : only P (@raise A e).
Proof. intros w. reflexivity. Qed.

Lemma only_answer P (A : Type) (r : result A) : only P (answer r).
Proof. intros w. reflexivity. Qed.

Lemma only_emit P e : P e = true -> only P (emit e).
Proof. intros H w. cbn. now rewrite H. Qed.

Lemma only_save_resource P resource :
  (forall body, P (st_success body) = true) ->
  (forall body, P (st_info body) = true) ->
  only P (save_resource resource).
Proof.
  intros H1 H2 w. unfold save_resource, bind, get_saved_resources.
  destruct (saved_resources w) as [saved|]; [|reflexivity].
  destruct (str_in resource saved); cbn; now rewrite ?H1, ?H2.
Qed.

Lemma only_pdf P content file_name sp :
  only P (pdf path_exists build content file_name sp).
Proof.
  intros w. unfold pdf.
  now destruct (create_pdf_reportlab path_exists build content file_name sp).
Qed.

(** The handler never calls the translator. *)
Lemma get_recommendation_translator user_query language subject file_name
    save_this_resource :
  only (fun e => negb (translation e))
       (get_recommendation classifier translate generate path_exists build
          user_query language subject file_name save_this_resource).
Proof.
  unfold get_recommendation, translate_text, classify_query,
    generate_resource_content.
  rewrite str_eqb_refl. cbn [negb].
  destruct (nonempty (strip user_query)); cbn [negb];
    [|now apply only_emit].
  repeat first
    [ apply only_save_resource; reflexivity
    | apply only_pdf
    | apply only_emit; reflexivity
    | apply only_ret | apply only_raise | apply only_answer
    | apply only_bind; [|intros ?]
    | match goal with |- only _ (if ?c then _ else _) => destruct c end
    | match goal with |- only _ (match ?l with _ => _ end) => destruct l end ].
Qed.

Lemma bind_done (A B : Type) (m : M A) (k : A -> M B) w t w' a :
  m w = (t, w', Done a) ->
  bind m k w = match k a w' with (t', w'', r) => (t ++ t', w'', r) end.
Proof. unfold bind. now intros ->. Qed.

(** The handler for a query that is not blank, when the classifier and
    the generator answer and the resource, if asked, is saved. *)
Lemma get_recommendation_run user_query language subject file_name
    (save_this_resource : bool) w label labels content generations saving w' :
  nonempty (strip user_query) = true ->
  classifier user_query candidate_labels = Done (label :: labels) ->
  generate (dynamic_prompt user_query subject) 1000 (QArith_base.Qmake 7 10)
    = Done (content :: generations) ->
  (if save_this_resource return M unit
   then save_resource content else ret tt) w = (saving, w', Done tt) ->
  get_recommendation classifier translate generate path_exists build
    user_query language subject file_name save_this_resource w =
  let shown :=
    (if negb (str_eqb language (L "en"))
     then [st_info (L "Translated Query: " ++ user_query)] else [])
    ++ [classifier_call user_query candidate_labels;
        st_success (L "Recommended Resource Type: **" ++ label ++ L "**");
        generator_generate (dynamic_prompt user_query subject) 1000
          (QArith_base.Qmake 7 10);
        print content;
        st_markdown (L "### Generated Resource Content");
        st_markdown content;
        st_button (L "Save this Resource")]
    ++ saving in
  match create_pdf_reportlab path_exists build content
          (file_name ++ L ".pdf") 24 with
  | Return data =>
      (shown ++
       [st_download_button (L "Download Generated Resource as PDF") data
          (file_name ++ L ".pdf") (L "application/pdf")], w', Done tt)
  | Raise e => (shown, w', Failed (PdfError e))
  end.
Proof.
  intros Hq Hc Hg Hs. unfold get_recommendation. rewrite Hq. cbn [negb].
  unfold translate_text. rewrite str_eqb_refl. cbn [negb].
  unfold classify_query, generate_resource_content, pdf,
    default_heading_to_content_space, bind, emit, answer, ret, raise.
  unfold ret in Hs. cbv beta. rewrite Hc. cbv beta iota. rewrite Hg. cbv beta iota.
  destruct (str_eqb language (L "en")); cbn [negb]; cbv beta iota;
    rewrite Hs;
    destruct (create_pdf_reportlab path_exists build content
                (file_name ++ L ".pdf") 24) as [data|e];
    cbn [app]; rewrite ?app_nil_r; reflexivity.
Qed.
End Handler.

(** X11.  The language of the session changes nothing but one line.
    The handler asks for a translation into English, which
    [translate_text] answers with the text itself: the translator is
    never called, whichever it is, and the query goes to the classifier
    and the generator as it was typed.  For a language other than "en"
    the handler does what it does for "en" and, for a query that is not
    blank, first reports the query itself as the translated query. *)
Theorem language_changes_one_line
    (classifier : pystr -> list pystr -> result (list pystr))
    (translate : pystr -> pystr -> result pystr)
    (generate : pystr -> Z -> QArith_base.Q -> result (list pystr))
    (path_exists : pystr -> bool)
    (build : list flowable -> outcome (list N))
    (user_query language subject file_name : pystr)
    (save_this_resource : bool) (w : world) :
  get_recommendation classifier translate generate path_exists build
    user_query language subject file_name save_this_resource w =
  match get_recommendation classifier translate generate path_exists build
          user_query (L "en") subject file_name save_this_resource w with
  | (t, w', r) =>
      (if nonempty (strip user_query) && negb (str_eqb language (L "en"))
       then st_info (L "Translated Query: " ++ user_query) :: t
       else t, w', r)
  end /\
  forallb (fun e => negb (translation e))
    (events_of
       (get_recommendation classifier translate generate path_exists build
          user_query language subject file_name save_this_resource w))
    = true /\
  forall translate',
    get_recommendation classifier translate' generate path_exists build
      user_query language subject file_name save_this_resource w =
    get_recommendation classifier translate generate path_exists build
      user_query language subject file_name save_this_resource w.
Proof.
  split; [apply get_recommendation_language|].
  split; [apply get_recommendation_translator|].
  intros translate'. unfold get_recommendation, translate_text.
  now rewrite str_eqb_refl.
Qed.

Lemma saving_offers_nothing (save_this_resource : bool) content w saving w' r :
  (if save_this_resource return M unit
   then save_resource content else ret tt) w = (saving, w', r) ->
  forallb (fun e => negb (download_offer e)) saving = true.
Proof.
  destruct save_this_resource.
  - intros H.
    pose proof (only_save_resource (fun e => negb (download_offer e)) content
                  (fun _ => eq_refl) (fun _ => eq_refl) w) as Ho.
    now rewrite H in Ho.
  - unfold ret. now intros [= <- _ _].
Qed.

(** X12.  What is offered for download is the document of the generated
    text.  For a query that is not blank, a classifier and a generator
    that answer, and a save, if asked, that returns: the handler shows
    the generated text, leaves the world as the save left it, and then
    makes the document from exactly that text, with the spacing 24 and
    under the name of the file with ".pdf".  When that returns the
    bytes, the handler returns and its last event, and only that one,
    offers these bytes under that name; when it raises, the handler
    raises the same and offers nothing, and without the font it raises
    [FileNotFoundError] whatever the text. *)
Theorem download_is_the_generated_document
    (classifier : pystr -> list pystr -> result (list pystr))
    (translate : pystr -> pystr -> result pystr)
    (generate : pystr -> Z -> QArith_base.Q -> result (list pystr))
    (path_exists : pystr -> bool)
    (build : list flowable -> outcome (list N))
    (user_query language subject file_name : pystr)
    (save_this_resource : bool) (w w' : world)
    (label content : pystr) (labels generations : list pystr)
    (saving : list event) :
  nonempty (strip user_query) = true ->
  classifier user_query candidate_labels = Done (label :: labels) ->
  generate (dynamic_prompt user_query subject) 1000%Z
    (QArith_base.Qmake 7 10) = Done (content :: generations) ->
  (if save_this_resource return M unit
   then save_resource content else ret tt) w = (saving, w', Done tt) ->
  let run :=
    get_recommendation classifier translate generate path_exists build
      user_query language subject file_name save_this_resource w in
  world_of run = w' /\
  In (st_markdown content) (events_of run) /\
  match create_pdf_reportlab path_exists build content
          (file_name ++ L ".pdf") 24 with
  | Return data =>
      result_of run = Done tt /\
      exists shown,
        events_of run =
          shown ++
          [st_download_button (L "Download Generated Resource as PDF") data
             (file_name ++ L ".pdf") (L "application/pdf")] /\
        forallb (fun e => negb (download_offer e)) shown = true
  | Raise e =>
      result_of run = Failed (PdfError e) /\
      forallb (fun e => negb (download_offer e)) (events_of run) = true
  end /\
  (path_exists font_path = false ->
   result_of run =
     Failed (PdfError (FileNotFoundError
                         (L "TTF Font file not found: " ++ font_path)))) /\
  (path_exists font_path = true ->
   create_pdf_reportlab path_exists build content (file_name ++ L ".pdf") 24
   = build (elements_of content 24)).
Proof.
  intros Hq Hc Hg Hs run.
  pose proof (get_recommendation_run classifier translate generate
                path_exists build user_query language subject file_name
                save_this_resource w label labels content generations
                saving w' Hq Hc Hg Hs) as E.
  fold run in E. cbv zeta in E.
  pose proof (saving_offers_nothing _ _ _ _ _ _ Hs) as Hsave.
  set (shown := (if negb (str_eqb language (L "en"))
                 then [st_info (L "Translated Query: " ++ user_query)]
                 else []) ++ _ ++ saving) in E.
  assert (Hshown : forallb (fun e => negb (download_offer e)) shown = true).
  { unfold shown. rewrite !forallb_app, Hsave.
    now destruct (negb (str_eqb language (L "en"))). }
  assert (Hin : In (st_markdown content) shown).
  { unfold shown. apply in_or_app. right. apply in_or_app. left.
    cbn. tauto. }
  unfold create_pdf_reportlab in *.
  destruct (path_exists font_path); cbn [negb] in *.
  - destruct (build (elements_of content 24)) as [data|e]; rewrite E;
      cbn [world_of events_of result_of fst snd].
    + split; [reflexivity|]. split; [apply in_or_app; now left|].
      split; [|split; [discriminate|reflexivity]].
      split; [reflexivity|]. exists shown. auto.
    + repeat split; auto; discriminate.
  - rewrite E. cbn [world_of events_of result_of fst snd].
    repeat split; auto; discriminate.
Qed.

Lemma download_is_the_generated_document_witness :
  world_of
    (get_recommendation (fun _ _ => Done [L "PDF"]) (fun t _ => Done t)
       (fun _ _ _ => Done [L "## H" ++ [NL] ++ L "- item"])
       (fun _ => true) (fun elements => Return [N.of_nat (List.length elements)])
       (L "fractions") (L "hi") (L "Math") (L "generated_resource") true
       {| saved_resources := Some []; peer_suggestions := Some [];
          saved_resources_json := no_file;
          peer_suggestions_json := no_file |}) =
  {| saved_resources := Some [L "## H" ++ [NL] ++ L "- item"];
     peer_suggestions := Some [];
     saved_resources_json := json_file [L "## H" ++ [NL] ++ L "- item"];
     peer_suggestions_json := no_file |}.
Proof.
  apply (download_is_the_generated_document
           (fun _ _ => Done [L "PDF"]) (fun t _ => Done t)
           (fun _ _ _ => Done [L "## H" ++ [NL] ++ L "- item"])
           (fun _ => true)
           (fun elements => Return [N.of_nat (List.length elements)])
           (L "fractions") (L "hi") (L "Math") (L "generated_resource") true
           {| saved_resources := Some []; peer_suggestions := Some [];
              saved_resources_json := no_file;
              peer_suggestions_json := no_file |}
           {| saved_resources := Some [L "## H" ++ [NL] ++ L "- item"];
              peer_suggestions := Some [];
              saved_resources_json :=
                json_file [L "## H" ++ [NL] ++ L "- item"];
              peer_suggestions_json := no_file |}
           (L "PDF") (L "## H" ++ [NL] ++ L "- item") [] []
           [st_success (L "Saved resource: " ++ L "## H" ++ [NL] ++ L "- item")]);
    reflexivity.
Defined.

(** ** What the handler leaves behind *)

Lemma keeps_bind (A B : Type) (m : M A) (k : A -> M B) :
  keeps_world m -> (forall a, keeps_world (k a)) -> keeps_world (bind m k).
Proof.
  unfold keeps_world, bind, world_of. intros Hm Hk w. specialize (Hm w).
  destruct (m w) as [[t w'] [a|x]]; cbn in *; [|exact Hm]. subst w'.
  specialize (Hk a w). now destruct (k a w) as [[t' w''] r].
Qed.

Lemma keeps_ret (A : Type) (a : A) : keeps_world (ret a).
Proof. intros w. reflexivity. Qed.

Lemma keeps_raise (A : Type) e : keeps_world (@raise A e).
Proof. intros w. reflexivity. Qed.

Lemma keeps_answer (A : Type) (r : result A) : keeps_world (answer r).
Proof. intros w. reflexivity. Qed.

Lemma keeps_emit e : keeps_world (emit e).
Proof. intros w. reflexivity. Qed.

Lemma keeps_pdf path_exists build content file_name sp :
  keeps_world (pdf path_exists build content file_name sp).
Proof.
  intros w. unfold pdf.
  now destruct (create_pdf_reportlab path_exists build content file_name sp).
Qed.

Lemma fails_bind P (A B : Type) (m : M A) (k : A -> M B) :
  only P m -> (forall a, fails_with_only P (k a)) ->
  fails_with_only P (bind m k).
Proof.
  unfold only, fails_with_only, bind, events_of, result_of.
  intros Hm Hk w e. specialize (Hm w).
  destruct (m w) as [[t w'] [a|x]]; cbn in *; [|now intros _].
  specialize (Hk a w'). destruct (k a w') as [[t' w''] r]. cbn in *.
  intros ->. now rewrite forallb_app, Hm, (Hk e eq_refl).
Qed.

Lemma fails_emit P e : fails_with_only P (emit e).
Proof. intros w x. discriminate. Qed.

Lemma fails_only P (A : Type) (m : M A) : only P m -> fails_with_only P m.
Proof. intros H w e _. apply H. Qed.

(** X13.  The handler writes only when it is asked to, and offers no
    document when it raises.  Whatever the services answer and whatever
    the session holds: when the button "Save this Resource" is not
    pressed, the handler leaves the session and the files as they were;
    and when the handler raises, in a service, in the save or in the
    making of the document, no download has been offered. *)
Theorem handler_writes_on_request_only
    (classifier : pystr -> list pystr -> result (list pystr))
    (translate : pystr -> pystr -> result pystr)
    (generate : pystr -> Z -> QArith_base.Q -> result (list pystr))
    (path_exists : pystr -> bool)
    (build : list flowable -> outcome (list N))
    (user_query language subject file_name : pystr)
    (save_this_resource : bool) (w : world) :
  (save_this_resource = false ->
   world_of
     (get_recommendation classifier translate generate path_exists build
        user_query language subject file_name save_this_resource w) = w) /\
  (forall e,
     result_of
       (get_recommendation classifier translate generate path_exists build
          user_query language subject file_name save_this_resource w)
       = Failed e ->
     forallb (fun e => negb (download_offer e))
       (events_of
          (get_recommendation classifier translate generate path_exists build
             user_query language subject file_name save_this_resource w))
       = true).
Proof.
  split.
  - intros ->. revert w. fold (keeps_world
      (get_recommendation classifier translate generate path_exists build
         user_query language subject file_name false)).
    unfold get_recommendation, translate_text, classify_query,
      generate_resource_content.
    rewrite str_eqb_refl. cbn [negb].
    destruct (nonempty (strip user_query)); cbn [negb];
      [|apply keeps_emit].
    repeat first
      [ apply keeps_pdf | apply keeps_emit | apply keeps_ret
      | apply keeps_raise | apply keeps_answer
      | apply keeps_bind; [|intros ?]
      | match goal with |- keeps_world (if ?c then _ else _) =>
          destruct c end
      | match goal with |- keeps_world (match ?l with _ => _ end) =>
          destruct l end ].
  - revert w. fold (fails_with_only (fun e => negb (download_offer e))
      (get_recommendation classifier translate generate path_exists build
         user_query language subject file_name save_this_resource)).
    unfold get_recommendation, translate_text, classify_query,
      generate_resource_content.
    rewrite str_eqb_refl. cbn [negb].
    destruct (nonempty (strip user_query)); cbn [negb];
      [|apply fails_emit].
    repeat first
      [ apply fails_emit
      | apply fails_bind; [|intros ?]
      | apply only_save_resource; reflexivity
      | apply only_pdf
      | apply only_emit; reflexivity
      | apply only_ret | apply only_raise | apply only_answer
      | apply only_bind; [|intros ?]
      | match goal with |- only _ (if ?c then _ else _) => destruct c end
      | match goal with |- only _ (match ?l with _ => _ end) =>
          destruct l end
      | match goal with |- fails_with_only _ (if ?c then _ else _) =>
          destruct c end
      | match goal with |- fails_with_only _ (match ?l with _ => _ end) =>
          destruct l end
      | apply fails_only ].
Qed.

Lemma handler_writes_on_request_only_witness :
  world_of
    (get_recommendation (fun _ _ => Done [L "PDF"]) (fun t _ => Done t)
       (fun _ _ _ => Done [L "## H"]) (fun _ => false) (fun _ => Return [])
       (L "fractions") (L "en") (L "Math") (L "generated_resource") false
       {| saved_resources := Some []; peer_suggestions := Some [];
          saved_resources_json := no_file;
          peer_suggestions_json := no_file |}) =
  {| saved_resources := Some []; peer_suggestions := Some [];
     saved_resources_json := no_file; peer_suggestions_json := no_file |}.
Proof.
  apply (handler_writes_on_request_only
           (fun _ _ => Done [L "PDF"]) (fun t _ => Done t)
           (fun _ _ _ => Done [L "## H"]) (fun _ => false)
           (fun _ => Return [])
           (L "fractions") (L "en") (L "Math") (L "generated_resource") false).
  reflexivity.
Defined.

(** ** The whitespace around a paragraph *)

Section SubEnds.
Variables (ml : bool) (r : regex) (repl : list piece).
Hypothesis Hinside : forall i b s e g,
  match_at ml r i b s = Some (e, g) -> i < e <= i + List.length s.
Hypothesis Hrepl : forall g,
  ends_well (expand repl g) = true /\ expand repl g <> [].

(** A substitution whose matches are not empty and whose template ends
    without whitespace keeps the end of a text free of whitespace. *)
Lemma sub_from_ends_any s : forall skip i b before,
  ends_well s = true -> skip <= List.length s ->
  (skip = List.length s -> ends_well before = true) ->
  ends_well (before ++ sub_from ml r repl skip i b s) = true.
Proof.
  induction s as [|c s IH]; intros skip i b before Hs Hskip Hb.
  - simpl in Hskip. replace skip with 0 by lia. cbn [sub_from].
    destruct (match_at ml r i b []) as [[e g]|] eqn:E.
    + apply Hinside in E. simpl in E. lia.
    + rewrite app_nil_r. apply Hb. simpl. lia.
  - assert (Hs' : ends_well s = true).
    { destruct s as [|d s]; [reflexivity|].
      now rewrite ends_well_cons in Hs by discriminate. }
    destruct skip as [|n]; cbn [sub_from].
    + destruct (match_at ml r i b (c :: s)) as [[e g]|] eqn:E.
      * apply Hinside in E. cbn [List.length] in E.
        replace (e <=? i) with false by (symmetry; apply Nat.leb_gt; lia).
        rewrite app_assoc. apply IH; auto; [lia|].
        intros _. destruct (Hrepl g) as [Hg Hne].
        now rewrite ends_well_app.
      * change (c :: sub_from ml r repl 0 (S i) (Some c) s)
          with ([c] ++ sub_from ml r repl 0 (S i) (Some c) s).
        rewrite app_assoc. apply IH; auto; [lia|].
        intros Hlen. destruct s; [|discriminate].
        rewrite ends_well_app by discriminate. exact Hs.
    + apply IH; auto; [simpl in Hskip; lia|].
      intros Hn. apply Hb. simpl. lia.
Qed.

Lemma re_sub_ends s :
  ends_well s = true -> ends_well (re_sub ml r repl s) = true.
Proof.
  intros Hs. unfold re_sub.
  apply (sub_from_ends_any s 0 0 None []); [exact Hs|lia|].
  intros H. destruct s; [reflexivity|discriminate].
Qed.
End SubEnds.

Lemma resolve_ends_well_any s :
  ends_well s = true -> ends_well (process_inline_formatting s) = true.
Proof.
  intros Hs. unfold process_inline_formatting.
  apply re_sub_ends; [| |apply re_sub_ends; [| |apply re_sub_ends]];
    try exact Hs.
  - intros i b t e g H.
    apply LINK_inv in H
      as (x & scheme & u & t' & -> & _ & _ & _ & _ & _ & -> & _).
    cbn [List.length]. rewrite !length_app. cbn [List.length].
    rewrite !length_app. cbn [List.length]. lia.
  - intros g. split; [|discriminate]. unfold expand. simpl.
    rewrite !app_comm_cons, !app_assoc.
    now rewrite ends_well_app by discriminate.
  - intros i b t e g H.
    apply ITALIC_inv in H as (x & t' & -> & _ & _ & -> & _).
    cbn [List.length]. rewrite !length_app. cbn [List.length]. lia.
  - intros g. split; [|discriminate]. unfold expand. simpl.
    rewrite !app_comm_cons.
    now rewrite ends_well_app by discriminate.
  - intros i b t e g H.
    apply BOLD_inv in H as (x & t' & -> & _ & _ & -> & _).
    cbn [List.length]. rewrite !length_app. cbn [List.length]. lia.
  - intros g. split; [|discriminate]. unfold expand. simpl.
    rewrite !app_comm_cons.
    now rewrite ends_well_app by discriminate.
Qed.

Lemma resolve_starts_well_any s :
  starts_well s = true -> starts_well (process_inline_formatting s) = true.
Proof.
  intros Hs. destruct s as [|c s]; [reflexivity|].
  pose proof (resolved_nonempty (c :: s) ltac:(discriminate)) as Hres.
  pose proof (take_lstrip plain_char (c :: s)) as E.
  pose proof (take_by_all plain_char (c :: s)) as Hall.
  pose proof (lstrip_by_head plain_char (c :: s)) as Hhead.
  destruct (resolve_prefix_any _ _ Hall Hhead) as (z & Hz & Hstop).
  rewrite <- E in Hz. rewrite Hz in *.
  destruct (take_by plain_char (c :: s)) as [|d w].
  - destruct z as [|x z]; [now elim Hres|]. simpl.
    simpl in Hstop. now rewrite (stopper_well x Hstop).
  - rewrite E in Hs. exact Hs.
Qed.

(** A stripped text that is resolved neither starts nor ends with
    whitespace. *)
Lemma resolved_strip_trimmed s :
  starts_well (process_inline_formatting (strip s)) = true /\
  ends_well (process_inline_formatting (strip s)) = true.
Proof.
  destruct (strip_trimmed s) as [H1 H2].
  split; [now apply resolve_starts_well_any|now apply resolve_ends_well_any].
Qed.

Lemma body_block_paragraph body text style :
  In (Paragraph text style) (body_block body) ->
  text = process_inline_formatting (strip body) /\ style = body_style /\
  text <> [].
Proof.
  unfold body_block.
  set (section_content := process_inline_formatting (strip body)).
  destruct (first_nonblank (splitlines section_content)) as [line|] eqn:E.
  - destruct (has_bullet_marker line); intros [H|[]]; [discriminate|].
    injection H as <- <-. repeat split. intros Hnil.
    rewrite Hnil in E. discriminate.
  - destruct (nonempty section_content) eqn:Hne; [|intros []].
    intros [H|[]]. injection H as <- <-. repeat split.
    now apply nonempty_not_nil.
Qed.

(** X14.  No paragraph starts or ends with whitespace.  Every paragraph
    in the list handed to ReportLab is a heading in the heading style or
    a body in the body style; its text neither starts nor ends with
    whitespace, also after the inline resolution, which is applied to
    the stripped text; and a body paragraph is never empty, while a
    heading paragraph is empty for a heading line of hashes alone, as
    "###". *)
Theorem paragraphs_are_trimmed :
  (forall content sp text style,
     In (Paragraph text style) (elements_of content sp) ->
     (style = heading_style \/ style = body_style /\ text <> []) /\
     starts_well text = true /\ ends_well text = true) /\
  (forall sp,
     elements_of (L "###") sp =
     [Paragraph [] heading_style; Spacer 1 sp; Spacer 1 12]).
Proof.
  split; [|reflexivity]. intros content sp text style.
  rewrite elements_blocks. intros H.
  apply in_flat_map in H as ([heading body] & _ & H).
  unfold section_block in H. cbn [app fst snd] in H.
  destruct H as [H|[H|H]]; [|discriminate|].
  - unfold heading_block in H. injection H as <- <-.
    split; [now left|]. apply resolved_strip_trimmed.
  - apply in_app_or in H as [H|[H|[]]]; [|discriminate].
    apply body_block_paragraph in H as (-> & -> & Hne).
    split; [now right|]. apply resolved_strip_trimmed.
Qed.

Lemma paragraphs_are_trimmed_witness :
  (body_style = heading_style \/
   body_style = body_style /\ L "<b>Body</b>" <> []) /\
  starts_well (L "<b>Body</b>") = true /\
  ends_well (L "<b>Body</b>") = true.
Proof.
  apply (proj1 paragraphs_are_trimmed
           (L "## H" ++ [NL] ++ L "  **Body** " ++ [NL]) 24%Z
           (L "<b>Body</b>") body_style).
  vm_compute. right. right. left. reflexivity.
Defined.
